(** * bbox-moto: dataset utilities and inference endpoint, embedded in Rocq

    The repository is a family of independent Python scripts working on
    YOLO label files, plus one HTTP handler.  Each script is embedded below
    in a module of its own, after the Python primitives they share:

    - [Py]: Python [str] as a list of Unicode code points, with
      [str.splitlines], [str.strip], [str.split], [str.join], list slicing,
      exceptions and a result type;
    - [Fs]: the file system the scripts read and write through [pathlib]
      and [shutil], as a finite map from paths to nodes, with a state and
      error monad;
    - [Binary64]: Python's [float] as IEEE 754 binary64 numbers, where a
      script's result depends on the rounding of a product;
    - one module per script, keeping the names of the source functions.

    The first part of the file holds the definitions, the second part the
    lemmas and the theorems about them. *)

From Stdlib Require Import ZArith NArith QArith Qabs Qround Qpower Reals Lra Lia.
From Stdlib Require Import SpecFloat.
From Stdlib Require Import Ascii String List Permutation.
From stdpp Require Import base option list sorting gmap strings fin_maps.

Set Default Proof Using "Type".

(* ===================================================================== *)
(** * Part I: definitions                                                 *)
(* ===================================================================== *)

(** ** Python primitives *)

Module Py.

(** A Python [str] is a sequence of Unicode code points. *)
Abbreviation text := (list N).

(** An ASCII literal as a [str]. *)
Definition lit (s : string) : text :=
  map N_of_ascii (list_ascii_of_string s).

(** [Py_UNICODE_ISSPACE]: the code points [str.strip] and [str.split]
    treat as whitespace. *)
Definition isspace (c : N) : bool :=
  ((9 <=? c) && (c <=? 13) || (28 <=? c) && (c <=? 32)
   || (c =? 133) || (c =? 160) || (c =? 5760)
   || (8192 <=? c) && (c <=? 8202)
   || (c =? 8232) || (c =? 8233) || (c =? 8239) || (c =? 8287)
   || (c =? 12288))%N.

(** [Py_UNICODE_ISLINEBREAK]: the code points [str.splitlines] breaks at. *)
Definition islinebreak (c : N) : bool :=
  ((10 <=? c) && (c <=? 13) || (28 <=? c) && (c <=? 30)
   || (c =? 133) || (c =? 8232) || (c =? 8233))%N.

Definition LF : N := 10%N.
Definition CR : N := 13%N.
Definition SP : N := 32%N.

(** [str.splitlines()]: one line per line boundary, a CR LF pair counting
    as one boundary; what follows the last boundary is a line only when it
    is not empty. *)
Fixpoint splitlines (s : text) : list text :=
  match s with
  | [] => []
  | c :: s' =>
      if islinebreak c then
        [] :: match s' with
              | c' :: s'' =>
                  if (c =? CR)%N && (c' =? LF)%N then splitlines s''
                  else splitlines s'
              | [] => []
              end
      else
        match splitlines s' with
        | l :: ls => (c :: l) :: ls
        | [] => [[c]]
        end
  end.

(** [str.strip()] *)
Fixpoint lstrip (s : text) : text :=
  match s with
  | c :: s' => if isspace c then lstrip s' else s
  | [] => []
  end.

Definition rstrip (s : text) : text := rev (lstrip (rev s)).

Definition strip (s : text) : text := rstrip (lstrip s).

(** [str.split()] with no separator: the maximal runs of non-whitespace. *)
Fixpoint split (s : text) : list text :=
  match s with
  | [] => []
  | c :: s' =>
      if isspace c then split s'
      else
        match s' with
        | [] => [[c]]
        | c' :: _ =>
            if isspace c' then [c] :: split s'
            else match split s' with
                 | w :: ws => (c :: w) :: ws
                 | [] => [[c]]
                 end
        end
  end.

(** [sep.join(parts)] *)
Fixpoint join (sep : text) (parts : list text) : text :=
  match parts with
  | [] => []
  | [p] => p
  | p :: ps => p ++ sep ++ join sep ps
  end.

(** [s.endswith(suffix)] *)
Definition endswith (s suffix : text) : bool :=
  bool_decide (drop (length s - length suffix) s = suffix).

(** A sequence index or slice bound, as Python normalises it against a
    length [n]: negative bounds count from the end, and bounds are clamped
    into [0, n]. *)
Definition slice_bound (n : nat) (i : Z) : nat :=
  if (i <? 0)%Z then Z.to_nat (Z.max 0 (i + Z.of_nat n))
  else Nat.min n (Z.to_nat i).

(** [l[start:stop]], an absent bound written [None]. *)
Definition slice {A} (l : list A) (start stop : option Z) : list A :=
  let n := length l in
  let lo := from_option (slice_bound n) 0 start in
  let hi := from_option (slice_bound n) n stop in
  take (hi - lo) (drop lo l).

(** The decimal digits of a number, the most significant first: [str(n)]
    is their characters. *)
Fixpoint digits_upto (fuel : nat) (n : N) : list N :=
  match fuel with
  | O => []
  | S fuel' =>
      if (n <? 10)%N then [n]
      else digits_upto fuel' (n / 10)%N ++ [(n mod 10)%N]
  end.

Definition digits (n : N) : list N :=
  digits_upto (S (N.to_nat (N.log2 n))) n.

Definition str_of_N (n : N) : text :=
  map (fun d => (48 + d)%N) (digits n).

(** The exceptions the scripts raise or let through. *)
Inductive exn : Type :=
  | ValueError (msg : text)
  | RuntimeError (msg : text)
  | IndexError
  | OverflowError
  | FileNotFoundError
  | NotADirectoryError
  | IsADirectoryError
  | FileExistsError
  | SameFileError
  | DecimalOverflow
  | DecimalDivisionByZero
  | DecimalInvalidOperation
  | HTTPException (status_code : Z) (detail : text).

Inductive result (A : Type) : Type :=
  | Ok (a : A)
  | Raise (e : exn).
Arguments Ok {A} a.
Arguments Raise {A} e.

Definition rbind {A B} (r : result A) (k : A -> result B) : result B :=
  match r with
  | Ok a => k a
  | Raise e => Raise e
  end.

(** A [for] loop whose body may raise: the first exception ends it. *)
Fixpoint rfold {A S} (body : S -> A -> result S) (s : S) (l : list A)
  : result S :=
  match l with
  | [] => Ok s
  | x :: l' => rbind (body s x) (fun s' => rfold body s' l')
  end.

End Py.

Import Py.

(** ** The file system *)

Module Fs.

(** A path is the list of its components below a fixed root; the scripts
    build paths with [/] only, so no component is [.] or [..]. *)
Abbreviation Path := (list string).

(** [path / name] *)
Definition child (p : Path) (name : string) : Path := p ++ [name].

(** [path.parent]; the root is its own parent. *)
Definition parent (p : Path) : Path := removelast p.

(** [path.name]; empty for the root. *)
Definition name (p : Path) : string := List.last p EmptyString.

(** [name.rfind(".")] on the characters of a name. *)
Fixpoint rfind_dot (l : list ascii) : option nat :=
  match l with
  | [] => None
  | c :: l' =>
      match rfind_dot l' with
      | Some i => Some (S i)
      | None => if Ascii.eqb c "." then Some 0%nat else None
      end
  end.

(** [PurePath.suffix] and [PurePath.stem] of a name: the name is cut at
    its last dot, unless that dot starts or ends the name. *)
Definition cut_at_suffix (n : string) : option nat :=
  let l := list_ascii_of_string n in
  match rfind_dot l with
  | Some i => if (0 <? i)%nat && (i <? length l - 1)%nat then Some i else None
  | None => None
  end.

Definition suffix (n : string) : string :=
  match cut_at_suffix n with
  | Some i => string_of_list_ascii (drop i (list_ascii_of_string n))
  | None => EmptyString
  end.

Definition stem (n : string) : string :=
  match cut_at_suffix n with
  | Some i => string_of_list_ascii (take i (list_ascii_of_string n))
  | None => n
  end.

(** [str.lower()] on the letters A to Z (the extensions compared below
    have no letter that another character lowers to). *)
Definition lower_ascii (c : ascii) : ascii :=
  let k := nat_of_ascii c in
  if (65 <=? k)%nat && (k <=? 90)%nat then ascii_of_nat (k + 32) else c.

Definition lower (s : string) : string :=
  string_of_list_ascii (map lower_ascii (list_ascii_of_string s)).

(** [s.split(sep)] on a name, for a one-character separator. *)
Fixpoint split_on (sep : ascii) (s : string) : list string :=
  match s with
  | EmptyString => [EmptyString]
  | String c s' =>
      if Ascii.eqb c sep then EmptyString :: split_on sep s'
      else match split_on sep s' with
           | w :: ws => String c w :: ws
           | [] => [String c EmptyString]
           end
  end.

(** [path / s] for a string that may hold separators: its components
    are added, the empty ones and [.] dropped; a leading separator starts
    again from the root. *)
Definition joinpath (p : Path) (s : string) : Path :=
  let parts :=
    List.filter (fun c => negb (bool_decide (c = EmptyString))
                          && negb (bool_decide (c = "."%string)))
                (split_on "/" s) in
  match s with
  | String "/" _ => parts
  | _ => p ++ parts
  end.

(** What a path leads to.  The content of a file is what reading it
    returns: the code points of a text file as [Path.read_text] decodes
    them, its line ends as text mode hands them over, and the bytes of an
    image.  (What the scripts write has [LF] as its only line end, which
    is read back as written.) *)
Inductive node : Type :=
  | Dir
  | File (content : text).

#[export] Instance node_eq_dec : EqDecision node.
Proof. solve_decision. Defined.

(** The state of the disk: the nodes by path.  The root is a directory
    that is always there. *)
Abbreviation disk := (gmap (list string) node).

Definition node_at (d : disk) (p : Path) : option node :=
  match p with
  | [] => Some Dir
  | _ => d !! p
  end.

(** The names of the entries of directory [p], as [os.listdir] and
    [os.scandir] enumerate them (in the order of the map, the operating
    system promising none). *)
Definition entry_of (p : Path) (q : Path) : option string :=
  match q with
  | [] => None
  | _ => if decide (parent q = p) then Some (name q) else None
  end.

Definition entries (d : disk) (p : Path) : list string :=
  omap (fun kv => entry_of p kv.1) (map_to_list d).

(** Computations on the disk that may raise: the state is kept when an
    exception leaves, as the writes before it are done. *)
Definition M (A : Type) : Type := disk -> result A * disk.

Definition ret {A} (a : A) : M A := fun d => (Ok a, d).

Definition raise {A} (e : exn) : M A := fun d => (Raise e, d).

Definition bind {A B} (m : M A) (k : A -> M B) : M B :=
  fun d =>
    match m d with
    | (Ok a, d') => k a d'
    | (Raise e, d') => (Raise e, d')
    end.

Definition lift {A} (r : result A) : M A := fun d => (r, d).

Declare Scope fs_scope.
Delimit Scope fs_scope with fs.
Notation "x <- m ;; k" := (bind m (fun x => k))
  (at level 20, m at level 99, k at level 200, only parsing) : fs_scope.
Notation "m ;; k" := (bind m (fun _ => k))
  (at level 100, k at level 200, right associativity, only parsing) : fs_scope.
Notation "' pat <- m ;; k" := (bind m (fun x => let 'pat := x in k))
  (at level 20, pat pattern, m at level 99, k at level 200, only parsing)
  : fs_scope.

(** A [for] loop over [l] threading the loop's variables [s]. *)
Fixpoint for_each {A S} (l : list A) (s : S) (body : S -> A -> M S) : M S :=
  match l with
  | [] => ret s
  | x :: l' => bind (body s x) (fun s' => for_each l' s' body)
  end.

(** [path.exists()], [path.is_dir()], [path.is_file()] *)
Definition exists_ (p : Path) : M bool :=
  fun d => (Ok (bool_decide (is_Some (node_at d p))), d).

Definition is_dir (p : Path) : M bool :=
  fun d => (Ok (bool_decide (node_at d p = Some Dir)), d).

Definition is_file (p : Path) : M bool :=
  fun d => (Ok (match node_at d p with Some (File _) => true | _ => false end), d).

(** [path.read_text()] and opening a file for reading. *)
Definition read_text (p : Path) : M text :=
  fun d =>
    match node_at d p with
    | Some (File c) => (Ok c, d)
    | Some Dir => (Raise IsADirectoryError, d)
    | None => (Raise FileNotFoundError, d)
    end.

(** [path.write_text(c)] and opening a file for writing: the file is
    created or replaced, inside a directory that exists. *)
Definition write_text (p : Path) (c : text) : M unit :=
  fun d =>
    match node_at d p with
    | Some Dir => (Raise IsADirectoryError, d)
    | _ =>
        match node_at d (parent p) with
        | Some Dir => (Ok tt, <[p := File c]> d)
        | Some (File _) => (Raise NotADirectoryError, d)
        | None => (Raise FileNotFoundError, d)
        end
    end.

(** [path.iterdir()], as the list of the entries' names. *)
Definition iterdir (p : Path) : M (list string) :=
  fun d =>
    match node_at d p with
    | Some Dir => (Ok (entries d p), d)
    | Some (File _) => (Raise NotADirectoryError, d)
    | None => (Raise FileNotFoundError, d)
    end.

(** Does a name match the pattern [*.txt]?  ([*] matches any run of
    characters, the empty one and a leading dot included.) *)
Definition matches_txt (n : string) : bool :=
  bool_decide (list_ascii_of_string ".txt" `suffix_of` list_ascii_of_string n).

(** [path.glob("*.txt")], as the list of the matching names: pathlib
    yields nothing when [path] is no directory. *)
Definition glob_txt (p : Path) : M (list string) :=
  fun d =>
    match node_at d p with
    | Some Dir => (Ok (List.filter matches_txt (entries d p)), d)
    | _ => (Ok [], d)
    end.

(** [os.mkdir(path)] *)
Definition os_mkdir (p : Path) : M unit :=
  fun d =>
    match node_at d p with
    | Some _ => (Raise FileExistsError, d)
    | None =>
        match node_at d (parent p) with
        | Some Dir => (Ok tt, <[p := Dir]> d)
        | Some (File _) => (Raise NotADirectoryError, d)
        | None => (Raise FileNotFoundError, d)
        end
    end.

(** [path.mkdir(parents=True, exist_ok=True)], over the prefixes of the
    path from the root down: a prefix that is a directory is kept, one that
    is missing is made, and one that is a file stops the call. *)
Definition mkdir_step (p : Path) : M unit :=
  fun d =>
    match node_at d p with
    | Some Dir => (Ok tt, d)
    | Some (File _) => (Raise FileExistsError, d)
    | None => os_mkdir p d
    end.

Fixpoint prefixes (p : Path) : list Path :=
  match p with
  | [] => []
  | c :: p' => [c] :: map (cons c) (prefixes p')
  end.

Definition mkdir_parents (p : Path) : M unit :=
  for_each (prefixes p) tt (fun _ q => mkdir_step q).

(** [shutil.copy2(src, dst)]: into [dst / src.name] when [dst] is a
    directory; the source is opened first, then the destination. *)
Definition copy2 (src dst : Path) : M unit :=
  fun d =>
    let dst := if bool_decide (node_at d dst = Some Dir)
               then child dst (name src) else dst in
    if bool_decide (src = dst) && bool_decide (is_Some (node_at d src))
    then (Raise SameFileError, d)
    else bind (read_text src) (fun c => write_text dst c) d.


(** [str(path)] *)
Definition path_text (p : Path) : text :=
  join (lit "/") (map lit p).

(** Does a name match the pattern [*ext], as [*.jpg]?  The extensions of
    the scripts have no character that the pattern reads as a wildcard. *)
Definition matches_ext (ext n : string) : bool :=
  bool_decide (list_ascii_of_string ext `suffix_of` list_ascii_of_string n).

(** A bound on the depth of the disk: no path of it is as long. *)
Definition depth_bound (d : disk) : nat :=
  S (foldr Nat.max 0%nat (map (fun kv => length kv.1) (map_to_list d))).

(** The directories [rglob] visits from [p]: [p], then for each entry of
    [p] that is a directory, in the order of the listing, the directories
    visited from it.  [fuel] bounds the depth. *)
Fixpoint walk (fuel : nat) (d : disk) (p : Path) : list Path :=
  match fuel with
  | O => []
  | S fuel' =>
      p :: flat_map (fun n => if bool_decide (d !! child p n = Some Dir)
                              then walk fuel' d (child p n) else [])
             (entries d p)
  end.

(** [path.rglob(pattern)], for a pattern that is matched against a name:
    the matching entries of every directory visited, as paths; nothing
    when [path] is no directory. *)
Definition rglob (matches : string -> bool) (p : Path) : M (list Path) :=
  fun d =>
    match node_at d p with
    | Some Dir =>
        (Ok (flat_map (fun dir => map (child dir)
                                    (List.filter matches (entries d dir)))
               (walk (depth_bound d) d p)), d)
    | _ => (Ok [], d)
    end.

(** The order of paths: by their components, as lists of strings. *)
Fixpoint path_leb (p q : Path) : bool :=
  match p, q with
  | [], _ => true
  | _ :: _, [] => false
  | a :: p', b :: q' =>
      if String.eqb a b then path_leb p' q' else String.ltb a b
  end.

Definition path_le (p q : Path) : Prop := path_leb p q = true.

#[export] Instance path_le_dec : RelDecision path_le.
Proof. intros p q. unfold path_le. apply _. Defined.

(** [sorted(paths)] *)
Definition sorted_paths (paths : list Path) : list Path :=
  merge_sort path_le paths.

End Fs.

Import Fs.

(** ** convert_label_indices.py: the class and angle normalizer *)

Module ConvertLabelIndices.

Local Open Scope fs_scope.

(** The loop's variables of [rewrite_file]. *)
Record loop_vars : Type := {
  updated_lines : list text;
  changed : bool;
}.

(** One turn of the [for line in original_lines] loop. *)
Definition rewrite_line (st : loop_vars) (line : text) : result loop_vars :=
  let stripped := strip line in
  if bool_decide (stripped = []) then
    Ok {| updated_lines := updated_lines st ++ [line]; changed := changed st |}
  else
    let parts := split stripped in
    match parts with
    | [] => Raise IndexError
    | class :: _ =>
        let '(parts, changed) :=
          if bool_decide (class <> lit "0")
          then (<[0%nat := lit "0"]> parts, true)
          else (parts, changed st) in
        let '(parts, changed) :=
          if bool_decide (5 < length parts)%nat
          then (slice parts None (Some 5%Z), true)
          else (parts, changed) in
        Ok {| updated_lines := updated_lines st ++ [join (lit " ") parts];
              changed := changed |}
    end.

Definition rewrite_file (path : Path) (dry_run : bool) : M bool :=
  text <- read_text path ;;
  let original_lines := splitlines text in
  let ending_newline := endswith text [LF] in
  st <- lift (rfold rewrite_line
                {| updated_lines := []; changed := false |} original_lines) ;;
  (if changed st && negb dry_run then
     let new_text := join [LF] (updated_lines st) in
     let new_text := if ending_newline then new_text ++ [LF] else new_text in
     write_text path new_text
   else ret tt) ;;
  ret (changed st).


(** "No .txt files found under {labels_dir}" *)
Definition msg_no_txt (labels_dir : Path) : text :=
  lit "No .txt files found under " ++ path_text labels_dir.

(** What [main] prints: the number of files changed, and in a dry run
    the files that would be. *)
Record report : Type := {
  changed_count : nat;
  would_update : list Path;
}.

(** [main], for the parsed [--labels-dir] and [--dry-run].  (The
    FileNotFoundError carries "Directory not found: {labels_dir}".) *)
Definition main (labels_dir : Path) (dry_run : bool) : M report :=
  found <- is_dir labels_dir ;;
  if negb found then raise FileNotFoundError
  else
    paths <- rglob matches_txt labels_dir ;;
    let label_files := sorted_paths paths in
    if bool_decide (label_files = []) then
      raise (RuntimeError (msg_no_txt labels_dir))
    else
      for_each label_files {| changed_count := 0; would_update := [] |}
        (fun st path =>
           changed <- rewrite_file path dry_run ;;
           ret (if changed then
                  {| changed_count := S (changed_count st);
                     would_update := if dry_run then would_update st ++ [path]
                                     else would_update st |}
                else st)).

End ConvertLabelIndices.

(** ** convert_obb_labels_to_corners.py: oriented box to polygon *)

Module ConvertObbLabelsToCorners.

Local Open Scope fs_scope.

(** What the script asks of Python's [float] and [math]: the arithmetic
    of [rotate_points], and the conversions from and to [str].  The code
    below is written once over this interface. *)
Class Float (F : Type) : Type := {
  fadd : F -> F -> F;
  fsub : F -> F -> F;
  fmul : F -> F -> F;
  fdiv : F -> F -> F;
  fneg : F -> F;
  (** the literal [2.0] *)
  two : F;
  (** [math.cos], [math.sin]: [None] is their ValueError (math domain
      error, on an infinity) *)
  math_cos : F -> option F;
  math_sin : F -> option F;
  math_radians : F -> F;
  (** [float(s)]: [None] is its ValueError *)
  float_of_str : text -> option F;
  (** [f"{value:.15f}"] *)
  format_15f : F -> text;
}.

(** [text.rstrip(chars)] for a one-character [chars]. *)
Fixpoint lstrip_char (c : N) (s : text) : text :=
  match s with
  | c' :: s' => if (c' =? c)%N then lstrip_char c s' else s
  | [] => []
  end.

Definition rstrip_char (c : N) (s : text) : text :=
  rev (lstrip_char c (rev s)).

Definition math_domain_error : exn := ValueError (lit "math domain error").

(** "Linha não possui 5 campos obrigatórios." *)
Definition msg_too_few_fields : text :=
  lit "Linha n" ++ [227%N] ++ lit "o possui 5 campos obrigat" ++ [243%N]
  ++ lit "rios.".

(** "Não foi possível interpretar floats: " *)
Definition msg_bad_floats : text :=
  lit "N" ++ [227%N] ++ lit "o foi poss" ++ [237%N]
  ++ lit "vel interpretar floats: ".

(** [str(path)] *)
Definition path_str (p : Path) : text :=
  join (lit "/") (map lit p).

(** "Erro no arquivo {path}: {err}" *)
Definition msg_file_error (path : Path) (err : text) : text :=
  lit "Erro no arquivo " ++ path_str path ++ lit ": " ++ err.

Section Converter.

Context {F : Type} `{Float F}.

Definition format_float (value : F) : text :=
  let text := format_15f value in
  let text := rstrip_char 46%N (rstrip_char 48%N text) in
  if bool_decide (text = []) then lit "0" else text.

Definition cos_or_raise (x : F) : result F :=
  match math_cos x with Some y => Ok y | None => Raise math_domain_error end.

Definition sin_or_raise (x : F) : result F :=
  match math_sin x with Some y => Ok y | None => Raise math_domain_error end.

Definition rotate_points (cx cy w h angle_rad : F) : result (list (F * F)) :=
  let half_w := fdiv w two in
  let half_h := fdiv h two in
  rbind (cos_or_raise angle_rad) (fun cos_a =>
  rbind (sin_or_raise angle_rad) (fun sin_a =>
  let rel_points := [
    (fneg half_w, fneg half_h);
    (half_w, fneg half_h);
    (half_w, half_h);
    (fneg half_w, half_h)
  ] in
  Ok (map (fun '(px, py) =>
             let rx := fsub (fmul px cos_a) (fmul py sin_a) in
             let ry := fadd (fmul px sin_a) (fmul py cos_a) in
             (fadd cx rx, fadd cy ry))
          rel_points))).

(** [float(parts[i])] inside the [try] of [convert_line]: a field that
    does not parse ends the block with the ValueError the [except] clause
    raises in its place. *)
Definition float_field (parts : list text) (i : nat) : result F :=
  match parts !! i with
  | None => Raise IndexError
  | Some s =>
      match float_of_str s with
      | Some x => Ok x
      | None => Raise (ValueError (msg_bad_floats ++ join (lit " ") parts))
      end
  end.

Definition convert_line (parts : list text) (angle_format : text)
    (default_angle : F) (order : text) : result text :=
  if bool_decide (length parts < 5)%nat then
    Raise (ValueError msg_too_few_fields)
  else if bool_decide (length parts = 9%nat) then
    Ok (join (lit " ") parts)
  else
    match parts with
    | [] => Raise IndexError
    | cls :: _ =>
        rbind (float_field parts 1) (fun cx =>
        rbind (float_field parts 2) (fun cy =>
        rbind (float_field parts 3) (fun w =>
        rbind (float_field parts 4) (fun h =>
        rbind (if bool_decide (6 <= length parts)%nat
               then float_field parts 5 else Ok default_angle) (fun angle =>
        let angle_rad :=
          if bool_decide (angle_format = lit "degrees")
          then math_radians angle else angle in
        rbind (rotate_points cx cy w h angle_rad) (fun corners =>
        let flattened :=
          if bool_decide (order = lit "grouped") then
            let xs := map (fun c => format_float c.1) corners in
            let ys := map (fun c => format_float c.2) corners in
            [cls] ++ xs ++ ys
          else
            [cls] ++ concat (map (fun c => [format_float c.1;
                                            format_float c.2]) corners) in
        Ok (join (lit " ") flattened)))))))
    end.

(** The loop's variables of [process_file]. *)
Record loop_vars : Type := {
  new_lines : list text;
  changed : bool;
}.

(** One turn of the [for line in lines] loop: a ValueError of
    [convert_line] is raised again with the file's path before it. *)
Definition process_line (path : Path) (angle_format : text)
    (default_angle : F) (order : text) (st : loop_vars) (line : text)
  : result loop_vars :=
  let stripped := strip line in
  if bool_decide (stripped = []) then Ok st
  else
    let parts := split stripped in
    match convert_line parts angle_format default_angle order with
    | Raise (ValueError err) => Raise (ValueError (msg_file_error path err))
    | Raise e => Raise e
    | Ok converted =>
        Ok {| new_lines := new_lines st ++ [converted];
              changed := if bool_decide (converted <> stripped) then true
                         else changed st |}
    end.

(** [process_file]; the line the dry run prints is left out. *)
Definition process_file (path : Path) (angle_format : text)
    (default_angle : F) (order : text) (dry_run : bool) : M bool :=
  text <- read_text path ;;
  let lines := splitlines text in
  let ending_newline := endswith text [LF] in
  st <- lift (rfold (process_line path angle_format default_angle order)
                {| new_lines := []; changed := false |} lines) ;;
  (if changed st then
     if dry_run then ret tt
     else
       let new_text := join [LF] (new_lines st) in
       let new_text :=
         if ending_newline && negb (bool_decide (new_lines st = []))
         then new_text ++ [LF] else new_text in
       write_text path new_text
   else ret tt) ;;
  ret (changed st).

End Converter.


Section ConverterMain.

Context {F : Type} `{Float F}.

(** "Nenhum arquivo .txt encontrado em {labels_dir}" *)
Definition msg_no_txt_found (labels_dir : Path) : text :=
  lit "Nenhum arquivo .txt encontrado em " ++ path_str labels_dir.

Definition iter_label_files (root : Path) : M (list Path) :=
  paths <- rglob matches_txt root ;;
  ret (sorted_paths paths).

(** [main], for the parsed command line, returning the number of files
    changed that it prints.  (The FileNotFoundError carries "Pasta não
    encontrada: {labels_dir}".) *)
Definition main (labels_dir : Path) (angle_format : text) (default_angle : F)
    (output_order : text) (dry_run : bool) : M nat :=
  found <- is_dir labels_dir ;;
  if negb found then raise FileNotFoundError
  else
    files <- iter_label_files labels_dir ;;
    if bool_decide (files = []) then
      raise (RuntimeError (msg_no_txt_found labels_dir))
    else
      for_each files 0%nat (fun changed path =>
        c <- process_file path angle_format default_angle output_order
               dry_run ;;
        ret (if c then S changed else changed)).

End ConverterMain.

End ConvertObbLabelsToCorners.

(** ** sync_to_yolo_obb.py: the source/target sync tool *)

Module SyncToYoloObb.

Local Open Scope fs_scope.

Definition IMAGE_EXTS : list string :=
  [".jpg"; ".jpeg"; ".png"; ".bmp"]%string.

(** [p.suffix.lower() in IMAGE_EXTS] *)
Definition has_image_ext (n : string) : bool :=
  bool_decide (lower (suffix n) ∈ IMAGE_EXTS).

(** The splits of the target dataset; [--default-split] takes one of
    them. *)
Inductive split_name : Type := train | val | test.

#[export] Instance split_name_eq_dec : EqDecision split_name.
Proof. solve_decision. Defined.

Definition split_str (s : split_name) : string :=
  match s with
  | train => "train"
  | val => "val"
  | test => "test"
  end.

(** The parsed command line. *)
Record Args : Type := {
  source_images : Path;
  source_labels : Path;
  target : Path;
  default_split : split_name;
  angle : text;
  dry_run : bool;
}.

(** [{p.stem: v(p) for p in files}] added to [mapping], a later file
    replacing an earlier one of the same stem. *)
Definition by_stem {V} (v : string -> V) (files : list string)
    (mapping : gmap string V) : gmap string V :=
  fold_left (fun m n => <[stem n := v n]> m) files mapping.

Definition map_stems_by_split (root : Path) (kind : string)
  : M (gmap string split_name) :=
  for_each [train; val; test] ∅ (fun mapping split =>
    let base := child (child root kind) (split_str split) in
    present <- exists_ base ;;
    if negb present then ret mapping
    else
      files <- (if bool_decide (kind = "images"%string) then
                  names <- iterdir base ;;
                  ret (List.filter has_image_ext names)
                else glob_txt base) ;;
      ret (by_stem (fun _ => split) files mapping)).

Definition load_source_files (images_dir labels_dir : Path)
  : M (gmap string Path * gmap string Path) :=
  names <- iterdir images_dir ;;
  regular <- for_each names [] (fun acc n =>
               f <- is_file (child images_dir n) ;;
               ret (if f && has_image_ext n then acc ++ [n] else acc)) ;;
  let imgs := by_stem (child images_dir) regular ∅ in
  txts <- glob_txt labels_dir ;;
  let lbls := by_stem (child labels_dir) txts ∅ in
  ret (imgs, lbls).

(** One turn of the [for line in lines] loop of [normalize_label], on
    the list [out]. *)
Definition normalize_line (angle_value : text) (out : list text) (line : text)
  : list text :=
  if bool_decide (strip line = []) then out
  else
    let parts := split line in
    let parts := match parts with
                 | [] => parts
                 | _ => <[0%nat := lit "0"]> parts
                 end in
    let parts :=
      if bool_decide (length parts = 5%nat) then parts ++ [angle_value]
      else if bool_decide (6 <= length parts)%nat
           then <[5%nat := angle_value]> parts
           else parts in
    out ++ [join (lit " ") parts].

Definition normalize_label (text : text) (angle_value : Py.text) : Py.text :=
  let lines := splitlines text in
  let ending_newline := endswith text [LF] in
  let out := fold_left (normalize_line angle_value) lines [] in
  let result := join [LF] out in
  if ending_newline && negb (bool_decide (out = [])) then result ++ [LF]
  else result.

Definition ensure_dir (path : Path) (dry_run : bool) : M unit :=
  if dry_run then ret tt else mkdir_parents path.

(** [sorted(all_stems)]: the stems in the order of [str]. *)
Definition str_le (a b : string) : Prop := String.leb a b = true.

#[export] Instance str_le_dec : RelDecision str_le.
Proof. intros a b. unfold str_le. apply _. Defined.

Definition sorted_stems (all_stems : gset string) : list string :=
  merge_sort str_le (elements all_stems).

(** The loop's variables of [copy_missing]. *)
Record counters : Type := {
  added_imgs : nat;
  added_lbls : nat;
}.

(** One turn of the [for stem in sorted(all_stems)] loop; the lines the
    dry run prints are left out. *)
Definition copy_stem (args : Args)
    (source_imgs source_lbls : gmap string Path)
    (target_img_split target_lbl_split : gmap string split_name)
    (st : counters) (stem : string) : M counters :=
  let split :=
    match target_img_split !! stem with
    | Some s => s
    | None => match target_lbl_split !! stem with
              | Some s => s
              | None => default_split args
              end
    end in
  added_imgs <-
    match target_img_split !! stem, source_imgs !! stem with
    | None, Some src_img =>
        let dst_img :=
          child (child (child (target args) "images") (split_str split))
                (name src_img) in
        ensure_dir (parent dst_img) (dry_run args) ;;
        (if dry_run args then ret tt else copy2 src_img dst_img) ;;
        ret (S (added_imgs st))
    | _, _ => ret (added_imgs st)
    end ;;
  added_lbls <-
    match target_lbl_split !! stem, source_lbls !! stem with
    | None, Some src_lbl =>
        let dst_lbl :=
          child (child (child (target args) "labels") (split_str split))
                (name src_lbl) in
        ensure_dir (parent dst_lbl) (dry_run args) ;;
        text <- read_text src_lbl ;;
        let normalized := normalize_label text (angle args) in
        (if dry_run args then ret tt else write_text dst_lbl normalized) ;;
        ret (S (added_lbls st))
    | _, _ => ret (added_lbls st)
    end ;;
  ret {| added_imgs := added_imgs; added_lbls := added_lbls |}.

(** [copy_missing], returning the two counts it prints. *)
Definition copy_missing (args : Args) : M counters :=
  '(source_imgs, source_lbls) <-
     load_source_files (source_images args) (source_labels args) ;;
  target_img_split <- map_stems_by_split (target args) "images" ;;
  target_lbl_split <- map_stems_by_split (target args) "labels" ;;
  let all_stems : gset string := dom source_imgs ∪ dom source_lbls in
  for_each (sorted_stems all_stems) {| added_imgs := 0; added_lbls := 0 |}
    (copy_stem args source_imgs source_lbls target_img_split target_lbl_split).

End SyncToYoloObb.

(** ** Python's [float]

    Binary64 numbers and their arithmetic, on the specification of IEEE
    754 floats of the standard library: every operation rounds to the
    nearest float, ties to even. *)

Module Binary64.

(** A Python [float]: an IEEE 754 binary64 number. *)
Abbreviation float := spec_float.

Definition prec : Z := 53.
Definition emax : Z := 1024.

(** [float(n)] of an [int], rounded to the nearest float, ties to even.
    (Python refuses an [int] of magnitude [2 ^ 1024] or more, which the
    length of a list never is.) *)
Definition of_Z (n : Z) : float := binary_normalize prec emax n 0 false.

Definition add : float -> float -> float := SFadd prec emax.
Definition sub : float -> float -> float := SFsub prec emax.
Definition mul : float -> float -> float := SFmul prec emax.
Definition div : float -> float -> float := SFdiv prec emax.

(** The float nearest to the fraction [n / d] of two integers that are
    floats themselves: what a decimal literal such as [0.7] or [1e-6]
    denotes. *)
Definition of_frac (n d : Z) : float := div (of_Z n) (of_Z d).

Definition is_inf (x : float) : bool :=
  match x with S754_infinity _ => true | _ => false end.

Definition is_finite (x : float) : bool :=
  match x with S754_zero _ | S754_finite _ _ _ => true | _ => false end.

Definition is_zero (x : float) : bool :=
  match x with S754_zero _ => true | _ => false end.

(** The number a finite float stands for. *)
Definition value (x : float) : Q :=
  match x with
  | S754_finite s m e =>
      inject_Z (cond_Zopp s (Zpos m)) * Qpower 2 e
  | _ => 0
  end.

(** [math.floor(x)] *)
Definition floor (x : float) : result Z :=
  match x with
  | S754_zero _ => Ok 0%Z
  | S754_finite s m e =>
      Ok (if (0 <=? e)%Z then (cond_Zopp s (Zpos m) * 2 ^ e)%Z
          else (cond_Zopp s (Zpos m) / 2 ^ (- e))%Z)
  | S754_infinity _ => Raise OverflowError
  | S754_nan => Raise (ValueError (lit "cannot convert float NaN to integer"))
  end.

(** [math.isclose(a, b, rel_tol=1e-09, abs_tol=abs_tol)] *)
Definition rel_tol : float := of_frac 1 1000000000.

Definition isclose (a b abs_tol : float) : bool :=
  if SFeqb a b then true
  else if is_inf a || is_inf b then false
  else
    let diff := SFabs (sub b a) in
    SFleb diff (SFabs (mul rel_tol b))
    || SFleb diff (SFabs (mul rel_tol a))
    || SFleb diff abs_tol.

(** [sum(xs)] of floats, from the [int] 0: the first float is added to
    0, the others to the running sum.  From Python 3.12 on the running sum
    is compensated (Neumaier): the rounding errors are added up in [c] and
    added to the sum at the end. *)
Definition neumaier_step (st : float * float) (x : float) : float * float :=
  let '(f_result, c) := st in
  let t := add f_result x in
  let c' := if SFleb (SFabs x) (SFabs f_result)
            then add c (add (sub f_result t) x)
            else add c (add (sub x t) f_result) in
  (t, c').

Definition sum (compensated : bool) (xs : list float) : float :=
  match xs with
  | [] => of_Z 0
  | x :: xs' =>
      let first := add (of_Z 0) x in
      if compensated then
        let '(f_result, c) := fold_left neumaier_step xs' (first, S754_zero false) in
        if negb (is_zero c) && is_finite c then add f_result c else f_result
      else fold_left add xs' first
  end.

End Binary64.

(** ** split_yolo_obb.py: the dataset splitter *)

Module SplitYoloObb.

Import Binary64.

(** What the script asks of [random.Random]: the generator seeded with
    an [int], and [_randbelow], which draws below its argument and steps
    the generator. *)
Class Random (G : Type) : Type := {
  seeded : Z -> G;
  randbelow : G -> nat -> nat * G;
}.

(** [x[i], x[j] = x[j], x[i]] *)
Definition swap {A} (x : list A) (i j : nat) : result (list A) :=
  match x !! j, x !! i with
  | Some xj, Some xi => Ok (<[j := xi]> (<[i := xj]> x))
  | _, _ => Raise IndexError
  end.

(** The dictionary [split_dataset] returns. *)
Record split_data (A : Type) : Type := {
  train : list A;
  val : list A;
  test : list A;
}.
Arguments train {A} _.
Arguments val {A} _.
Arguments test {A} _.

Section Splitter.

Context {G : Type} `{Random G}.

(** [repr(x)] of a float, which the error message shows. *)
Variable float_repr : float -> text.

(** Whether [sum] compensates its rounding errors, as it does from
    Python 3.12 on. *)
Variable compensated_sum : bool.

(** [Random.shuffle(x)]: [for i in reversed(range(1, len(x)))], the turns
    counted down by [i]. *)
Fixpoint shuffle_from {A} (rng : G) (x : list A) (i : nat) : result (list A) :=
  match i with
  | O => Ok x
  | S i' =>
      let '(j, rng') := randbelow rng (i + 1) in
      rbind (swap x i j) (fun x' => shuffle_from rng' x' i')
  end.

Definition shuffle {A} (rng : G) (x : list A) : result (list A) :=
  shuffle_from rng x (length x - 1).

(** The loop's variables of [compute_split_indices]. *)
Record loop_vars : Type := {
  indices : list Z;
  start : Z;
}.

(** [count = math.floor(total * ratio)]: the [int] [total] becomes a
    float, the product is rounded to a float, and the floor is taken of
    that float. *)
Definition compute_split_indices (total : Z) (ratios : list float)
  : result (list Z) :=
  rbind
    (rfold (fun st ratio =>
              rbind (floor (mul (of_Z total) ratio)) (fun count =>
              Ok {| indices := indices st ++ [(start st + count)%Z];
                    start := (start st + count)%Z |}))
           {| indices := []; start := 0%Z |}
           (slice ratios None (Some (-1)%Z)))
    (fun st => Ok (indices st ++ [total])).

Definition msg_three_ratios : text :=
  lit "Expected three split ratios for train/val/test.".

(** [f"{ratios}"] of a list of floats *)
Definition ratios_str (ratios : list float) : text :=
  lit "[" ++ join (lit ", ") (map float_repr ratios) ++ lit "]".

Definition msg_bad_sum (ratios : list float) : text :=
  lit "Split ratios must sum to 1.0, received " ++ ratios_str ratios
  ++ lit ".".

(** The literals [1.0] and [1e-6]. *)
Definition one : float := of_Z 1.
Definition abs_tol : float := of_frac 1 1000000.

(** [split_dataset]: besides the dictionary, the list [pairs] as the
    shuffle leaves it, the caller's list being shuffled in place. *)
Definition split_dataset {A} (pairs : list A) (ratios : list float) (seed : Z)
  : result (list A * split_data A) :=
  if bool_decide (length ratios <> 3%nat) then
    Raise (ValueError msg_three_ratios)
  else if negb (isclose (sum compensated_sum ratios) one abs_tol) then
    Raise (ValueError (msg_bad_sum ratios))
  else
    let rng := seeded seed in
    rbind (shuffle rng pairs) (fun pairs =>
    let total := Z.of_nat (length pairs) in
    rbind (compute_split_indices total ratios) (fun indices =>
    match indices with
    | [train_end; val_end; _] =>
        Ok (pairs,
            {| train := slice pairs None (Some train_end);
               val := slice pairs (Some train_end) (Some val_end);
               test := slice pairs (Some val_end) None |})
    | _ => Raise (ValueError (lit "not enough values to unpack"))
    end)).

End Splitter.

(** *** Finding the pairs *)

Local Open Scope fs_scope.





(** [{path.stem: path for path in paths}] added to [mapping], a later
    path replacing an earlier one of the same stem. *)
Definition by_path_stem (paths : list Path) (mapping : gmap string Path)
  : gmap string Path :=
  fold_left (fun m p => <[stem (name p) := p]> m) paths mapping.

(** [sorted(ids)] for a set of stems. *)
Definition sorted_ids (ids : gset string) : list string :=
  SyncToYoloObb.sorted_stems ids.

(** [mapping[key]] for a key of the mapping. *)
Definition getitem (mapping : gmap string Path) (key : string) : Path :=
  default [] (mapping !! key).

(** "No matching image/label pairs found in {image_dir} and {label_dir}" *)
Definition msg_no_pairs (image_dir label_dir : Path) : text :=
  lit "No matching image/label pairs found in " ++ path_text image_dir
  ++ lit " and " ++ path_text label_dir.

(** What [gather_pairs] returns, with what its two warnings count. *)
Record gathered : Type := {
  pairs_found : list (Path * Path);
  missing_images : list string;
  missing_labels : list string;
}.

Definition gather_pairs (image_dir label_dir : Path)
    (image_exts : list string) : M gathered :=
  images <- for_each image_exts ∅ (fun images ext =>
              paths <- rglob (matches_ext ext) image_dir ;;
              ret (by_path_stem paths images)) ;;
  label_paths <- rglob matches_txt label_dir ;;
  let labels := by_path_stem label_paths ∅ in
  let common_ids := sorted_ids (dom images ∩ dom labels) in
  if bool_decide (common_ids = []) then
    raise (RuntimeError (msg_no_pairs image_dir label_dir))
  else
    ret {| pairs_found :=
             map (fun id => (getitem images id, getitem labels id))
                 common_ids;
           missing_images := sorted_ids (dom labels ∖ dom images);
           missing_labels := sorted_ids (dom images ∖ dom labels) |}.

(** *** [random.Random]: the Mersenne Twister

    CPython's generator (MT19937, [_randommodule.c]) on 32-bit words as
    integers, and the two methods of [random.Random] that [shuffle]
    draws with. *)
Module MersenneTwister.

Local Open Scope Z_scope.

Definition word (x : Z) : Z := Z.land x 4294967295.

(** The state: the 624 words and the index of the next one. *)
Record state : Type := {
  mt : list Z;
  index : nat;
}.

Definition at_ (l : list Z) (i : nat) : Z := nth i l 0.

(** [init_genrand(s)] *)
Fixpoint init_words (n : nat) (i prev : Z) : list Z :=
  match n with
  | O => []
  | S n' =>
      let x := word (1812433253 * Z.lxor prev (Z.shiftr prev 30) + i) in
      x :: init_words n' (i + 1) x
  end.

Definition init_genrand (s : Z) : list Z :=
  word s :: init_words 623 1 (word s).

(** The two loops of [init_by_array(key)], with their variables. *)
Record seeding : Type := {
  words : list Z;
  i_ : nat;
  j_ : nat;
}.

Definition wrap (st : seeding) : seeding :=
  if (624 <=? i_ st)%nat
  then {| words := <[0%nat := at_ (words st) 623]> (words st);
          i_ := 1; j_ := j_ st |}
  else st.

Definition mix_key (key : list Z) (st : seeding) : seeding :=
  let m := words st in
  let i := i_ st in
  let j := j_ st in
  let prev := at_ m (i - 1) in
  let x := word (Z.lxor (at_ m i)
                   (word (Z.lxor prev (Z.shiftr prev 30) * 1664525))
                 + at_ key j + Z.of_nat j) in
  let st := wrap {| words := <[i := x]> m; i_ := S i; j_ := S j |} in
  if (length key <=? j_ st)%nat
  then {| words := words st; i_ := i_ st; j_ := 0 |}
  else st.

Definition mix_index (st : seeding) : seeding :=
  let m := words st in
  let i := i_ st in
  let prev := at_ m (i - 1) in
  let x := word (Z.lxor (at_ m i)
                   (word (Z.lxor prev (Z.shiftr prev 30) * 1566083941))
                 - Z.of_nat i) in
  wrap {| words := <[i := x]> m; i_ := S i; j_ := j_ st |}.

Definition init_by_array (key : list Z) : state :=
  let st := {| words := init_genrand 19650218; i_ := 1; j_ := 0 |} in
  let st := Nat.iter (Nat.max 624 (length key)) (mix_key key) st in
  let st := Nat.iter 623 mix_index st in
  {| mt := <[0%nat := 2147483648]> (words st); index := 624 |}.

(** The 32-bit chunks of a number that is not negative, the lowest
    first; one chunk for 0. *)
Fixpoint chunks (fuel : nat) (n : Z) : list Z :=
  match fuel with
  | O => []
  | S fuel' =>
      if n <? 4294967296 then [n]
      else word n :: chunks fuel' (Z.shiftr n 32)
  end.

(** [random.Random(seed)] for an [int]: the key is its absolute value. *)
Definition seed_int (seed : Z) : state :=
  let n := Z.abs seed in
  init_by_array (chunks (S (Z.to_nat (Z.log2 n))) n).

(** The regeneration of the 624 words, one word a turn. *)
Definition twist_at (m : list Z) (kk : nat) : list Z :=
  let y := Z.lor (Z.land (at_ m kk) 2147483648)
                 (Z.land (at_ m ((kk + 1) mod 624)) 2147483647) in
  <[kk := Z.lxor (Z.lxor (at_ m ((kk + 397) mod 624)) (Z.shiftr y 1))
                 (if Z.odd y then 2567483615 else 0)]> m.

Definition twist (m : list Z) : list Z :=
  fold_left twist_at (seq 0 624) m.

(** [genrand_uint32] *)
Definition temper (y : Z) : Z :=
  let y := Z.lxor y (Z.shiftr y 11) in
  let y := Z.lxor y (Z.land (word (Z.shiftl y 7)) 2636928640) in
  let y := Z.lxor y (Z.land (word (Z.shiftl y 15)) 4022730752) in
  Z.lxor y (Z.shiftr y 18).

Definition genrand_uint32 (g : state) : Z * state :=
  let g := if (624 <=? index g)%nat
           then {| mt := twist (mt g); index := 0 |} else g in
  (temper (at_ (mt g) (index g)), {| mt := mt g; index := S (index g) |}).

(** [getrandbits(k)] for [0 < k]: the high bits of one word for
    [k <= 32], and 32-bit words from the lowest up beyond. *)
Fixpoint getrandbits_words (words_left : nat) (k : Z) (g : state)
  : Z * state :=
  match words_left with
  | O => (0, g)
  | S n =>
      let '(r, g) := genrand_uint32 g in
      let r := if k <? 32 then Z.shiftr r (32 - k) else r in
      let '(hi, g) := getrandbits_words n (k - 32) g in
      (r + Z.shiftl hi 32, g)
  end.

Definition getrandbits (g : state) (k : Z) : Z * state :=
  if k <=? 32 then
    let '(r, g) := genrand_uint32 g in (Z.shiftr r (32 - k), g)
  else getrandbits_words (Z.to_nat ((k - 1) / 32 + 1)) k g.

(** [n.bit_length()] *)
Definition bit_length (n : Z) : Z :=
  if n =? 0 then 0 else Z.log2 n + 1.

(** [_randbelow_with_getrandbits(n)]: draws of [n.bit_length()] bits
    until one is below [n].  The loop of the source has no bound; here it
    gives up, with 0, after [draw_limit] draws that were refused in a
    row. *)
Definition draw_limit : nat := 1024.

Fixpoint randbelow_loop (fuel : nat) (g : state) (k n : Z) : Z * state :=
  let '(r, g) := getrandbits g k in
  if r <? n then (r, g)
  else
    match fuel with
    | O => (0, g)
    | S fuel' => randbelow_loop fuel' g k n
    end.

Definition randbelow (g : state) (n : nat) : nat * state :=
  let '(r, g) :=
    randbelow_loop draw_limit g (bit_length (Z.of_nat n)) (Z.of_nat n) in
  (Z.to_nat r, g).

End MersenneTwister.

#[export] Instance MT_Random : Random MersenneTwister.state := {|
  seeded := MersenneTwister.seed_int;
  randbelow := MersenneTwister.randbelow;
|}.

End SplitYoloObb.

(** ** convert_yolo_bbox_to_polygon.py: rectangular box to polygon *)

Module ConvertYoloBboxToPolygon.

(** A finite [decimal.Decimal]: a sign (set when negative), the
    coefficient [_int] as a number, and the exponent.  The infinities and
    NaNs that [Decimal(...)] also reads are left out. *)
Record Decimal : Type := {
  sign : bool;
  coeff : N;
  exp : Z;
}.

(** The context: [getcontext().prec = 28], the other settings being the
    defaults (rounding half to even, [Emax = 999999], [Emin = -999999],
    no clamping, Overflow trapped, inexact and underflowing results let
    through). *)
Definition prec : Z := 28.
Definition Emax : Z := 999999.
Definition Emin : Z := -999999.
Definition Etiny : Z := Emin - prec + 1.
Definition Etop : Z := Emax - prec + 1.

(** [len(self._int)] *)
Definition len (d : Decimal) : Z := Z.of_nat (length (digits (coeff d))).

Definition is_zero (d : Decimal) : bool := (coeff d =? 0)%N.

(** [_round_half_even]: is the coefficient [c], cut before its last
    [ndrop] digits, to be incremented? *)
Definition round_half_even_up (c : N) (ndrop : N) : bool :=
  let p := (10 ^ ndrop)%N in
  let q := (c / p)%N in
  let r := (c mod p)%N in
  (p <? 2 * r)%N || ((2 * r =? p)%N && N.odd q).

(** [Decimal._fix]: round to the precision of the context. *)
Definition fix_ (d : Decimal) : result Decimal :=
  if is_zero d then
    Ok {| sign := sign d; coeff := 0;
          exp := Z.min (Z.max (exp d) Etiny) Emax |}
  else
    let exp_min := (len d + exp d - prec)%Z in
    if (Etop <? exp_min)%Z then Raise DecimalOverflow
    else
      let exp_min := if (exp_min <? Etiny)%Z then Etiny else exp_min in
      if (exp d <? exp_min)%Z then
        let digits := (len d + exp d - exp_min)%Z in
        let '(c, e) := if (digits <? 0)%Z then (1%N, (exp_min - 1)%Z)
                       else (coeff d, exp d) in
        let ndrop := Z.to_N (exp_min - e) in
        let coeff := (c / 10 ^ ndrop)%N in
        let '(coeff, exp_min) :=
          if round_half_even_up c ndrop then
            let coeff := (coeff + 1)%N in
            if (prec <? Z.of_nat (length (Py.digits coeff)))%Z
            then ((coeff / 10)%N, (exp_min + 1)%Z)
            else (coeff, exp_min)
          else (coeff, exp_min) in
        if (Etop <? exp_min)%Z then Raise DecimalOverflow
        else Ok {| sign := sign d; coeff := coeff; exp := exp_min |}
      else Ok d.

(** [self._rescale(exp)] for an exponent no greater than that of [d]: the
    coefficient is padded with zeros. *)
Definition pad_to (d : Decimal) (e : Z) : Decimal :=
  {| sign := sign d; coeff := (coeff d * 10 ^ Z.to_N (exp d - e))%N;
     exp := e |}.

(** [Decimal.__add__]: the operands are aligned on the smaller exponent,
    added or subtracted exactly, and the result is rounded. *)
Definition add (a b : Decimal) : result Decimal :=
  let e := Z.min (exp a) (exp b) in
  if is_zero a && is_zero b then
    fix_ {| sign := sign a && sign b; coeff := 0; exp := e |}
  else if is_zero a then
    fix_ (pad_to b (Z.max e (exp b - prec - 1)))
  else if is_zero b then
    fix_ (pad_to a (Z.max e (exp a - prec - 1)))
  else
    let ca := coeff (pad_to a e) in
    let cb := coeff (pad_to b e) in
    if bool_decide (sign a <> sign b) then
      if (ca =? cb)%N then fix_ {| sign := false; coeff := 0; exp := e |}
      else if (ca <? cb)%N
           then fix_ {| sign := sign b; coeff := (cb - ca)%N; exp := e |}
           else fix_ {| sign := sign a; coeff := (ca - cb)%N; exp := e |}
    else fix_ {| sign := sign a; coeff := (ca + cb)%N; exp := e |}.

Definition copy_negate (d : Decimal) : Decimal :=
  {| sign := negb (sign d); coeff := coeff d; exp := exp d |}.

(** [Decimal.__sub__] *)
Definition sub (a b : Decimal) : result Decimal := add a (copy_negate b).

(** The loop of [__truediv__] on an exact quotient: trailing zeros go
    while the exponent is below the ideal one; [n] counts the turns left. *)
Fixpoint strip_zeros (n : nat) (c : N) (e : Z) : N * Z :=
  match n with
  | O => (c, e)
  | S n' => if (c mod 10 =? 0)%N then strip_zeros n' (c / 10)%N (e + 1)%Z
            else (c, e)
  end.

(** [Decimal.__truediv__] *)
Definition truediv (a b : Decimal) : result Decimal :=
  let sign := xorb (sign a) (sign b) in
  if is_zero b then
    if is_zero a then Raise DecimalInvalidOperation
    else Raise DecimalDivisionByZero
  else if is_zero a then
    fix_ {| sign := sign; coeff := 0; exp := (exp a - exp b)%Z |}
  else
    let shift := (len b - len a + prec + 1)%Z in
    let e := (exp a - exp b - shift)%Z in
    let '(c, remainder) :=
      if (0 <=? shift)%Z
      then N.div_eucl (coeff a * 10 ^ Z.to_N shift) (coeff b)
      else N.div_eucl (coeff a) (coeff b * 10 ^ Z.to_N (- shift)) in
    if negb (remainder =? 0)%N then
      fix_ {| sign := sign;
              coeff := if (c mod 5 =? 0)%N then (c + 1)%N else c;
              exp := e |}
    else
      let ideal_exp := (exp a - exp b)%Z in
      let '(c, e) := strip_zeros (Z.to_nat (ideal_exp - e)) c e in
      fix_ {| sign := sign; coeff := c; exp := e |}.

(** [Decimal(2)] *)
Definition Decimal_2 : Decimal := {| sign := false; coeff := 2; exp := 0 |}.

(** ["%+d" % n] *)
Definition str_signed (n : Z) : text :=
  (if (n <? 0)%Z then lit "-" else lit "+") ++ str_of_N (Z.abs_N n).

(** [Decimal.__str__]: scientific notation when the exponent is positive
    or the number is below 1e-6. *)
Definition str (d : Decimal) : text :=
  let int := str_of_N (coeff d) in
  let n := Z.of_nat (length int) in
  let leftdigits := (exp d + n)%Z in
  let dotplace :=
    if (exp d <=? 0)%Z && (-6 <? leftdigits)%Z then leftdigits else 1%Z in
  let '(intpart, fracpart) :=
    if (dotplace <=? 0)%Z then
      (lit "0", lit "." ++ repeat 48%N (Z.to_nat (- dotplace)) ++ int)
    else if (n <=? dotplace)%Z then
      (int ++ repeat 48%N (Z.to_nat (dotplace - n)), [])
    else
      (take (Z.to_nat dotplace) int,
       lit "." ++ drop (Z.to_nat dotplace) int) in
  let exp := if (leftdigits =? dotplace)%Z then []
             else lit "E" ++ str_signed (leftdigits - dotplace) in
  (if sign d then lit "-" else []) ++ intpart ++ fracpart ++ exp.

(** The numbers of the tuple [values] of [to_polygon], after the label:
    x1 x2 x3 x4 y1 y2 y3 y4. *)
Definition polygon_values (x_center y_center width height : Decimal)
  : result (list Decimal) :=
  rbind (truediv width Decimal_2) (fun half_w =>
  rbind (truediv height Decimal_2) (fun half_h =>
  rbind (sub x_center half_w) (fun x_min =>
  rbind (add x_center half_w) (fun x_max =>
  rbind (sub y_center half_h) (fun y_min =>
  rbind (add y_center half_h) (fun y_max =>
  Ok [x_min; x_max; x_max; x_min; y_min; y_min; y_max; y_max])))))).

Definition to_polygon (label : text)
    (x_center y_center width height : Decimal) : result text :=
  rbind (polygon_values x_center y_center width height) (fun values =>
  Ok (join (lit " ") (label :: map str values))).

(** The number a [Decimal] stands for. *)
Definition value (d : Decimal) : Q :=
  ((if sign d then -1 else 1) * inject_Z (Z.of_N (coeff d)) * 10 ^ exp d)%Q.

End ConvertYoloBboxToPolygon.

(** ** [float] as the real numbers

    The instance of the oriented-box converter's interface at which its
    examples are run: arithmetic without rounding, and a reader of plain
    decimal literals ([float(s)] also reads exponents, [inf] and [nan],
    which the examples do not use).  The theorems on lines and files hold
    for every instance; the geometry is stated in rounded arithmetic,
    below. *)

Module RealFloat.

Definition digit_value (c : N) : option N :=
  if ((48 <=? c) && (c <=? 57))%N then Some (c - 48)%N else None.

(** The rest [s] of a literal read after the digits [acc], [places] of
    them after the point when the point is behind. *)
Fixpoint read_digits (s : text) (acc : N) (places : option nat)
  : option (N * nat) :=
  match s with
  | [] => Some (acc, default 0%nat places)
  | c :: s' =>
      if (c =? 46)%N then
        match places with
        | None => read_digits s' acc (Some 0%nat)
        | Some _ => None
        end
      else
        match digit_value c with
        | Some d => read_digits s' (10 * acc + d)%N (S <$> places)
        | None => None
        end
  end.

(** [digits] or [digits.digits], starting with a digit, as a fraction. *)
Definition read_unsigned (s : text) : option Q :=
  match s with
  | [] => None
  | c :: _ =>
      match digit_value c, read_digits s 0 None with
      | Some _, Some (n, places) =>
          Some (inject_Z (Z.of_N n) / inject_Z (10 ^ Z.of_nat places))%Q
      | _, _ => None
      end
  end.

Definition read_decimal (s : text) : option Q :=
  match s with
  | 45%N :: s' => Qopp <$> read_unsigned s'
  | 43%N :: s' => read_unsigned s'
  | _ => read_unsigned s
  end.

(** [f"{x:.15f}"] of a real: the integer nearest to [|x| * 10^15], its
    last fifteen digits after the point. *)
Definition R_format_15f (x : R) : text :=
  let n := Z.to_N (Int_part (Rabs x * 10 ^ 15 + / 2)%R) in
  let ds := str_of_N n in
  let ds := repeat 48%N (16 - length ds) ++ ds in
  (if Rlt_dec x 0 then lit "-" else [])
  ++ take (length ds - 15) ds ++ lit "." ++ drop (length ds - 15) ds.

#[export] Instance R_Float : ConvertObbLabelsToCorners.Float R := {|
  ConvertObbLabelsToCorners.fadd := Rplus;
  ConvertObbLabelsToCorners.fsub := Rminus;
  ConvertObbLabelsToCorners.fmul := Rmult;
  ConvertObbLabelsToCorners.fdiv := Rdiv;
  ConvertObbLabelsToCorners.fneg := Ropp;
  ConvertObbLabelsToCorners.two := 2%R;
  ConvertObbLabelsToCorners.math_cos := fun x => Some (cos x);
  ConvertObbLabelsToCorners.math_sin := fun x => Some (sin x);
  ConvertObbLabelsToCorners.math_radians := fun x => (x * PI / 180)%R;
  ConvertObbLabelsToCorners.float_of_str := fun s => Q2R <$> read_decimal s;
  ConvertObbLabelsToCorners.format_15f := R_format_15f;
|}.

End RealFloat.

(** ** [float] as real numbers with rounding

    A finite float is the real number it stands for, and an operation
    gives the float nearest to the exact result: [rnd] is that rounding,
    [libm_cos] and [libm_sin] are the cosine and the sine of the
    platform's C library.  Infinities and NaN have no place here: this
    instance is for values far from overflow. *)

Module RoundedFloat.

Section Rounded.

Variables (rnd libm_cos libm_sin : R -> R).

Definition Rounded_Float : ConvertObbLabelsToCorners.Float R := {|
  ConvertObbLabelsToCorners.fadd := fun a b => rnd (a + b)%R;
  ConvertObbLabelsToCorners.fsub := fun a b => rnd (a - b)%R;
  ConvertObbLabelsToCorners.fmul := fun a b => rnd (a * b)%R;
  ConvertObbLabelsToCorners.fdiv := fun a b => rnd (a / b)%R;
  ConvertObbLabelsToCorners.fneg := Ropp;
  ConvertObbLabelsToCorners.two := 2%R;
  ConvertObbLabelsToCorners.math_cos := fun x => Some (libm_cos x);
  ConvertObbLabelsToCorners.math_sin := fun x => Some (libm_sin x);
  ConvertObbLabelsToCorners.math_radians :=
    fun x => rnd (x * rnd (rnd PI / 180))%R;
  ConvertObbLabelsToCorners.float_of_str :=
    fun s => (fun q => rnd (Q2R q)) <$> RealFloat.read_decimal s;
  ConvertObbLabelsToCorners.format_15f := RealFloat.R_format_15f;
|}.

End Rounded.

(** The unit roundoff of binary64, half the spacing of the subnormal
    floats, and the largest finite float. *)
Definition u : R := / 2 ^ 53.
Definition eta : R := / 2 ^ 1075.
Definition Omega : R := (2 ^ 53 - 1) * 2 ^ 971.

(** Rounding to the nearest multiple of [2 ^ -1074], the spacing of the
    subnormal floats. *)
Definition to_grid (x : R) : R :=
  IZR (up (x * 2 ^ 1074 - / 2)) * / 2 ^ 1074.

End RoundedFloat.

(** ** [float] as binary64 numbers

    The arithmetic of the oriented-box converter on binary64 numbers;
    the cosine and the sine of the platform's C library, the reader and
    the formatter are parameters. *)

Module Binary64Float.

Import Binary64.

(** [math.pi], and [math.radians(x)], which multiplies by [pi / 180]. *)
Definition pi : float := S754_finite false 7074237752028440 (-51).

Section Instance.

Variables (libm_cos libm_sin : float -> option float)
  (parse : text -> option float) (format : float -> text).

Definition B64_Float : ConvertObbLabelsToCorners.Float float := {|
  ConvertObbLabelsToCorners.fadd := add;
  ConvertObbLabelsToCorners.fsub := sub;
  ConvertObbLabelsToCorners.fmul := mul;
  ConvertObbLabelsToCorners.fdiv := div;
  ConvertObbLabelsToCorners.fneg := SFopp;
  ConvertObbLabelsToCorners.two := of_Z 2;
  ConvertObbLabelsToCorners.math_cos := libm_cos;
  ConvertObbLabelsToCorners.math_sin := libm_sin;
  ConvertObbLabelsToCorners.math_radians := fun x => mul x (div pi (of_Z 180));
  ConvertObbLabelsToCorners.float_of_str := parse;
  ConvertObbLabelsToCorners.format_15f := format;
|}.

End Instance.

(** The largest finite float. *)
Definition largest : float := S754_finite false (2 ^ 53 - 1) 971.

End Binary64Float.

(** ** api/index.py: the inference service *)

Module ApiIndex.

(** What the handler asks of PIL and of the loaded model. *)
Class Runtime (image prediction : Type) : Type := {
  (** [Image.open(io.BytesIO(contents)).convert("RGB")]; [None] when it
      raises *)
  open_rgb : list N -> option image;
  (** [model.predict(image, imgsz=1024, conf=0.25, verbose=False)[0]] *)
  model_predict : image -> prediction;
  (** [Image.fromarray(prediction.plot()[:, :, ::-1])] *)
  plot_rgb : prediction -> image;
  (** the bytes [annotated_image.save(buffer, format="JPEG", quality=90)]
      writes *)
  save_jpeg : image -> list N;
  (** [len(prediction.boxes)] when [prediction] is true and has boxes *)
  boxes_len : prediction -> option nat;
  (** [f"{seconds:.3f}"] *)
  format_3f : Q -> text;
  (** [str(MODEL_PATH)] *)
  model_path : text;
}.

Section Service.

Context {image prediction : Type} `{Runtime image prediction}.

(** What a request can change or read outside itself: the readings
    [time.perf_counter()] will give, and the inferences the model has
    been asked for. *)
Record world : Type := {
  clock : list Q;
  inferences : list image;
}.

Record StreamingResponse : Type := {
  body : list N;
  media_type : text;
  headers : list (text * text);
}.

Definition perf_counter (w : world) : Q * world :=
  match clock w with
  | t :: ts => (t, {| clock := ts; inferences := inferences w |})
  | [] => (0%Q, w)
  end.

Definition run_model (img : image) (w : world) : prediction * world :=
  (model_predict img,
   {| clock := clock w; inferences := inferences w ++ [img] |}).

(** "Nenhum arquivo foi enviado." *)
Definition detail_no_file : text := lit "Nenhum arquivo foi enviado.".

(** "Não foi possível abrir a imagem." *)
Definition detail_bad_image : text :=
  lit "N" ++ [227%N] ++ lit "o foi poss" ++ [237%N]
  ++ lit "vel abrir a imagem.".

Definition predict (contents : list N) (w : world)
  : result StreamingResponse * world :=
  if bool_decide (contents = []) then
    (Raise (HTTPException 400 detail_no_file), w)
  else
    match open_rgb contents with
    | None => (Raise (HTTPException 400 detail_bad_image), w)
    | Some image =>
        let '(start_time, w) := perf_counter w in
        let '(prediction, w) := run_model image w in
        let '(end_time, w) := perf_counter w in
        let inference_time := (end_time - start_time)%Q in
        let annotated_image := plot_rgb prediction in
        let buffer := save_jpeg annotated_image in
        let headers := [
          (lit "X-Inference-Time", format_3f inference_time);
          (lit "X-Detections",
           str_of_N (N.of_nat (default 0%nat (boxes_len prediction))));
          (lit "X-Model-Path", model_path)
        ] in
        (Ok {| body := buffer; media_type := lit "image/jpeg";
               headers := headers |}, w)
    end.

End Service.

End ApiIndex.

(** ** check_dataset_counts.py: the dataset auditor *)

Module CheckDatasetCounts.

Local Open Scope fs_scope.

(** What the auditor asks of [str], [float], [math] and numpy. *)
Class Checks (F : Type) : Type := {
  (** [cls.isdigit()] *)
  isdigit : text -> bool;
  (** [float(s)]; [None] when it raises *)
  float_of_str : text -> option F;
  (** [math.isfinite] *)
  isfinite : F -> bool;
  (** [0 <= x], [0 < x] and [x <= 1] *)
  zero_le : F -> bool;
  zero_lt : F -> bool;
  le_one : F -> bool;
}.

(** The dictionary [np.load(cache_path, allow_pickle=True).item()] holds,
    as far as it is read: the messages, and [nf] and [nl] as they
    print. *)
Record cache : Type := {
  cache_msgs : list text;
  cache_nf : text;
  cache_nl : text;
}.

(** The parsed command line. *)
Record Args : Type := {
  root : Path;
  splits : string;
  limit : Z;
  check_format : bool;
  inspect_cache : bool;
}.

Section Auditor.

Context {F : Type} `{Checks F}.

(** [np.load(cache_path, allow_pickle=True).item()] with the three
    [get]s on its result.  The call opens the file and, [allow_pickle]
    being set, unpickles what it holds; unpickling calls what the pickle
    names, so the call is a computation on the disk like any other.
    [None], like an exception, is a failure the [except] clause
    catches. *)
Variable np_load : Path -> M (option cache).

(** Why a line is reported, with what the report shows of it. *)
Inductive violation : Type :=
  | bad_len (n : nat)
  | bad_cls (cls : text)
  | bad_float (token : text)
  | bad_nan (values : list F)
  | bad_range (values : list F).

(** An entry of the list [bad]: file, line number, violation, line. *)
Record bad_line : Type := {
  bad_file : string;
  bad_number : nat;
  bad_why : violation;
  bad_text : text;
}.

(** The lines the auditor prints. *)
Inductive printed : Type :=
  | counts_line (split : string) (imgs labels : nat)
  | labels_without_image (n : nat) (examples : list string)
  | images_without_label (n : nat) (examples : list string)
  | invalid_lines (n : nat) (examples : list bad_line)
  | cache_not_found (name : string)
  | cache_summary (name : string) (nf nl : text) (n_msgs : nat)
  | cache_messages (msgs : list text)
  | cache_error (name : string).

Definition image_exts : list string :=
  [".jpg"; ".jpeg"; ".png"; ".bmp"]%string.

Definition has_image_ext (n : string) : bool :=
  bool_decide (lower (suffix n) ∈ image_exts).

(** [path.glob("*")], as the list of the names. *)
Definition glob_all (p : Path) : M (list string) :=
  fun d =>
    match node_at d p with
    | Some Dir => (Ok (entries d p), d)
    | _ => (Ok [], d)
    end.

(** [any((img_dir / f"{stem}{ext}").exists() for ext in image_exts)] *)
Definition any_image_exists (img_dir : Path) (stem : string) : M bool :=
  for_each image_exts false (fun found ext =>
    if found then ret true
    else exists_ (joinpath img_dir (stem ++ ext))).

(** [map(float, nums)], unpacked: the numbers, or the token that does
    not parse. *)
Fixpoint floats (nums : list text) : text + list F :=
  match nums with
  | [] => inr []
  | s :: nums' =>
      match float_of_str s with
      | None => inl s
      | Some x =>
          match floats nums' with
          | inl t => inl t
          | inr xs => inr (x :: xs)
          end
      end
  end.

(** The body of the loop over the lines of one label file: the entry
    added to [bad] for line [i], if any. *)
Definition check_line (file : string) (i : nat) (line : text)
  : option bad_line :=
  let report why := Some {| bad_file := file; bad_number := i;
                            bad_why := why; bad_text := line |} in
  if bool_decide (strip line = []) then None
  else
    let parts := split line in
    if bool_decide (length parts <> 6%nat) then report (bad_len (length parts))
    else
      match parts with
      | [] => None
      | cls :: nums =>
          if negb (isdigit cls) then report (bad_cls cls)
          else
            match floats nums with
            | inl token => report (bad_float token)
            | inr values =>
                match values with
                | [x; y; w; h; a] =>
                    if negb (forallb isfinite values)
                    then report (bad_nan values)
                    else if negb (zero_le x && le_one x && zero_le y
                                  && le_one y && zero_lt w && le_one w
                                  && zero_lt h && le_one h)
                    then report (bad_range values)
                    else None
                | _ => None
                end
            end
      end.

(** [enumerate(lines, 1)] *)
Definition enumerate_from_1 {A} (l : list A) : list (nat * A) :=
  zip (seq 1 (length l)) l.

Definition check_file (lbl_dir : Path) (bad : list bad_line) (lbl : string)
  : M (list bad_line) :=
  text <- read_text (child lbl_dir lbl) ;;
  ret (bad ++ omap (fun il => check_line lbl il.1 il.2)
                   (enumerate_from_1 (splitlines text))).

(** [root / "labels" / f"{split}.cache"] *)
Definition cache_path (args : Args) (split : string) : Path :=
  joinpath (child (root args) "labels") (split ++ ".cache").

(** The part of the loop under [if args.inspect_cache]. *)
Definition inspect (args : Args) (split : string) : M (list printed) :=
  let cache_path := cache_path args split in
  let cache_name := name cache_path in
  present <- exists_ cache_path ;;
  if negb present then ret [cache_not_found cache_name]
  else
    fun d =>
      match np_load cache_path d with
      | (Ok (Some c), d') =>
          (Ok (cache_summary cache_name (cache_nf c) (cache_nl c)
                 (length (cache_msgs c))
               :: if bool_decide (cache_msgs c = []) then []
                  else [cache_messages
                          (slice (cache_msgs c) None (Some (limit args)))]),
           d')
      | (Ok None, d') => (Ok [cache_error cache_name], d')
      | (Raise _, d') => (Ok [cache_error cache_name], d')
      end.

(** One turn of the [for split in args.splits.split(",")] loop, adding
    to the lines printed so far. *)
Definition audit_split (args : Args) (out : list printed) (split : string)
  : M (list printed) :=
  let img_dir := joinpath (child (root args) "images") split in
  let lbl_dir := joinpath (child (root args) "labels") split in
  names <- glob_all img_dir ;;
  let imgs := List.filter has_image_ext names in
  lbls <- glob_txt lbl_dir ;;
  let out := out ++ [counts_line split (length imgs) (length lbls)] in
  missing_img <- for_each lbls [] (fun missing lbl =>
                   found <- any_image_exists img_dir (stem lbl) ;;
                   ret (if found then missing else missing ++ [lbl])) ;;
  let out :=
    if bool_decide (missing_img = []) then out
    else out ++ [labels_without_image (length missing_img)
                   (slice missing_img None (Some (limit args)))] in
  let lbl_stems := map stem lbls in
  let missing_lbl :=
    List.filter (fun img => negb (bool_decide (stem img ∈ lbl_stems))) imgs in
  let out :=
    if bool_decide (missing_lbl = []) then out
    else out ++ [images_without_label (length missing_lbl)
                   (slice missing_lbl None (Some (limit args)))] in
  out <- (if check_format args then
            bad <- for_each lbls [] (check_file lbl_dir) ;;
            ret (if bool_decide (bad = []) then out
                 else out ++ [invalid_lines (length bad)
                                (slice bad None (Some (limit args)))])
          else ret out) ;;
  if inspect_cache args then
    lines <- inspect args split ;;
    ret (out ++ lines)
  else ret out.

(** [main], returning the lines it prints. *)
Definition main (args : Args) : M (list printed) :=
  for_each (split_on "," (splits args)) [] (audit_split args).

End Auditor.

(** *** Loading a cache that is a pickle

    [np.load(path, allow_pickle=True)] opens the file and reads its first
    bytes; a file that starts neither as a zip archive nor with numpy's
    magic string is handed to [pickle.load].  Unpickling runs a stack
    machine, whose [REDUCE] calls the callable on the stack with the
    arguments on the stack.  Below is that machine on the opcodes of
    protocol 0 such a call is written with, and with two callables of the
    standard library that write: [os.mkdir] and [shutil.copy2].  What the
    machine loads here (a string, a tuple, [None], a dictionary) has no
    [item], so the auditor's [try] block ends in its [except] clause. *)
Module Pickle.

#[warnings="-register-all"] Inductive value : Type :=
  | Mark
  | Str (s : text)
  | Tuple (items : list value)
  | Global (module_ name_ : text)
  | PyNone
  | Dict.

(** [readline()]: the bytes before the next line feed, and what follows
    it. *)
Fixpoint readline (s : text) : option (text * text) :=
  match s with
  | [] => None
  | c :: s' =>
      if (c =? LF)%N then Some ([], s')
      else match readline s' with
           | Some (l, r) => Some (c :: l, r)
           | None => None
           end
  end.

(** [pop_mark]: the items above the topmost mark, the first pushed first,
    and the stack below the mark. *)
Fixpoint pop_mark (stack acc : list value)
  : option (list value * list value) :=
  match stack with
  | [] => None
  | Mark :: stack' => Some (acc, stack')
  | v :: stack' => pop_mark stack' (v :: acc)
  end.

(** A path given as a [str], from the working directory, taken for the
    root. *)
Definition path_of (s : text) : Path :=
  joinpath [] (string_of_list_ascii (map ascii_of_N s)).

(** The call of [func] on the tuple [args], for the callables the
    machine knows here; [None] for any other. *)
Definition call (func args : value) : M (option value) :=
  match func, args with
  | Global m n, Tuple [Str a] =>
      if bool_decide (m = lit "os" /\ n = lit "mkdir") then
        os_mkdir (path_of a) ;; ret (Some PyNone)
      else ret None
  | Global m n, Tuple [Str a; Str b] =>
      if bool_decide (m = lit "shutil" /\ n = lit "copy2") then
        copy2 (path_of a) (path_of b) ;; ret (Some (Str b))
      else ret None
  | _, _ => ret None
  end%fs.

(** [Unpickler.load]: one opcode a turn, over the bytes left; [None] is an
    [UnpicklingError], the end of the bytes or an opcode that is not
    among these. *)
Fixpoint load (fuel : nat) (s : text) (stack : list value)
  : M (option value) :=
  match fuel, s with
  | S fuel', op :: s' =>
      if (op =? 99)%N then (* c: GLOBAL *)
        match readline s' with
        | Some (m, s1) =>
            match readline s1 with
            | Some (n, s2) => load fuel' s2 (Global m n :: stack)
            | None => ret None
            end
        | None => ret None
        end
      else if (op =? 40)%N then (* (: MARK *)
        load fuel' s' (Mark :: stack)
      else if (op =? 86)%N then (* V: UNICODE *)
        match readline s' with
        | Some (l, s1) => load fuel' s1 (Str l :: stack)
        | None => ret None
        end
      else if (op =? 116)%N then (* t: TUPLE *)
        match pop_mark stack [] with
        | Some (items, stack') => load fuel' s' (Tuple items :: stack')
        | None => ret None
        end
      else if (op =? 82)%N then (* R: REDUCE *)
        match stack with
        | args :: func :: stack' =>
            (r <- call func args ;;
             match r with
             | Some v => load fuel' s' (v :: stack')
             | None => ret None
             end)%fs
        | _ => ret None
        end
      else if (op =? 125)%N then (* }: EMPTY_DICT *)
        load fuel' s' (Dict :: stack)
      else if (op =? 78)%N then (* N: NONE *)
        load fuel' s' (PyNone :: stack)
      else if (op =? 46)%N then (* .: STOP *)
        ret (head stack)
      else ret None
  | _, _ => ret None
  end.

(** The first bytes of a zip archive and of a [.npy] file. *)
Definition zip_prefix : text := [80; 75; 3; 4]%N.
Definition zip_suffix : text := [80; 75; 5; 6]%N.
Definition npy_magic : text := [147; 78; 85; 77; 80; 89]%N.

(** [np.load(path, allow_pickle=True).item()] on a file that is a pickle
    of these opcodes: the file is unpickled, and [item] then fails.  An
    archive or a [.npy] file is not read here. *)
Definition np_load (path : Path) : M (option cache) :=
  (bytes <- read_text path ;;
   if bool_decide (zip_prefix `prefix_of` bytes)
      || bool_decide (zip_suffix `prefix_of` bytes)
      || bool_decide (npy_magic `prefix_of` bytes)
   then ret None
   else
     load (length bytes) bytes [] ;; ret None)%fs.

End Pickle.

End CheckDatasetCounts.

(* ===================================================================== *)
(** * Part II: lemmas and theorems                                        *)
(* ===================================================================== *)

(** ** Words and lines *)

(** A token is what [str.split] yields: a non-empty run without
    whitespace. *)
Definition is_token (t : text) : Prop :=
  t <> [] /\ Forall (fun c => isspace c = false) t.

Definition all_space (s : text) : Prop := Forall (fun c => isspace c = true) s.

Definition no_break (l : text) : Prop :=
  Forall (fun c => islinebreak c = false) l.

Lemma islinebreak_isspace c : islinebreak c = true -> isspace c = true.
Proof.
  unfold islinebreak, isspace.
  rewrite !orb_true_iff, !andb_true_iff, !N.leb_le, !N.eqb_eq. lia.
Qed.

Lemma isspace_no_break c : isspace c = false -> islinebreak c = false.
Proof.
  intros Hs. destruct (islinebreak c) eqn:Hb; [|done].
  apply islinebreak_isspace in Hb. congruence.
Qed.

Lemma token_no_break t : is_token t -> no_break t.
Proof.
  intros [_ Ht]. eapply Forall_impl; [exact Ht|].
  intros c. apply isspace_no_break.
Qed.

(** *** [str.split] *)

Lemma split_cons c s :
  split (c :: s) =
    if isspace c then split s
    else match s with
         | [] => [[c]]
         | c' :: _ =>
             if isspace c' then [c] :: split s
             else match split s with
                  | w :: ws => (c :: w) :: ws
                  | [] => [[c]]
                  end
         end.
Proof. by destruct s. Qed.

Lemma split_all_space s : all_space s -> split s = [].
Proof.
  induction 1 as [|c s Hc _ IH]; [done|]. by rewrite split_cons, Hc.
Qed.

Lemma split_tokens s : Forall is_token (split s).
Proof.
  induction s as [|c s IH]; [constructor|].
  rewrite split_cons.
  destruct (isspace c) eqn:Hc; [done|].
  destruct s as [|c' s']; [repeat constructor; by auto|].
  destruct (isspace c') eqn:Hc'.
  - constructor; [|done]. split; [done|]. by constructor.
  - destruct (split (c' :: s')) as [|w ws] eqn:Hs.
    + repeat constructor; by auto.
    + inversion IH as [|? ? [Hw1 Hw2] Hws]; subst.
      constructor; [|done]. split; [done|]. by constructor.
Qed.

Lemma split_token t : is_token t -> split t = [t].
Proof.
  intros [Hne Ht]. induction Ht as [|c t Hc Ht IH]; [done|].
  rewrite split_cons, Hc. destruct t as [|c' t']; [done|].
  inversion Ht as [|? ? Hc' _]; subst. rewrite Hc'.
  by rewrite IH.
Qed.

Lemma split_token_space t c s :
  is_token t -> isspace c = true -> split (t ++ c :: s) = t :: split s.
Proof.
  intros [Hne Ht] Hsp. induction Ht as [|c0 t Hc0 Ht IH]; [done|].
  change ((c0 :: t) ++ c :: s) with (c0 :: (t ++ c :: s)).
  rewrite split_cons, Hc0. destruct t as [|c' t'].
  - cbn [app]. by rewrite Hsp, (split_cons c), Hsp.
  - inversion Ht as [|? ? Hc' _]; subst.
    cbn [app] in *. rewrite Hc'. by rewrite IH.
Qed.

Lemma join_cons2 sep (p q : text) ps :
  join sep (p :: q :: ps) = p ++ sep ++ join sep (q :: ps).
Proof. done. Qed.

Lemma split_join parts :
  Forall is_token parts -> split (join [SP] parts) = parts.
Proof.
  induction 1 as [|p ps Hp Hps IH]; [done|].
  destruct ps as [|q ps'].
  - by apply split_token.
  - rewrite join_cons2. cbn [app].
    rewrite (split_token_space p SP); [|done..]. by rewrite IH.
Qed.

Lemma lstrip_decompose s :
  exists ws, all_space ws /\ s = ws ++ lstrip s.
Proof.
  induction s as [|c s (ws & Hws & Heq)].
  { exists []. split; [constructor | done]. }
  simpl. destruct (isspace c) eqn:Hc.
  - exists (c :: ws). split; [by constructor|]. simpl. by rewrite <-Heq.
  - exists []. split; [constructor | done].
Qed.

Lemma split_space_app ws s : all_space ws -> split (ws ++ s) = split s.
Proof.
  induction 1 as [|c ws Hc _ IH]; [done|].
  cbn [app]. by rewrite split_cons, Hc.
Qed.

Lemma split_app_space s ws : all_space ws -> split (s ++ ws) = split s.
Proof.
  intros Hws. induction s as [|c s IH].
  - by apply split_all_space.
  - cbn [app]. rewrite !split_cons.
    destruct (isspace c) eqn:Hc; [done|].
    destruct s as [|c' s'].
    + cbn [app]. destruct Hws as [|w ws Hw Hws]; [done|].
      rewrite Hw. rewrite split_all_space; [done|]. by constructor.
    + cbn [app] in *. by rewrite IH.
Qed.

Lemma split_lstrip s : split (lstrip s) = split s.
Proof.
  destruct (lstrip_decompose s) as (ws & Hws & Heq).
  rewrite Heq at 2. by rewrite split_space_app.
Qed.

Lemma rstrip_decompose s :
  exists ws, all_space ws /\ s = rstrip s ++ ws.
Proof.
  destruct (lstrip_decompose (rev s)) as (ws & Hws & Heq).
  exists (rev ws). split.
  - unfold all_space. by apply Forall_rev.
  - unfold rstrip. rewrite <-rev_app_distr, <-Heq. by rewrite rev_involutive.
Qed.

Lemma split_rstrip s : split (rstrip s) = split s.
Proof.
  destruct (rstrip_decompose s) as (ws & Hws & Heq).
  rewrite Heq at 2. by rewrite split_app_space.
Qed.

Lemma split_strip s : split (strip s) = split s.
Proof. unfold strip. by rewrite split_rstrip, split_lstrip. Qed.

Lemma lstrip_head_not_space s c s' : lstrip s = c :: s' -> isspace c = false.
Proof.
  induction s as [|c0 s IH]; simpl; [done|].
  destruct (isspace c0) eqn:Hc; [done|]. by intros [= -> _].
Qed.

Lemma split_nil_all_space s : split s = [] -> all_space s.
Proof.
  induction s as [|c s IH]; [constructor|].
  rewrite split_cons.
  destruct (isspace c) eqn:Hc.
  - intros Hs. constructor; [done | by apply IH].
  - destruct s as [|c' s']; [done|].
    destruct (isspace c'); [done|]. by destruct (split (c' :: s')).
Qed.

Lemma lstrip_all_space s : all_space s -> lstrip s = [].
Proof. induction 1 as [|c s Hc _ IH]; simpl; [done|]. by rewrite Hc. Qed.

(** A line is blank for [strip] exactly when [split] finds no field. *)
Lemma strip_nil_iff s : strip s = [] <-> split s = [].
Proof.
  split.
  - intros Hs. rewrite <-split_strip, Hs. done.
  - intros Hs. apply split_nil_all_space in Hs.
    unfold strip. rewrite (lstrip_all_space s Hs). done.
Qed.

(** *** [str.splitlines] and [str.join] *)

Lemma splitlines_cons c s :
  splitlines (c :: s) =
    if islinebreak c then
      [] :: match s with
            | c' :: s'' =>
                if (c =? CR)%N && (c' =? LF)%N then splitlines s''
                else splitlines s
            | [] => []
            end
    else match splitlines s with
         | l :: ls => (c :: l) :: ls
         | [] => [[c]]
         end.
Proof. by destruct s. Qed.

Lemma splitlines_lf s : splitlines (LF :: s) = [] :: splitlines s.
Proof. rewrite splitlines_cons. by destruct s. Qed.

Lemma splitlines_no_break s : Forall no_break (splitlines s).
Proof.
  induction s as [s IH] using (induction_ltof1 _ (@length N)).
  unfold ltof in IH. destruct s as [|c s]; [constructor|].
  rewrite splitlines_cons. destruct (islinebreak c) eqn:Hc.
  - constructor; [constructor|].
    destruct s as [|c' s'']; [constructor|].
    destruct ((c =? CR)%N && (c' =? LF)%N); apply IH; simpl; lia.
  - pose proof (IH s ltac:(simpl; lia)) as Hs.
    destruct (splitlines s) as [|l ls].
    + repeat constructor. done.
    + inversion Hs; subst. constructor; [by constructor | done].
Qed.

Lemma splitlines_line_lf l s :
  no_break l -> splitlines (l ++ LF :: s) = l :: splitlines s.
Proof.
  induction 1 as [|c l Hc _ IH]; cbn [app].
  - apply splitlines_lf.
  - by rewrite splitlines_cons, Hc, IH.
Qed.

Lemma splitlines_line l : no_break l -> l <> [] -> splitlines l = [l].
Proof.
  intros Hl. induction Hl as [|c l Hc Hl IH]; [done|]. intros _.
  rewrite splitlines_cons, Hc. destruct l as [|c' l']; [done|].
  by rewrite IH.
Qed.

Lemma splitlines_join_lf ls :
  Forall no_break ls -> ls <> [] -> splitlines (join [LF] ls ++ [LF]) = ls.
Proof.
  induction 1 as [|l ls Hl Hls IH]; [done|]. intros _.
  destruct ls as [|l' ls'].
  - cbn [join]. rewrite splitlines_line_lf; done.
  - rewrite join_cons2. rewrite <-!app_assoc. cbn [app].
    rewrite splitlines_line_lf; [|done]. by rewrite IH.
Qed.

Lemma splitlines_join ls :
  Forall no_break ls -> splitlines (join [LF] ls) `prefix_of` ls.
Proof.
  induction 1 as [|l ls Hl Hls IH]; [done|].
  destruct ls as [|l' ls'].
  - cbn [join]. destruct l as [|c l]; [by exists [[]]|].
    by rewrite splitlines_line.
  - rewrite join_cons2. cbn [app].
    rewrite splitlines_line_lf; [|done]. by apply prefix_cons.
Qed.

Lemma endswith_lf_not_nil s : endswith s [LF] = true -> splitlines s <> [].
Proof.
  destruct s as [|c s]; [done|]. intros _.
  rewrite splitlines_cons. destruct (islinebreak c); [done|].
  by destruct (splitlines s).
Qed.

(** The lines of a joined text are the joined lines, at their places. *)
Lemma splitlines_joined ls (nl : bool) :
  Forall no_break ls -> (nl = true -> ls <> []) ->
  splitlines (if nl then join [LF] ls ++ [LF] else join [LF] ls)
    `prefix_of` ls.
Proof.
  intros Hls Hnl. destruct nl.
  - by rewrite splitlines_join_lf; auto.
  - by apply splitlines_join.
Qed.

Lemma join_tokens_no_break parts :
  Forall is_token parts -> no_break (join [SP] parts).
Proof.
  induction 1 as [|p ps Hp Hps IH]; [constructor|].
  destruct ps as [|q ps'].
  - by apply token_no_break.
  - rewrite join_cons2. apply Forall_app. split; [by apply token_no_break|].
    apply Forall_app. split; [|done]. by repeat constructor.
Qed.

Lemma slice_prefix {A} (l : list A) (k : nat) :
  slice l None (Some (Z.of_nat k)) = take k l.
Proof.
  unfold slice, slice_bound. simpl.
  destruct (Z.ltb_spec (Z.of_nat k) 0); [lia|].
  rewrite Nat2Z.id, Nat.sub_0_r, drop_0.
  destruct (Nat.min_spec (length l) k) as [[? ->] | [? ->]]; [|done].
  rewrite !firstn_all2; [done | lia..].
Qed.

(** ** The class and angle normalizer *)

Section NormalizerFacts.

Import ConvertLabelIndices.

(** What [rewrite_file] keeps of the fields of a line, and whether that
    changes them. *)
Definition fields_kept (parts : list text) : list text :=
  take 5 (<[0%nat := lit "0"]> parts).

Definition fields_change (parts : list text) : bool :=
  bool_decide (head parts <> Some (lit "0")) || bool_decide (5 < length parts).

(** The line [rewrite_file] writes for a line, and whether it counts the
    line as changed. *)
Definition norm_line (line : text) : text * bool :=
  if bool_decide (strip line = []) then (line, false)
  else (join [SP] (fields_kept (split line)), fields_change (split line)).

Lemma rewrite_line_eq st line :
  rewrite_line st line =
    Ok {| updated_lines := updated_lines st ++ [(norm_line line).1];
          changed := changed st || (norm_line line).2 |}.
Proof.
  unfold rewrite_line, norm_line.
  case_bool_decide as Hblank; [by rewrite orb_false_r|].
  rewrite split_strip.
  destruct (split line) as [|class rest] eqn:Hparts.
  { exfalso. apply Hblank. by apply strip_nil_iff. }
  unfold fields_kept, fields_change. cbn [head fst snd].
  assert (Hlit : lit " " = [SP]) by done. rewrite Hlit.
  case_bool_decide as Hclass.
  - rewrite (bool_decide_true (Some class <> Some (lit "0"))) by congruence.
    cbn [orb]. rewrite length_insert.
    case_bool_decide as Hlen.
    + rewrite (slice_prefix _ 5). by rewrite orb_true_r.
    + rewrite take_ge by (rewrite length_insert; lia). by rewrite orb_true_r.
  - subst class.
    rewrite (bool_decide_false (Some (lit "0") <> Some (lit "0"))) by naive_solver.
    cbn [orb insert list_insert].
    case_bool_decide as Hlen.
    + rewrite (slice_prefix _ 5). by rewrite orb_true_r.
    + rewrite take_ge by lia. by rewrite orb_false_r.
Qed.

Lemma rewrite_lines_eq lines st :
  rfold rewrite_line st lines =
    Ok {| updated_lines := updated_lines st ++ map (fun l => (norm_line l).1) lines;
          changed := changed st || existsb (fun l => (norm_line l).2) lines |}.
Proof.
  revert st. induction lines as [|l lines IH]; intros st; cbn [rfold].
  - cbn. rewrite app_nil_r, orb_false_r. by destruct st.
  - rewrite rewrite_line_eq. cbn [rbind]. rewrite IH. cbn.
    by rewrite <-app_assoc, orb_assoc.
Qed.

Lemma lit_0_token : is_token (lit "0").
Proof. split; [done|]. by repeat constructor. Qed.

Lemma fields_kept_tokens parts :
  Forall is_token parts -> Forall is_token (fields_kept parts).
Proof.
  intros Hp. unfold fields_kept. apply Forall_take.
  apply Forall_insert; [done | apply lit_0_token].
Qed.

Lemma fields_kept_head parts :
  parts <> [] -> exists rest, fields_kept parts = lit "0" :: rest
                              /\ length rest <= 4.
Proof.
  destruct parts as [|p ps]; [done|]. intros _.
  unfold fields_kept. cbn. eexists. split; [done|].
  rewrite length_take. lia.
Qed.

Lemma fields_kept_fixed rest :
  length rest <= 4 ->
  fields_kept (lit "0" :: rest) = lit "0" :: rest
  /\ fields_change (lit "0" :: rest) = false.
Proof.
  intros Hlen. unfold fields_kept, fields_change. split.
  - cbn [insert list_insert]. apply take_ge. simpl. lia.
  - apply orb_false_iff. split.
    + apply bool_decide_false. cbn. naive_solver.
    + apply bool_decide_false. simpl. lia.
Qed.

(** A line that was written once is written back as it is. *)
Lemma norm_line_idempotent line :
  norm_line (norm_line line).1 = ((norm_line line).1, false).
Proof.
  unfold norm_line at 2 3. case_bool_decide as Hblank.
  - cbn. unfold norm_line. by rewrite bool_decide_true.
  - cbn [fst].
    assert (Hne : split line <> []) by (by rewrite <-strip_nil_iff).
    destruct (fields_kept_head _ Hne) as (rest & Hkept & Hlen).
    pose proof (fields_kept_tokens _ (split_tokens line)) as Htok.
    unfold norm_line. rewrite (split_join _ Htok).
    rewrite bool_decide_false.
    2:{ rewrite strip_nil_iff, (split_join _ Htok), Hkept. done. }
    rewrite Hkept. destruct (fields_kept_fixed rest Hlen) as [-> ->]. done.
Qed.

Lemma norm_line_no_break line :
  no_break line -> no_break (norm_line line).1.
Proof.
  intros Hl. unfold norm_line. case_bool_decide; [done|].
  apply join_tokens_no_break, fields_kept_tokens, split_tokens.
Qed.

(** The text [rewrite_file] writes for a text. *)
Definition new_text_of (text : text) : Py.text :=
  let joined := join [LF] (map (fun l => (norm_line l).1) (splitlines text)) in
  if endswith text [LF] then joined ++ [LF] else joined.

Definition changes (text : text) : bool :=
  existsb (fun l => (norm_line l).2) (splitlines text).

Lemma rewrite_file_eq path dry_run d :
  rewrite_file path dry_run d =
    match node_at d path with
    | Some (File text) =>
        if changes text && negb dry_run then
          match write_text path (new_text_of text) d with
          | (Ok _, d') => (Ok (changes text), d')
          | (Raise e, d') => (Raise e, d')
          end
        else (Ok (changes text), d)
    | Some Dir => (Raise IsADirectoryError, d)
    | None => (Raise FileNotFoundError, d)
    end.
Proof.
  unfold rewrite_file, bind, read_text.
  destruct (node_at d path) as [[|text]|]; [done| |done].
  unfold lift. rewrite rewrite_lines_eq. cbn [updated_lines changed app orb].
  fold (changes text). unfold new_text_of.
  destruct (changes text && negb dry_run); [|done].
  by destruct (endswith text [LF]).
Qed.

(** The lines of the written text are written lines, at their places. *)
Lemma new_text_lines text :
  splitlines (new_text_of text)
    `prefix_of` map (fun l => (norm_line l).1) (splitlines text).
Proof.
  unfold new_text_of.
  apply (splitlines_joined _ (endswith text [LF])).
  - apply Forall_map. eapply Forall_impl; [apply splitlines_no_break|].
    intros l. apply norm_line_no_break.
  - intros Hnl Hnil. apply map_eq_nil in Hnil.
    by apply (endswith_lf_not_nil text).
Qed.

Lemma new_text_unchanged text : changes (new_text_of text) = false.
Proof.
  unfold changes. apply not_true_is_false. intros Hex.
  apply existsb_exists in Hex as (l & Hin & Hl).
  destruct (new_text_lines text) as [k Hk].
  assert (In l (map (fun l => (norm_line l).1) (splitlines text))) as Hin'.
  { rewrite Hk. apply in_or_app. by left. }
  apply in_map_iff in Hin' as (l0 & <- & _).
  rewrite norm_line_idempotent in Hl. done.
Qed.

(** C3.  The class and angle normalizer is idempotent: when a run of
    [rewrite_file] that is no dry run has returned, a second run on the
    disk it left reports the file as unchanged and leaves the disk, the
    file with it, as it is. *)
Theorem rewrite_file_idempotent path d c d1 :
  rewrite_file path false d = (Ok c, d1) ->
  rewrite_file path false d1 = (Ok false, d1).
Proof.
  rewrite !rewrite_file_eq.
  destruct (node_at d path) as [[|text]|] eqn:Hnode; [done| |done].
  destruct (changes text) eqn:Hch; cbn [andb negb].
  - unfold write_text. rewrite Hnode.
    destruct (node_at d (parent path)) as [[|?]|] eqn:Hpar; [|done..].
    intros [= <- <-].
    assert (path <> []) as Hpath by (intros ->; done).
    assert (node_at (<[path:=File (new_text_of text)]> d) path
            = Some (File (new_text_of text))) as ->.
    { destruct path; [done|]. cbn. by rewrite lookup_insert_eq. }
    by rewrite new_text_unchanged.
  - intros [= <- <-]. by rewrite Hnode, Hch.
Qed.

End NormalizerFacts.

(** *** Examples *)

(** A label file with a class to force, an angle to drop, a blank line
    and a short line. *)
Definition labels_example : text :=
  lit "3 0.5 0.5 0.2 0.1 1.57" ++ [LF] ++ lit "   " ++ [LF]
  ++ lit "0 0.25 0.75 0.1 0.1" ++ [LF] ++ lit "1 2 3" ++ [LF].

Definition disk_example : gmap (list string) node :=
  {[ ["labels"%string] := Dir;
     ["labels"; "a.txt"]%string := File labels_example ]}.

Example rewrite_file_example :
  let r := ConvertLabelIndices.rewrite_file
             ["labels"; "a.txt"]%string false disk_example in
  r.1 = Ok true
  /\ node_at r.2 ["labels"; "a.txt"]%string
     = Some (File (lit "0 0.5 0.5 0.2 0.1" ++ [LF] ++ lit "   " ++ [LF]
                   ++ lit "0 0.25 0.75 0.1 0.1" ++ [LF] ++ lit "0 2 3" ++ [LF])).
Proof. split; vm_compute; reflexivity. Qed.

(** A result with its two components computed apart. *)
Lemma pair_eq_fst {A B} (r : A * B) (a : A) : r.1 = a -> r = (a, r.2).
Proof. intros <-. by destruct r. Qed.

Lemma rewrite_file_idempotent_witness :
  let d1 := (ConvertLabelIndices.rewrite_file
               ["labels"; "a.txt"]%string false disk_example).2 in
  ConvertLabelIndices.rewrite_file ["labels"; "a.txt"]%string false d1
  = (Ok false, d1).
Proof.
  apply (rewrite_file_idempotent _ disk_example true).
  apply pair_eq_fst. vm_compute. reflexivity.
Defined.

Section NormalizerFields.

Import ConvertLabelIndices.

Lemma fields_kept_eq parts :
  parts <> [] -> fields_kept parts = lit "0" :: take 4 (drop 1 parts).
Proof. by destruct parts. Qed.

(** C5, as amended.  In a label file the normalizer has rewritten (no
    dry run), every line that is not blank starts with the class token
    ["0"], followed by the fields 2 to 5 of the line of the input at the
    same place, as far as that line has them: exactly the five canonical
    fields when the input line has five fields or more. *)
Theorem rewrite_file_fields path d d1 text :
  node_at d path = Some (File text) ->
  rewrite_file path false d = (Ok true, d1) ->
  exists new_text,
    node_at d1 path = Some (File new_text) /\
    forall i out,
      splitlines new_text !! i = Some out -> strip out <> [] ->
      exists line,
        splitlines text !! i = Some line /\
        split out = lit "0" :: take 4 (drop 1 (split line)) /\
        (5 <= length (split line) -> length (split out) = 5).
Proof.
  intros Hnode. rewrite rewrite_file_eq, Hnode.
  destruct (changes text) eqn:Hch; cbn [andb negb]; [|done].
  unfold write_text. rewrite Hnode.
  destruct (node_at d (parent path)) as [[|?]|]; [|done..].
  intros [= <-]. exists (new_text_of text). split.
  { destruct path; [done|]. cbn. by rewrite lookup_insert_eq. }
  intros i out Hi Hout.
  eapply prefix_lookup_Some in Hi; [|apply new_text_lines].
  rewrite list_lookup_fmap in Hi.
  destruct (splitlines text !! i) as [line|] eqn:Hline; [|done].
  injection Hi as <-. exists line. split; [done|].
  unfold norm_line in *. case_bool_decide as Hblank; [done|]. cbn [fst] in *.
  assert (split line <> []) as Hne by (by rewrite <-strip_nil_iff).
  rewrite split_join by apply fields_kept_tokens, split_tokens.
  rewrite fields_kept_eq by done. split; [done|].
  intros Hlen. cbn [length]. rewrite length_take, length_drop. lia.
Qed.

End NormalizerFields.

(** C5, as first stated, fails on a line of fewer than five fields: the
    class is forced and the line keeps its three fields. *)
Lemma rewrite_file_short_line :
  let p := ["labels"; "short.txt"]%string in
  let d : gmap (list string) node :=
    {[ ["labels"%string] := Dir; p := File (lit "1 2 3" ++ [LF]) ]} in
  let r := ConvertLabelIndices.rewrite_file p false d in
  r.1 = Ok true
  /\ node_at r.2 p = Some (File (lit "0 2 3" ++ [LF]))
  /\ splitlines (lit "0 2 3" ++ [LF]) = [lit "0 2 3"]
  /\ split (lit "0 2 3") = [lit "0"; lit "2"; lit "3"].
Proof. repeat split; vm_compute; reflexivity. Qed.

Lemma rewrite_file_fields_witness :
  exists new_text,
    node_at (ConvertLabelIndices.rewrite_file
               ["labels"; "a.txt"]%string false disk_example).2
            ["labels"; "a.txt"]%string = Some (File new_text) /\
    forall i out,
      splitlines new_text !! i = Some out -> strip out <> [] ->
      exists line,
        splitlines labels_example !! i = Some line /\
        split out = lit "0" :: take 4 (drop 1 (split line)) /\
        (5 <= length (split line) -> length (split out) = 5).
Proof.
  apply (rewrite_file_fields _ disk_example).
  - vm_compute. reflexivity.
  - apply pair_eq_fst. vm_compute. reflexivity.
Defined.

(** ** The label normalisation of the sync tool *)

Lemma splitlines_join_exact ls :
  Forall no_break ls -> Forall (fun l => l <> []) ls ->
  splitlines (join [LF] ls) = ls.
Proof.
  induction 1 as [|l ls Hl Hls IH]; [done|].
  intros Hne. inversion Hne as [|? ? Hl0 Hne']; subst.
  destruct ls as [|l' ls'].
  - cbn [join]. by apply splitlines_line.
  - rewrite join_cons2. cbn [app].
    rewrite splitlines_line_lf; [|done]. by rewrite IH.
Qed.

Lemma join_tokens_not_nil parts :
  Forall is_token parts -> parts <> [] -> join [SP] parts <> [].
Proof.
  intros Htok Hne Hnil. apply Hne.
  rewrite <-(split_join parts Htok), Hnil. done.
Qed.

Section SyncLabelFacts.

Import SyncToYoloObb.

Variable angle_value : text.

(** The fields [normalize_label] writes for the fields of a line. *)
Definition sync_fields (parts : list text) : list text :=
  let parts := <[0%nat := lit "0"]> parts in
  if bool_decide (length parts = 5) then parts ++ [angle_value]
  else if bool_decide (6 <= length parts) then <[5%nat := angle_value]> parts
  else parts.

Definition not_blank (line : text) : bool :=
  negb (bool_decide (strip line = [])).

Lemma normalize_line_eq out line :
  normalize_line angle_value out line =
    if not_blank line then out ++ [join [SP] (sync_fields (split line))]
    else out.
Proof.
  unfold normalize_line, not_blank, sync_fields.
  case_bool_decide; [done|]. cbn [negb].
  by destruct (split line).
Qed.

Lemma normalize_lines_eq lines out :
  fold_left (normalize_line angle_value) lines out =
    out ++ map (fun l => join [SP] (sync_fields (split l)))
               (List.filter not_blank lines).
Proof.
  revert out. induction lines as [|l lines IH]; intros out; cbn.
  - by rewrite app_nil_r.
  - rewrite IH, normalize_line_eq.
    destruct (not_blank l); [|done]. cbn. by rewrite <-app_assoc.
Qed.

Hypothesis angle_token : is_token angle_value.

Lemma sync_fields_tokens parts :
  Forall is_token parts -> Forall is_token (sync_fields parts).
Proof using angle_token.
  intros Hp. unfold sync_fields.
  assert (Forall is_token (<[0%nat:=lit "0"]> parts)) as H0
    by (apply Forall_insert; [done | apply lit_0_token]).
  repeat case_bool_decide.
  - apply Forall_app. split; [done|].
    constructor; [exact angle_token | constructor].
  - by apply Forall_insert.
  - done.
Qed.

Lemma sync_fields_not_nil parts : parts <> [] -> sync_fields parts <> [].
Proof.
  intros Hne. unfold sync_fields. repeat case_bool_decide.
  - by destruct parts.
  - intros Hnil. apply (f_equal length) in Hnil.
    rewrite !length_insert in Hnil. by destruct parts.
  - intros Hnil. apply (f_equal length) in Hnil.
    rewrite !length_insert in Hnil. by destruct parts.
Qed.

(** The lines of the normalised text are the lines written for the lines
    of the input that are not blank, in their order. *)
Lemma normalize_label_lines text :
  splitlines (normalize_label text angle_value) =
    map (fun l => join [SP] (sync_fields (split l)))
        (List.filter not_blank (splitlines text)).
Proof using angle_token.
  unfold normalize_label. rewrite normalize_lines_eq. cbn [app].
  set (kept := List.filter not_blank (splitlines text)).
  assert (Hout : Forall (fun l => no_break l /\ l <> [])
                   (map (fun l => join [SP] (sync_fields (split l))) kept)).
  { apply Forall_map, Forall_forall. intros l Hl.
    apply list_elem_of_In, filter_In in Hl as [_ Hl].
    unfold not_blank in Hl. apply negb_true_iff, bool_decide_eq_false in Hl.
    rewrite strip_nil_iff in Hl.
    pose proof (sync_fields_tokens _ (split_tokens l)) as Htok.
    split; [by apply join_tokens_no_break|].
    apply join_tokens_not_nil; [done|]. by apply sync_fields_not_nil. }
  apply Forall_and in Hout as [Hnb Hne].
  destruct (endswith text [LF] && negb (bool_decide (_ = []))) eqn:Hnl.
  - apply andb_true_iff in Hnl as [_ Hnl].
    apply negb_true_iff, bool_decide_eq_false in Hnl.
    by apply splitlines_join_lf.
  - by apply splitlines_join_exact.
Qed.

(** What C10 says of a line [line] of the input and the line [out]
    written for it. *)
Definition angle_overwritten (line out : text) : Prop :=
  head (split out) = Some (lit "0") /\
  (length (split line) = 5 ->
   split out = <[0%nat := lit "0"]> (split line) ++ [angle_value]) /\
  (6 <= length (split line) ->
   split out = <[5%nat := angle_value]> (<[0%nat := lit "0"]> (split line))
   /\ split out !! 5%nat = Some angle_value
   /\ drop 6 (split out) = drop 6 (split line)).

(** C10, as amended.  For an angle value that is one field (not empty,
    no whitespace), [normalize_label] overwrites the angle: every line of
    its result starts with the field ["0"]; a line of five fields gets the
    angle value as a sixth field; in a line of six fields or more the sixth
    field is the angle value, whatever it was, and the fields after it are
    kept. *)
Theorem normalize_label_angle text :
  Forall2 angle_overwritten
    (List.filter not_blank (splitlines text))
    (splitlines (normalize_label text angle_value)).
Proof using angle_token.
  unfold angle_overwritten. rewrite normalize_label_lines.
  apply Forall2_fmap_r, Forall_Forall2_diag, Forall_forall.
  intros l Hl. apply list_elem_of_In, filter_In in Hl as [_ Hl].
  unfold not_blank in Hl. apply negb_true_iff, bool_decide_eq_false in Hl.
  rewrite strip_nil_iff in Hl. unfold compose.
  rewrite split_join by apply sync_fields_tokens, split_tokens.
  unfold sync_fields. rewrite length_insert.
  destruct (split l) as [|p ps] eqn:Hparts; [done|].
  split; [|split].
  - repeat case_bool_decide; by destruct ps as [|? [|? [|? [|? [|? ?]]]]].
  - intros Hlen. by rewrite bool_decide_true.
  - intros Hlen. rewrite bool_decide_false by lia.
    rewrite bool_decide_true by done. split; [done|]. split.
    + apply list_lookup_insert_eq. rewrite length_insert. lia.
    + rewrite drop_insert_lt by lia. by rewrite drop_insert_lt by lia.
Qed.

End SyncLabelFacts.

(** A source label with a five-field line, a blank line, an oriented box
    and a polygon of nine fields. *)
Definition source_label_example : text :=
  lit "3 0.5 0.5 0.2 0.1" ++ [LF] ++ [LF]
  ++ lit "1 0.5 0.5 0.2 0.1 1.57" ++ [LF]
  ++ lit "2 0.1 0.2 0.3 0.4 0.5 0.6 0.7 0.8" ++ [LF].

Example normalize_label_example :
  SyncToYoloObb.normalize_label source_label_example (lit "0.0")
  = lit "0 0.5 0.5 0.2 0.1 0.0" ++ [LF]
    ++ lit "0 0.5 0.5 0.2 0.1 0.0" ++ [LF]
    ++ lit "0 0.1 0.2 0.3 0.4 0.0 0.6 0.7 0.8" ++ [LF].
Proof. vm_compute. reflexivity. Qed.

(** C10, as first stated, fails for an angle value of two words, which
    [--angle], an unvalidated [str], accepts: the sixth field of the line
    written is the first word only, and the seventh field of the input
    comes eighth. *)
Lemma normalize_label_angle_spaced :
  let out := SyncToYoloObb.normalize_label (lit "1 2 3 4 5 6 7") (lit "0 5") in
  out = lit "0 2 3 4 5 0 5 7"
  /\ split out !! 5%nat = Some (lit "0")
  /\ split out !! 5%nat <> Some (lit "0 5")
  /\ drop 6 (split out) = [lit "5"; lit "7"]
  /\ drop 6 (split (lit "1 2 3 4 5 6 7")) = [lit "7"].
Proof.
  cbv zeta.
  split; [vm_compute; reflexivity|].
  split; [vm_compute; reflexivity|].
  split; [vm_compute; discriminate|].
  split; vm_compute; reflexivity.
Qed.

Lemma normalize_label_angle_witness :
  is_token (lit "0.0") /\
  Forall2 (angle_overwritten (lit "0.0"))
    (List.filter not_blank (splitlines source_label_example))
    (splitlines (SyncToYoloObb.normalize_label source_label_example (lit "0.0"))).
Proof.
  assert (is_token (lit "0.0")) as Htok.
  { split; [done|]. repeat constructor. }
  split; [exact Htok|].
  exact (normalize_label_angle (lit "0.0") Htok source_label_example).
Defined.

(** ** The two runs of the sync tool *)

(** *** Paths and the disk *)

Lemma parent_child p n : parent (child p n) = p.
Proof. unfold parent, child. apply removelast_last. Qed.

Lemma name_child p n : name (child p n) = n.
Proof. unfold name, child. apply last_last. Qed.

Lemma child_not_nil p n : child p n <> [].
Proof. unfold child. by destruct p. Qed.

Lemma path_parent_name (q : Path) : q <> [] -> q = child (parent q) (name q).
Proof. intros Hq. unfold child, parent, name. by apply app_removelast_last. Qed.

Lemma node_at_lookup (d : gmap (list string) node) p :
  p <> [] -> node_at d p = d !! p.
Proof. by destruct p. Qed.

Lemma node_at_child (d : gmap (list string) node) p n :
  node_at d (child p n) = d !! child p n.
Proof. apply node_at_lookup, child_not_nil. Qed.

Lemma entry_of_Some p q n : entry_of p q = Some n <-> q = child p n.
Proof.
  unfold entry_of. destruct q as [|c q]; [split; [done|]|].
  - intros Hq. by destruct (child_not_nil p n).
  - case_decide as Hp.
    + split.
      * intros [= <-]. rewrite <-Hp. by apply path_parent_name.
      * intros Hq. rewrite Hq, name_child. done.
    + split; [done|]. intros Hq. rewrite Hq, parent_child in Hp. done.
Qed.

(** The entries of a directory are the names of the nodes just below. *)
Lemma elem_of_entries (d : gmap (list string) node) p n :
  n ∈ entries d p <-> is_Some (d !! child p n).
Proof.
  unfold entries. rewrite list_elem_of_omap. split.
  - intros ([q x] & Hin & Hq). apply elem_of_map_to_list in Hin.
    cbn in Hq. apply entry_of_Some in Hq. subst q. by eexists.
  - intros [x Hx]. exists (child p n, x). split.
    + by apply elem_of_map_to_list.
    + cbn. by apply entry_of_Some.
Qed.

(** A disk where every node lies in a directory: the state of a real
    file system. *)
Definition well_formed (d : gmap (list string) node) : Prop :=
  forall p, is_Some (d !! p) -> node_at d (parent p) = Some Dir.

(** [d'] has the nodes of [d], directories as directories and files as
    files (with any content). *)
Definition extends (d d' : gmap (list string) node) : Prop :=
  forall p x, d !! p = Some x ->
    exists x', d' !! p = Some x' /\ (x = Dir <-> x' = Dir).

Lemma extends_refl d : extends d d.
Proof. intros p x Hx. by exists x. Qed.

Lemma extends_trans d1 d2 d3 : extends d1 d2 -> extends d2 d3 -> extends d1 d3.
Proof.
  intros H12 H23 p x Hx.
  destruct (H12 p x Hx) as (x2 & Hx2 & Hk2).
  destruct (H23 p x2 Hx2) as (x3 & Hx3 & Hk3).
  exists x3. split; [done|]. by rewrite Hk2.
Qed.

Lemma extends_dir d d' p :
  extends d d' -> node_at d p = Some Dir -> node_at d' p = Some Dir.
Proof.
  intros Hext. destruct p as [|c p]; [done|]. cbn. intros Hp.
  destruct (Hext _ _ Hp) as (x' & -> & Hk). f_equal. by apply Hk.
Qed.

Lemma extends_file d d' p c :
  extends d d' -> d !! p = Some (File c) -> exists c', d' !! p = Some (File c').
Proof.
  intros Hext Hp. destruct (Hext _ _ Hp) as (x' & Hx' & Hk).
  destruct x' as [|c']; [|by exists c'].
  pose proof (proj2 Hk eq_refl). done.
Qed.

Lemma extends_insert_dir (d : gmap (list string) node) p :
  d !! p = None -> extends d (<[p := Dir]> d).
Proof.
  intros Hp q x Hq. exists x. split; [|done].
  rewrite lookup_insert_ne; [done|]. intros ->. congruence.
Qed.

Lemma extends_insert_file (d : gmap (list string) node) p c :
  d !! p <> Some Dir -> extends d (<[p := File c]> d).
Proof.
  intros Hp q x Hq. destruct (decide (p = q)) as [->|Hne].
  - exists (File c). rewrite lookup_insert_eq. split; [done|].
    split; [|done]. intros ->. done.
  - exists x. by rewrite lookup_insert_ne.
Qed.

(** *** What the primitives do to the disk *)

Lemma read_text_disk p d : (read_text p d).2 = d.
Proof. unfold read_text. by destruct (node_at d p) as [[|?]|]. Qed.

Lemma write_text_ok p c d d' :
  write_text p c d = (Ok tt, d') ->
  d' = <[p := File c]> d /\ d !! p <> Some Dir /\ p <> []
  /\ node_at d (parent p) = Some Dir.
Proof.
  unfold write_text. destruct p as [|a p]; [done|].
  cbn [node_at]. destruct (d !! (a :: p)) as [[|c0]|] eqn:Hp; [done| |];
    destruct (node_at d (parent (a :: p))) as [[|?]|]; try done;
    intros [= <-]; repeat split; done.
Qed.

(** A step from [d] to [d'] that only makes directories, among [made]. *)
Definition makes_dirs (made : list Path) (d d' : gmap (list string) node)
  : Prop :=
  forall q, d' !! q = d !! q
            \/ (d !! q = None /\ d' !! q = Some Dir /\ q ∈ made).

Lemma makes_dirs_refl made d : makes_dirs made d d.
Proof. intros q. by left. Qed.

Lemma makes_dirs_trans m1 m2 d1 d2 d3 :
  makes_dirs m1 d1 d2 -> makes_dirs m2 d2 d3 -> makes_dirs (m1 ++ m2) d1 d3.
Proof.
  intros H12 H23 q. destruct (H23 q) as [H3|(H2 & H3 & Hin)].
  - rewrite H3. destruct (H12 q) as [?|(? & ? & ?)]; [by left|].
    right. repeat split; [done..|]. apply elem_of_app. by left.
  - destruct (H12 q) as [H1|(? & ? & ?)]; [|congruence].
    right. rewrite <-H1. repeat split; [done..|]. apply elem_of_app. by right.
Qed.

Lemma makes_dirs_extends made d d' : makes_dirs made d d' -> extends d d'.
Proof.
  intros Hm q x Hq. destruct (Hm q) as [Heq|(Hnone & _)]; [|congruence].
  exists x. by rewrite Heq.
Qed.

Lemma mkdir_step_spec q r d d' :
  q <> [] -> mkdir_step q d = (r, d') ->
  makes_dirs [q] d d' /\ (r = Ok tt -> d' !! q = Some Dir).
Proof.
  intros Hq. unfold mkdir_step, os_mkdir. rewrite (node_at_lookup d q Hq).
  destruct (d !! q) as [[|c]|] eqn:Hdq.
  - intros [= <- <-]. split; [apply makes_dirs_refl | done].
  - intros [= <- <-]. split; [apply makes_dirs_refl | done].
  - destruct (node_at d (parent q)) as [[|c]|]; intros [= <- <-].
    + split.
      * intros q'. destruct (decide (q = q')) as [<-|Hne].
        -- right. rewrite lookup_insert_eq. repeat split; [done..|].
           by apply list_elem_of_singleton.
        -- left. by rewrite lookup_insert_ne.
      * intros _. by rewrite lookup_insert_eq.
    + split; [apply makes_dirs_refl | done].
    + split; [apply makes_dirs_refl | done].
Qed.

Lemma mkdir_steps_spec (l : list Path) r d d' :
  Forall (fun q => q <> []) l ->
  for_each l tt (fun _ q => mkdir_step q) d = (r, d') ->
  makes_dirs l d d' /\ (r = Ok tt -> forall q, q ∈ l -> d' !! q = Some Dir).
Proof.
  intros Hl. revert d. induction Hl as [|q l Hq Hl IH]; intros d; cbn [for_each].
  - intros [= <- <-]. split; [apply makes_dirs_refl|].
    intros _ q Hq. by apply elem_of_nil in Hq.
  - unfold bind. destruct (mkdir_step q d) as [[[]|e] d1] eqn:Hstep.
    + destruct (mkdir_step_spec _ _ _ _ Hq Hstep) as [Hm1 Hd1].
      intros Hrest. destruct (IH _ Hrest) as [Hm2 Hd2].
      split; [apply (makes_dirs_trans [q] l _ _ _ Hm1 Hm2)|].
      intros Hr q' Hq'. apply elem_of_cons in Hq' as [Heq|Hq'].
      * subst q'. pose proof (extends_dir d1 d' q
                                (makes_dirs_extends _ _ _ Hm2)) as Hdir.
        rewrite !node_at_lookup in Hdir by done. by apply Hdir, Hd1.
      * by apply Hd2.
    + destruct (mkdir_step_spec _ _ _ _ Hq Hstep) as [Hm1 _].
      intros [= <- <-]. split; [|done].
      intros q'. destruct (Hm1 q') as [?|(? & ? & Hin)]; [by left|].
      right. repeat split; [done..|]. apply elem_of_cons. left.
      by apply list_elem_of_singleton in Hin.
Qed.

Lemma prefixes_not_nil p : Forall (fun q => q <> []) (prefixes p).
Proof.
  induction p as [|c p IH]; cbn; [constructor|].
  constructor; [done|]. apply Forall_map. by apply Forall_true.
Qed.

Lemma prefixes_self p : p <> [] -> p ∈ prefixes p.
Proof.
  induction p as [|c p IH]; [done|]. intros _. cbn.
  destruct p as [|c' p']; [by left|]. right.
  apply list_elem_of_fmap. exists (c' :: p'). split; [done|]. by apply IH.
Qed.

Lemma elem_of_prefixes q p :
  q ∈ prefixes p <-> q <> [] /\ q `prefix_of` p.
Proof.
  revert q. induction p as [|c p IH]; intros q; cbn.
  - split; [by intros ?%elem_of_nil|].
    intros [Hq [k Hk]]. destruct q; [done|]. done.
  - rewrite elem_of_cons, list_elem_of_fmap. split.
    + intros [->|(q' & -> & Hq')].
      * split; [done|]. by exists p.
      * apply IH in Hq' as [_ Hpre]. split; [done|]. by apply prefix_cons.
    + intros [Hq Hpre]. destruct q as [|c' q']; [done|].
      apply prefix_cons_inv_1 in Hpre as Hc. subst c'.
      apply prefix_cons_inv_2 in Hpre.
      destruct q' as [|c'' q'']; [by left|]. right.
      exists (c'' :: q''). split; [done|]. apply IH. done.
Qed.

(** [mkdir(parents=True, exist_ok=True)] makes directories only, on the
    way to its path, and the path is a directory when it returns. *)
Lemma mkdir_parents_spec p r d d' :
  mkdir_parents p d = (r, d') ->
  makes_dirs (prefixes p) d d' /\ (r = Ok tt -> node_at d' p = Some Dir).
Proof.
  intros Hrun. unfold mkdir_parents in Hrun.
  destruct (mkdir_steps_spec _ _ _ _ (prefixes_not_nil p) Hrun) as [Hm Hd].
  split; [done|]. intros Hr. destruct p as [|c p]; [done|].
  cbn [node_at]. apply Hd; [done|]. by apply prefixes_self.
Qed.

Lemma copy2_ok src dst d d' :
  copy2 src dst d = (Ok tt, d') ->
  exists c dst',
    d' = <[dst' := File c]> d /\ d !! dst' <> Some Dir /\ dst' <> []
    /\ node_at d (parent dst') = Some Dir
    /\ (dst' = dst \/ (node_at d dst = Some Dir /\ dst' = child dst (name src))).
Proof.
  unfold copy2.
  set (dst' := if bool_decide (node_at d dst = Some Dir)
               then child dst (name src) else dst).
  destruct (bool_decide (src = dst') && _); [done|].
  unfold bind. pose proof (read_text_disk src d) as Hrd.
  destruct (read_text src d) as [[c|e] d0]; cbn in Hrd; subst d0; [|done].
  intros Hw. apply write_text_ok in Hw as (-> & Hnd & Hne & Hpar).
  exists c, dst'. repeat split; [done..|].
  unfold dst'. case_bool_decide; [right | left]; done.
Qed.

(** *** Names, stems and the two mappings *)

Section SyncFacts.

Import SyncToYoloObb.

Lemma rfind_dot_last_dot (l r : list ascii) :
  rfind_dot r = None -> rfind_dot (l ++ "."%char :: r) = Some (length l).
Proof.
  intros Hr. induction l as [|c l IH]; cbn.
  - by rewrite Hr.
  - by rewrite IH.
Qed.

(** A name that matches [*.txt] has no image extension. *)
Lemma txt_not_image n : matches_txt n = true -> has_image_ext n = false.
Proof.
  unfold matches_txt. intros Hn. apply bool_decide_eq_true in Hn as [pre Hpre].
  assert (suffix n = EmptyString \/ suffix n = ".txt"%string) as Hsuf.
  { unfold suffix, cut_at_suffix. rewrite Hpre.
    change (list_ascii_of_string ".txt") with ("."%char :: ["t"; "x"; "t"]%char).
    rewrite rfind_dot_last_dot by done.
    destruct ((0 <? length pre) && _); [|by left]. right.
    rewrite drop_app_length. done. }
  unfold has_image_ext. destruct Hsuf as [-> | ->]; done.
Qed.

Lemma split_str_not_txt sp : matches_txt (split_str sp) = false.
Proof. by destruct sp. Qed.

Lemma split_str_not_image sp : has_image_ext (split_str sp) = false.
Proof. by destruct sp. Qed.

Lemma by_stem_dom {V} (v : string -> V) files (m : gmap string V) s :
  s ∈ dom (by_stem v files m)
  <-> s ∈ dom m \/ exists n, n ∈ files /\ stem n = s.
Proof.
  unfold by_stem. revert m. induction files as [|n files IH]; intros m; cbn.
  - split; [by left|]. intros [?|(n & Hn & _)]; [done|].
    by apply elem_of_nil in Hn.
  - rewrite IH, dom_insert, elem_of_union, elem_of_singleton. split.
    + intros [[->|?]|(n' & Hn' & <-)].
      * right. exists n. split; [by left | done].
      * by left.
      * right. exists n'. split; [by right | done].
    + intros [?|(n' & Hn' & <-)]; [left; by right|].
      apply elem_of_cons in Hn' as [->|Hn'].
      * left. by left.
      * right. by exists n'.
Qed.

Lemma by_stem_lookup {V} (v : string -> V) files s x :
  by_stem v files ∅ !! s = Some x ->
  exists n, n ∈ files /\ stem n = s /\ x = v n.
Proof.
  unfold by_stem.
  assert (forall (m : gmap string V),
            fold_left (fun m n => <[stem n := v n]> m) files m !! s = Some x ->
            m !! s = Some x \/ exists n, n ∈ files /\ stem n = s /\ x = v n)
    as Hgen.
  { induction files as [|n files IH]; intros m; cbn; [by left|].
    intros Hl. destruct (IH _ Hl) as [Hm|(n' & Hn' & Hs & Hx)].
    - destruct (decide (stem n = s)) as [Heq|Hne].
      + rewrite Heq, lookup_insert_eq in Hm. injection Hm as <-.
        right. exists n. split; [by left | done].
      + rewrite lookup_insert_ne in Hm by done. by left.
    - right. exists n'. split; [by right | done]. }
  intros Hl. destruct (Hgen ∅ Hl) as [Hm|?]; [|done].
  by rewrite lookup_empty in Hm.
Qed.

(** The image files and the label files a directory holds, as
    [load_source_files] reads them. *)
Definition is_file_at (d : gmap (list string) node) (p : Path) : bool :=
  match node_at d p with Some (File _) => true | _ => false end.

Definition regular_images (d : gmap (list string) node) (dir : Path)
  : list string :=
  List.filter (fun n => is_file_at d (child dir n) && has_image_ext n)
    (entries d dir).

Definition txt_names (d : gmap (list string) node) (dir : Path)
  : list string :=
  match node_at d dir with
  | Some Dir => List.filter matches_txt (entries d dir)
  | _ => []
  end.

Lemma regular_loop images_dir names acc d :
  for_each names acc (fun acc n =>
    bind (is_file (child images_dir n)) (fun f =>
    ret (if f && has_image_ext n then acc ++ [n] else acc))) d
  = (Ok (acc ++ List.filter
                  (fun n => is_file_at d (child images_dir n) && has_image_ext n)
                  names), d).
Proof.
  revert acc. induction names as [|n names IH]; intros acc; cbn [for_each].
  - cbn. by rewrite app_nil_r.
  - unfold bind at 1. unfold is_file at 1. unfold bind at 1. unfold ret at 1.
    rewrite IH. cbn [List.filter]. unfold is_file_at at 2.
    destruct (match node_at d (child images_dir n) with
              | Some (File _) => true | _ => false end && has_image_ext n);
      [by rewrite <-app_assoc | done].
Qed.

Lemma load_source_files_eq images_dir labels_dir d :
  load_source_files images_dir labels_dir d =
    match node_at d images_dir with
    | Some Dir =>
        (Ok (by_stem (child images_dir) (regular_images d images_dir) ∅,
             by_stem (child labels_dir) (txt_names d labels_dir) ∅), d)
    | Some (File _) => (Raise NotADirectoryError, d)
    | None => (Raise FileNotFoundError, d)
    end.
Proof.
  unfold load_source_files. unfold bind at 1. unfold iterdir.
  destruct (node_at d images_dir) as [[|c]|]; [|done..].
  unfold bind at 1. rewrite regular_loop. cbn [app].
  unfold bind, glob_txt, ret, txt_names, regular_images.
  by destruct (node_at d labels_dir) as [[|c]|].
Qed.

(** The directory of a split, and the names [map_stems_by_split] keeps
    in it. *)
Definition split_base (root : Path) (kind : string) (sp : split_name) : Path :=
  child (child root kind) (split_str sp).

Definition keeps (kind : string) (n : string) : bool :=
  if bool_decide (kind = "images"%string) then has_image_ext n
  else matches_txt n.

Definition split_names (d : gmap (list string) node) (root : Path)
    (kind : string) (sp : split_name) : result (list string) :=
  match node_at d (split_base root kind sp) with
  | None => Ok []
  | Some Dir => Ok (List.filter (keeps kind) (entries d (split_base root kind sp)))
  | Some (File _) =>
      if bool_decide (kind = "images"%string) then Raise NotADirectoryError
      else Ok []
  end.

Definition stems_by_split (d : gmap (list string) node) (root : Path)
    (kind : string) : result (gmap string split_name) :=
  rfold (fun m sp => rbind (split_names d root kind sp)
                       (fun files => Ok (by_stem (fun _ => sp) files m)))
    ∅ [train; val; test].

Lemma for_each_read_only {A S} (l : list A) (s : S) body body' d :
  (forall s x, body s x d = (body' s x, d)) ->
  for_each l s body d = (rfold body' s l, d).
Proof.
  intros Hbody. revert s. induction l as [|x l IH]; intros s; cbn; [done|].
  unfold bind. rewrite Hbody. destruct (body' s x); cbn; [apply IH | done].
Qed.

Lemma map_stems_by_split_eq root kind d :
  map_stems_by_split root kind d = (stems_by_split d root kind, d).
Proof.
  unfold map_stems_by_split, stems_by_split.
  apply for_each_read_only. intros m sp.
  unfold split_names, split_base, bind, exists_, keeps.
  set (base := child (child root kind) (split_str sp)).
  destruct (node_at d base) as [[|c]|] eqn:Hbase; cbn; [| |done].
  - case_bool_decide.
    + unfold iterdir. rewrite Hbase. done.
    + unfold glob_txt. rewrite Hbase. done.
  - case_bool_decide.
    + unfold iterdir. rewrite Hbase. done.
    + unfold glob_txt. rewrite Hbase. done.
Qed.

(** A stem that the target holds in one of its splits. *)
Definition in_target (d : gmap (list string) node) (root : Path)
    (kind : string) (s : string) : Prop :=
  exists sp n,
    node_at d (split_base root kind sp) = Some Dir
    /\ is_Some (d !! child (split_base root kind sp) n)
    /\ keeps kind n = true /\ stem n = s.

Lemma split_names_elem d root kind sp files n :
  split_names d root kind sp = Ok files -> n ∈ files ->
  node_at d (split_base root kind sp) = Some Dir
  /\ is_Some (d !! child (split_base root kind sp) n)
  /\ keeps kind n = true.
Proof.
  unfold split_names.
  destruct (node_at d (split_base root kind sp)) as [[|c]|].
  - intros [= <-] Hn. apply list_elem_of_In, filter_In in Hn as [Hn Hk].
    apply list_elem_of_In, elem_of_entries in Hn. done.
  - case_bool_decide; [done|]. intros [= <-] Hn. by apply elem_of_nil in Hn.
  - intros [= <-] Hn. by apply elem_of_nil in Hn.
Qed.

Lemma split_names_dir d root kind sp n :
  node_at d (split_base root kind sp) = Some Dir ->
  is_Some (d !! child (split_base root kind sp) n) -> keeps kind n = true ->
  exists files, split_names d root kind sp = Ok files /\ n ∈ files.
Proof.
  intros Hbase Hn Hk. unfold split_names. rewrite Hbase.
  eexists. split; [done|].
  apply list_elem_of_In, filter_In. split; [|done].
  by apply list_elem_of_In, elem_of_entries.
Qed.

(** The stems of the mapping are the stems the target holds. *)
Lemma stems_by_split_dom d root kind m s :
  stems_by_split d root kind = Ok m ->
  s ∈ dom m <-> in_target d root kind s.
Proof.
  unfold stems_by_split. cbn [rfold].
  destruct (split_names d root kind train) as [f1|] eqn:H1; cbn [rbind]; [|done].
  destruct (split_names d root kind val) as [f2|] eqn:H2; cbn [rbind]; [|done].
  destruct (split_names d root kind test) as [f3|] eqn:H3; cbn [rbind]; [|done].
  intros [= <-]. rewrite !by_stem_dom, dom_empty. split.
  - intros [[[?|(n & Hn & <-)]|(n & Hn & <-)]|(n & Hn & <-)];
      [by apply elem_of_empty in H| | |].
    + exists train, n. by destruct (split_names_elem _ _ _ _ _ _ H1 Hn) as (? & ? & ?).
    + exists val, n. by destruct (split_names_elem _ _ _ _ _ _ H2 Hn) as (? & ? & ?).
    + exists test, n. by destruct (split_names_elem _ _ _ _ _ _ H3 Hn) as (? & ? & ?).
  - intros (sp & n & Hbase & Hn & Hk & <-).
    destruct (split_names_dir _ _ _ _ _ Hbase Hn Hk) as (files & Hf & Hnf).
    destruct sp; rewrite Hf in *; simplify_eq.
    + left. left. right. by exists n.
    + left. right. by exists n.
    + right. by exists n.
Qed.

(** The mapping is read unless the directory of a split of images is a
    file. *)
Lemma stems_by_split_ok d root kind :
  (kind = "images"%string ->
   forall sp c, node_at d (split_base root kind sp) <> Some (File c)) ->
  exists m, stems_by_split d root kind = Ok m.
Proof.
  intros Hbase.
  assert (forall sp, exists files, split_names d root kind sp = Ok files) as Hn.
  { intros sp. unfold split_names.
    destruct (node_at d (split_base root kind sp)) as [[|c]|] eqn:Hb;
      [by eexists| |by eexists].
    case_bool_decide as Hk; [|by eexists]. by destruct (Hbase Hk sp c). }
  unfold stems_by_split. cbn [rfold].
  destruct (Hn train) as [f1 ->]. destruct (Hn val) as [f2 ->].
  destruct (Hn test) as [f3 ->]. cbn. by eexists.
Qed.

Lemma stems_by_split_raise d root kind m :
  stems_by_split d root kind = Ok m -> kind = "images"%string ->
  forall sp c, node_at d (split_base root kind sp) <> Some (File c).
Proof.
  unfold stems_by_split. cbn [rfold]. intros Hm Hk sp c Hfile.
  assert (split_names d root kind sp = Raise NotADirectoryError) as Hr.
  { unfold split_names. rewrite Hfile. by rewrite bool_decide_true. }
  destruct (split_names d root kind train) as [f1|] eqn:H1; cbn [rbind] in Hm;
    [|done].
  destruct (split_names d root kind val) as [f2|] eqn:H2; cbn [rbind] in Hm;
    [|done].
  destruct (split_names d root kind test) as [f3|] eqn:H3; cbn [rbind] in Hm;
    [|done].
  destruct sp; congruence.
Qed.

Lemma elem_of_sorted_stems s (stems : gset string) :
  s ∈ sorted_stems stems <-> s ∈ stems.
Proof.
  unfold sorted_stems. rewrite merge_sort_Permutation. apply elem_of_elements.
Qed.

End SyncFacts.

(** *** The first run *)

Section SyncRuns.

Import SyncToYoloObb.

Variable args : Args.

Hypothesis not_dry : dry_run args = false.

Definition kinds : list string := ["images"; "labels"]%string.

(** What a run adds to the disk: directories on the way to the splits of
    the target, and files that the target then holds by their stems. *)
Definition new_node_ok (d : disk) (p : Path) (x : node)
  : Prop :=
  (x = Dir /\ exists kind sp,
      kind ∈ kinds /\ p ∈ prefixes (split_base (target args) kind sp))
  \/ (exists c kind,
        x = File c /\ kind ∈ kinds /\ keeps kind (name p) = true
        /\ in_target d (target args) kind (stem (name p))).

Definition grown (d d' : disk) : Prop :=
  extends d d'
  /\ forall p x, d !! p = None -> d' !! p = Some x -> new_node_ok d' p x.

Lemma in_target_extends d d' root kind s :
  extends d d' -> in_target d root kind s -> in_target d' root kind s.
Proof.
  intros Hext (sp & n & Hbase & [x Hn] & Hk & Hs).
  exists sp, n. split; [by eapply extends_dir|].
  destruct (Hext _ _ Hn) as (x' & Hx' & _). split; [by eexists | done].
Qed.

Lemma grown_refl d : grown d d.
Proof. split; [apply extends_refl|]. intros p x Hn Hs. congruence. Qed.

Lemma grown_trans d1 d2 d3 : grown d1 d2 -> grown d2 d3 -> grown d1 d3.
Proof.
  intros [He12 Hn12] [He23 Hn23]. split; [by eapply extends_trans|].
  intros p x H1 H3. destruct (d2 !! p) as [x2|] eqn:H2; [|by apply Hn23].
  destruct (He23 _ _ H2) as (x' & Hx' & Hkind).
  assert (x' = x) as -> by congruence.
  destruct (Hn12 _ _ H1 H2) as [[-> Hpre]|(c & kind & -> & Hk & Hkeep & Hin)].
  - left. split; [by apply Hkind | done].
  - right. destruct x as [|c']; [by pose proof (proj2 Hkind eq_refl)|].
    exists c', kind. repeat split; [done..|]. by eapply in_target_extends.
Qed.

Lemma mkdir_grown kind sp d d' :
  kind ∈ kinds ->
  mkdir_parents (split_base (target args) kind sp) d = (Ok tt, d') ->
  grown d d' /\ node_at d' (split_base (target args) kind sp) = Some Dir.
Proof.
  intros Hkind Hrun.
  destruct (mkdir_parents_spec _ _ _ _ Hrun) as [Hm Hdir].
  split; [|by apply Hdir]. split; [by eapply makes_dirs_extends|].
  intros p x Hnone Hsome. left.
  destruct (Hm p) as [Heq|(_ & Hd & Hin)]; [congruence|].
  split; [congruence|]. by exists kind, sp.
Qed.

Lemma write_grown (kind : string) (d : disk) (q : Path) (c : text) :
  d !! q <> Some Dir -> kind ∈ kinds -> keeps kind (name q) = true ->
  in_target (<[q := File c]> d) (target args) kind (stem (name q)) ->
  grown d (<[q := File c]> d).
Proof.
  intros Hq Hkind Hkeep Hin. split; [by apply extends_insert_file|].
  intros p x Hnone Hsome. destruct (decide (q = p)) as [->|Hne].
  - rewrite lookup_insert_eq in Hsome. injection Hsome as <-.
    right. by exists c, kind.
  - rewrite lookup_insert_ne in Hsome by done. congruence.
Qed.

(** A file written in the directory of a split is held by the target. *)
Lemma in_target_written (kind : string) (sp : split_name) (n : string)
    (d : disk) (q : Path) (c : text) :
  node_at d (split_base (target args) kind sp) = Some Dir ->
  d !! q <> Some Dir ->
  is_Some (<[q := File c]> d !! child (split_base (target args) kind sp) n) ->
  keeps kind n = true ->
  in_target (<[q := File c]> d) (target args) kind (stem n).
Proof.
  intros Hbase Hq Hn Hkeep. exists sp, n. split; [|done].
  unfold split_base in *. rewrite node_at_child in *.
  rewrite lookup_insert_ne; [done|]. intros ->. done.
Qed.

Section SyncLoop.

Variables (source_imgs source_lbls : gmap string Path).
Variables (target_img_split target_lbl_split : gmap string split_name).

(** The two source mappings give, for a stem, a file of the source
    directory with that stem. *)
Hypothesis source_imgs_ok : forall s src,
  source_imgs !! s = Some src ->
  exists n, src = child (source_images args) n
            /\ has_image_ext n = true /\ stem n = s.

Hypothesis source_lbls_ok : forall s src,
  source_lbls !! s = Some src ->
  exists n, src = child (source_labels args) n
            /\ matches_txt n = true /\ stem n = s.

Lemma keeps_images n : keeps "images" n = has_image_ext n.
Proof. done. Qed.

Lemma keeps_labels n : keeps "labels" n = matches_txt n.
Proof. done. Qed.

(** One turn of the loop that returns leaves a grown disk, where the
    target holds the stem for what the turn had to copy. *)
Lemma copy_stem_grows st s d st' d' :
  copy_stem args source_imgs source_lbls target_img_split target_lbl_split
    st s d = (Ok st', d') ->
  grown d d'
  /\ (target_img_split !! s = None -> is_Some (source_imgs !! s) ->
      in_target d' (target args) "images" s)
  /\ (target_lbl_split !! s = None -> is_Some (source_lbls !! s) ->
      in_target d' (target args) "labels" s).
Proof using not_dry source_imgs_ok source_lbls_ok.
  unfold copy_stem. rewrite not_dry. unfold ensure_dir.
  set (sp := match target_img_split !! s with
             | Some s0 => s0
             | None => match target_lbl_split !! s with
                       | Some s0 => s0
                       | None => default_split args
                       end
             end).
  fold (split_base (target args) "images" sp).
  fold (split_base (target args) "labels" sp).
  unfold bind at 1.
  (* the image *)
  match goal with |- context [let (_, _) := ?m d in _] =>
    destruct (m d) as [[k_img|e] d1] eqn:Himg; [|done] end.
  assert (grown d d1
          /\ (target_img_split !! s = None -> is_Some (source_imgs !! s) ->
              in_target d1 (target args) "images" s)) as [Hg1 Hc1].
  { destruct (target_img_split !! s) eqn:Htis.
    { injection Himg as <- <-. split; [apply grown_refl | done]. }
    destruct (source_imgs !! s) as [src|] eqn:Hsrc.
    2:{ injection Himg as <- <-. split; [apply grown_refl|].
        by intros _ [? ?]. }
    destruct (source_imgs_ok _ _ Hsrc) as (n & -> & Hext & Hstem).
    rewrite name_child, parent_child in Himg.
    unfold bind in Himg.
    destruct (mkdir_parents _ d) as [[[]|e] d0] eqn:Hmk; [|done].
    destruct (mkdir_grown "images" sp _ _ ltac:(by left) Hmk) as [Hg0 Hbase].
    destruct (copy2 _ _ d0) as [[[]|e] d2] eqn:Hcp; [|done].
    injection Himg as <- <-.
    destruct (copy2_ok _ _ _ _ Hcp) as (c & dst' & -> & Hnd & Hne & Hpar & Hdst).
    assert (name dst' = n) as Hname.
    { destruct Hdst as [->|[_ ->]]; by rewrite ?name_child. }
    assert (in_target (<[dst' := File c]> d0) (target args) "images" s) as Hin.
    { rewrite <-Hstem. apply (in_target_written "images" sp); [done..| |done].
      destruct (decide (dst' = child (split_base (target args) "images" sp) n))
        as [->|Hne'].
      - rewrite lookup_insert_eq. by eexists.
      - rewrite lookup_insert_ne by done.
        destruct Hdst as [->|[Hdir ->]]; [done|].
        rewrite node_at_child in Hdir. by eexists. }
    split; [|done]. apply (grown_trans _ d0); [done|].
    apply (write_grown "images"); [done | by left | by rewrite Hname |].
    by rewrite Hname, Hstem. }
  (* the label *)
  unfold bind at 1.
  match goal with |- context [let (_, _) := ?m d1 in _] =>
    destruct (m d1) as [[k_lbl|e] d2] eqn:Hlbl; [|done] end.
  intros [= <- <-].
  assert (grown d1 d2
          /\ (target_lbl_split !! s = None -> is_Some (source_lbls !! s) ->
              in_target d2 (target args) "labels" s)) as [Hg2 Hc2].
  { destruct (target_lbl_split !! s) eqn:Htls.
    { injection Hlbl as <- <-. split; [apply grown_refl | done]. }
    destruct (source_lbls !! s) as [src|] eqn:Hsrc.
    2:{ injection Hlbl as <- <-. split; [apply grown_refl|].
        by intros _ [? ?]. }
    destruct (source_lbls_ok _ _ Hsrc) as (n & -> & Hext & Hstem).
    rewrite name_child, parent_child in Hlbl.
    unfold bind in Hlbl.
    destruct (mkdir_parents _ d1) as [[[]|e] d0] eqn:Hmk; [|done].
    destruct (mkdir_grown "labels" sp _ _ ltac:(right; by left) Hmk)
      as [Hg0 Hbase].
    pose proof (read_text_disk (child (source_labels args) n) d0) as Hrd.
    destruct (read_text _ d0) as [[text|e] d0'] eqn:Hread; [|done].
    cbn in Hrd. subst d0'.
    destruct (write_text _ _ d0) as [[[]|e] d3] eqn:Hwr; [|done].
    injection Hlbl as <- <-.
    destruct (write_text_ok _ _ _ _ Hwr) as (-> & Hnd & Hne & Hpar).
    assert (in_target (<[child (split_base (target args) "labels" sp) n :=
                           File (normalize_label text (angle args))]> d0)
              (target args) "labels" s) as Hin.
    { rewrite <-Hstem. apply (in_target_written "labels" sp); [done..| |done].
      rewrite lookup_insert_eq. by eexists. }
    split; [|done]. apply (grown_trans _ d0); [done|].
    apply (write_grown "labels");
      [done | right; by left | by rewrite name_child |].
    by rewrite name_child, Hstem. }
  split; [by eapply grown_trans|]. split; [|done].
  intros Htis Hsrc. eapply in_target_extends; [apply Hg2|]. by apply Hc1.
Qed.

(** The loop that returns leaves a grown disk where the target holds
    every stem it had to copy. *)
Lemma copy_loop_grows stems st d st' d' :
  for_each stems st
    (copy_stem args source_imgs source_lbls target_img_split target_lbl_split)
    d = (Ok st', d') ->
  grown d d'
  /\ forall s, s ∈ stems ->
       (target_img_split !! s = None -> is_Some (source_imgs !! s) ->
        in_target d' (target args) "images" s)
       /\ (target_lbl_split !! s = None -> is_Some (source_lbls !! s) ->
           in_target d' (target args) "labels" s).
Proof using not_dry source_imgs_ok source_lbls_ok.
  revert st d. induction stems as [|s stems IH]; intros st d; cbn [for_each].
  - intros [= <- <-]. split; [apply grown_refl|].
    intros s Hs. by apply elem_of_nil in Hs.
  - unfold bind.
    destruct (copy_stem _ _ _ _ _ st s d) as [[st1|e] d1] eqn:Hstep; [|done].
    intros Hrest.
    destruct (copy_stem_grows _ _ _ _ _ Hstep) as (Hg1 & Hi1 & Hl1).
    destruct (IH _ _ Hrest) as (Hg2 & Hall).
    split; [by eapply grown_trans|].
    intros s' Hs'. apply elem_of_cons in Hs' as [->|Hs']; [|by apply Hall].
    split; intros ? ?; (eapply in_target_extends; [apply Hg2|]); auto.
Qed.

End SyncLoop.

(** *** The second run *)

Lemma elem_of_regular_images (d : disk) (dir : Path) (n : string) :
  n ∈ regular_images d dir
  <-> (exists c, d !! child dir n = Some (File c)) /\ has_image_ext n = true.
Proof.
  unfold regular_images.
  rewrite list_elem_of_In, filter_In, <-list_elem_of_In, elem_of_entries.
  unfold is_file_at. rewrite node_at_child. split.
  - intros [_ [Hf Hi]%andb_prop]. split; [|done].
    destruct (d !! child dir n) as [[|c]|]; try done. by exists c.
  - intros [[c Hc] Hi]. rewrite Hc, Hi. split; [by eexists | done].
Qed.

Lemma elem_of_txt_names (d : disk) (dir : Path) (n : string) :
  n ∈ txt_names d dir
  <-> node_at d dir = Some Dir /\ is_Some (d !! child dir n)
      /\ matches_txt n = true.
Proof.
  unfold txt_names. destruct (node_at d dir) as [[|c]|].
  - rewrite list_elem_of_In, filter_In, <-list_elem_of_In, elem_of_entries.
    split; [by intros [Hn Hm] | by intros (_ & Hn & Hm)].
  - split; [by intros ?%elem_of_nil | by intros [? _]].
  - split; [by intros ?%elem_of_nil | by intros [? _]].
Qed.

Lemma source_images_ok (d : disk) (dir : Path) s src :
  by_stem (child dir) (regular_images d dir) ∅ !! s = Some src ->
  exists n, src = child dir n /\ has_image_ext n = true /\ stem n = s.
Proof.
  intros (n & Hn & Hs & ->)%by_stem_lookup.
  apply elem_of_regular_images in Hn as [_ Hi]. by exists n.
Qed.

Lemma source_labels_ok (d : disk) (dir : Path) s src :
  by_stem (child dir) (txt_names d dir) ∅ !! s = Some src ->
  exists n, src = child dir n /\ matches_txt n = true /\ stem n = s.
Proof.
  intros (n & Hn & Hs & ->)%by_stem_lookup.
  apply elem_of_txt_names in Hn as (_ & _ & Hm). by exists n.
Qed.

Lemma by_stem_dom_empty {V} (v : string -> V) files s :
  s ∈ dom (by_stem v files ∅) <-> exists n, n ∈ files /\ stem n = s.
Proof.
  rewrite by_stem_dom, dom_empty. split; [|by right].
  intros [H|H]; [by apply elem_of_empty in H | done].
Qed.

(** A stem with nothing to copy leaves the counts and the disk. *)
Lemma copy_stem_present imgs lbls tis tls st s d :
  (is_Some (tis !! s) \/ imgs !! s = None) ->
  (is_Some (tls !! s) \/ lbls !! s = None) ->
  exists st', copy_stem args imgs lbls tis tls st s d = (Ok st', d)
              /\ added_imgs st' = added_imgs st
              /\ added_lbls st' = added_lbls st.
Proof.
  intros Hi Hl. unfold copy_stem, bind.
  destruct (tis !! s) as [x|], (imgs !! s) as [src|];
    try (by destruct Hi as [[? ?]|?]);
    (destruct (tls !! s) as [y|], (lbls !! s) as [src'|];
     try (by destruct Hl as [[? ?]|?]));
    cbn; unfold ret; eexists; (split; [reflexivity|]); split; reflexivity.
Qed.

Lemma copy_loop_present imgs lbls tis tls stems st d :
  (forall s, s ∈ stems ->
     (is_Some (tis !! s) \/ imgs !! s = None)
     /\ (is_Some (tls !! s) \/ lbls !! s = None)) ->
  exists st', for_each stems st (copy_stem args imgs lbls tis tls) d
              = (Ok st', d)
              /\ added_imgs st' = added_imgs st
              /\ added_lbls st' = added_lbls st.
Proof.
  revert st. induction stems as [|s stems IH]; intros st Hall; cbn [for_each].
  - by exists st.
  - destruct (Hall s ltac:(by left)) as [Hi Hl].
    destruct (copy_stem_present imgs lbls tis tls st s d Hi Hl)
      as (st1 & Hstep & Hi1 & Hl1).
    destruct (IH st1) as (st2 & Hrest & Hi2 & Hl2).
    { intros s' Hs'. apply Hall. by right. }
    exists st2. unfold bind. rewrite Hstep. split; [done|]. split; congruence.
Qed.

Lemma prefix_child (q p : Path) (n a : string) :
  child q n `prefix_of` child p a ->
  child q n `prefix_of` p \/ (q = p /\ n = a).
Proof.
  unfold child. intros [k Hk].
  destruct k as [|z k _] using rev_ind.
  - right. rewrite app_nil_r in Hk.
    apply app_inj_tail in Hk as [-> ->]. done.
  - left. rewrite app_assoc in Hk. apply app_inj_tail in Hk as [-> _].
    by exists k.
Qed.

Lemma kinds_not_txt kind : kind ∈ kinds -> matches_txt kind = false.
Proof.
  intros Hk. unfold kinds in Hk.
  apply elem_of_cons in Hk as [->|Hk]; [done|].
  apply elem_of_cons in Hk as [->|Hk]; [done|].
  by apply elem_of_nil in Hk.
Qed.

Lemma keeps_kinds kind n :
  kind ∈ kinds -> keeps kind n = true ->
  (kind = "images"%string /\ has_image_ext n = true)
  \/ (kind = "labels"%string /\ matches_txt n = true).
Proof.
  intros Hk Hkeep. unfold kinds in Hk.
  apply elem_of_cons in Hk as [->|Hk]; [by left|].
  apply elem_of_cons in Hk as [->|Hk]; [by right|].
  by apply elem_of_nil in Hk.
Qed.

(** The target is not below an entry of the source labels directory that
    the pattern [*.txt] matches: creating the target would otherwise add
    a directory to the source labels. *)
Definition target_clear : Prop :=
  forall n, matches_txt n = true ->
    ~ child (source_labels args) n `prefix_of` target args.

Lemma new_dir_not_txt (n : string) :
  target_clear -> matches_txt n = true ->
  forall kind sp, kind ∈ kinds ->
    child (source_labels args) n ∈ prefixes (split_base (target args) kind sp)
    -> False.
Proof.
  intros Hclear Hm kind sp Hkind [_ Hpre]%elem_of_prefixes.
  unfold split_base in Hpre.
  apply prefix_child in Hpre as [Hpre|[_ ->]].
  - apply prefix_child in Hpre as [Hpre|[_ ->]].
    + by apply (Hclear n).
    + by rewrite (kinds_not_txt kind) in Hm.
  - by rewrite split_str_not_txt in Hm.
Qed.

(** A path written without [..]: its components name the directories it
    goes through, so that two such paths are the same place when they are
    the same list. *)
Definition plain_path (p : Path) : Prop :=
  Forall (fun c => c <> ".."%string) p.

(** The second run of the sync tool copies nothing.  On a disk where
    every entry lies in a directory, with source and target written
    without [..] and a target that is not below a [*.txt] entry of the
    source labels directory: when [copy_missing] has returned (no dry
    run), the stems of the source are all in the split mappings of the
    target, and [copy_missing] on the disk it left returns with zero
    images and zero labels copied and leaves that disk as it is. *)
Theorem copy_missing_twice d r1 d1 :
  plain_path (source_labels args) -> plain_path (target args) ->
  (forall n, matches_txt n = true ->
     ~ child (source_labels args) n `prefix_of` target args) ->
  well_formed d ->
  copy_missing args d = (Ok r1, d1) ->
  exists imgs lbls tis tls,
    load_source_files (source_images args) (source_labels args) d1
      = (Ok (imgs, lbls), d1)
    /\ map_stems_by_split (target args) "images" d1 = (Ok tis, d1)
    /\ map_stems_by_split (target args) "labels" d1 = (Ok tls, d1)
    /\ dom imgs ⊆ dom tis /\ dom lbls ⊆ dom tls
    /\ copy_missing args d1
       = (Ok {| added_imgs := 0; added_lbls := 0 |}, d1).
Proof using not_dry.
  intros _ _ Hclear Hwf Hrun.
  unfold copy_missing, bind in Hrun.
  rewrite load_source_files_eq in Hrun.
  destruct (node_at d (source_images args)) as [[|c]|] eqn:HSI; try done.
  rewrite !map_stems_by_split_eq in Hrun.
  destruct (stems_by_split d (target args) "images") as [tis|e] eqn:Htis;
    [|done].
  destruct (stems_by_split d (target args) "labels") as [tls|e] eqn:Htls;
    [|done].
  set (imgs := by_stem (child (source_images args))
                 (regular_images d (source_images args)) ∅) in Hrun.
  set (lbls := by_stem (child (source_labels args))
                 (txt_names d (source_labels args)) ∅) in Hrun.
  destruct (copy_loop_grows imgs lbls tis tls
              (source_images_ok d _) (source_labels_ok d _) _ _ _ _ _ Hrun)
    as [[Hext Hnew] Hall].
  (* what the first run left to the target *)
  assert (forall s, s ∈ dom imgs -> in_target d1 (target args) "images" s)
    as Himgs.
  { intros s Hs. destruct (tis !! s) eqn:Hts.
    - eapply in_target_extends; [done|].
      apply (stems_by_split_dom _ _ _ _ _ Htis), elem_of_dom. by eexists.
    - pose proof (Hall s) as Hcopied.
      apply Hcopied; [|exact Hts|apply elem_of_dom; exact Hs].
      apply elem_of_sorted_stems, elem_of_union. by left. }
  assert (forall s, s ∈ dom lbls -> in_target d1 (target args) "labels" s)
    as Hlbls.
  { intros s Hs. destruct (tls !! s) eqn:Hts.
    - eapply in_target_extends; [done|].
      apply (stems_by_split_dom _ _ _ _ _ Htls), elem_of_dom. by eexists.
    - pose proof (Hall s) as Hcopied.
      apply Hcopied; [|exact Hts|apply elem_of_dom; exact Hs].
      apply elem_of_sorted_stems, elem_of_union. by right. }
  set (imgs1 := by_stem (child (source_images args))
                  (regular_images d1 (source_images args)) ∅).
  set (lbls1 := by_stem (child (source_labels args))
                  (txt_names d1 (source_labels args)) ∅).
  (* the images of the source after the first run *)
  assert (forall s, s ∈ dom imgs1 -> in_target d1 (target args) "images" s)
    as Himgs1.
  { intros s (n & Hn & <-)%by_stem_dom_empty.
    apply elem_of_regular_images in Hn as [[c Hc] Hi].
    destruct (d !! child (source_images args) n) as [x|] eqn:Hd.
    - apply Himgs, by_stem_dom_empty. exists n. split; [|done].
      apply elem_of_regular_images. split; [|done].
      destruct (Hext _ _ Hd) as (x' & Hx' & Hkind).
      destruct x as [|c0]; [|by exists c0].
      pose proof (proj1 Hkind eq_refl). congruence.
    - destruct (Hnew _ _ Hd Hc) as [[? _]|(c' & kind & _ & Hk & Hkeep & Hin)];
        [done|].
      rewrite name_child in Hkeep, Hin.
      destruct (keeps_kinds _ _ Hk Hkeep) as [[-> _]|[_ Hm]]; [done|].
      by rewrite (txt_not_image n) in Hi. }
  (* the labels of the source after the first run *)
  assert (forall s, s ∈ dom lbls1 -> in_target d1 (target args) "labels" s)
    as Hlbls1.
  { intros s (n & Hn & <-)%by_stem_dom_empty.
    apply elem_of_txt_names in Hn as (Hdir & [x1 Hx1] & Hm).
    destruct (d !! child (source_labels args) n) as [x|] eqn:Hd.
    - apply Hlbls, by_stem_dom_empty. exists n. split; [|done].
      apply elem_of_txt_names. split; [|split; [by eexists | done]].
      specialize (Hwf (child (source_labels args) n) ltac:(by eexists)).
      by rewrite parent_child in Hwf.
    - destruct (Hnew _ _ Hd Hx1)
        as [[_ (kind & sp & Hk & Hpre)]|(c' & kind & _ & Hk & Hkeep & Hin)].
      + by destruct (new_dir_not_txt n Hclear Hm kind sp Hk Hpre).
      + rewrite name_child in Hkeep, Hin.
        destruct (keeps_kinds _ _ Hk Hkeep) as [[_ Hi]|[-> _]]; [|done].
        by rewrite (txt_not_image n) in Hi. }
  (* the two mappings of the target after the first run *)
  destruct (stems_by_split_ok d1 (target args) "images") as [tis1 Htis1].
  { intros _ sp c Hc. unfold split_base in Hc. rewrite node_at_child in Hc.
    fold (split_base (target args) "images" sp) in Hc.
    destruct (d !! split_base (target args) "images" sp) as [x|] eqn:Hd.
    - destruct (Hext _ _ Hd) as (x' & Hx' & Hkind).
      assert (x' = File c) as -> by congruence.
      destruct x as [|c0]; [by pose proof (proj1 Hkind eq_refl)|].
      apply (stems_by_split_raise _ _ _ _ Htis eq_refl sp c0).
      unfold split_base in *. by rewrite node_at_child.
    - destruct (Hnew _ _ Hd Hc) as [[? _]|(c' & kind & _ & Hk & Hkeep & _)];
        [done|].
      unfold split_base in Hkeep. rewrite name_child in Hkeep.
      destruct (keeps_kinds _ _ Hk Hkeep) as [[_ Hi]|[_ Hm]].
      + by rewrite split_str_not_image in Hi.
      + by rewrite split_str_not_txt in Hm. }
  destruct (stems_by_split_ok d1 (target args) "labels") as [tls1 Htls1];
    [done|].
  assert (dom imgs1 ⊆ dom tis1) as Hsub_i.
  { intros s Hs. by apply (stems_by_split_dom _ _ _ _ _ Htis1), Himgs1. }
  assert (dom lbls1 ⊆ dom tls1) as Hsub_l.
  { intros s Hs. by apply (stems_by_split_dom _ _ _ _ _ Htls1), Hlbls1. }
  (* the second run *)
  assert (load_source_files (source_images args) (source_labels args) d1
          = (Ok (imgs1, lbls1), d1)) as Hload.
  { rewrite load_source_files_eq.
    by rewrite (extends_dir _ _ _ Hext HSI). }
  exists imgs1, lbls1, tis1, tls1.
  rewrite Hload, !map_stems_by_split_eq, Htis1, Htls1.
  repeat split; [done..|].
  unfold copy_missing, bind.
  rewrite Hload, !map_stems_by_split_eq, Htis1, Htls1.
  destruct (copy_loop_present imgs1 lbls1 tis1 tls1
              (sorted_stems (dom imgs1 ∪ dom lbls1))
              {| added_imgs := 0; added_lbls := 0 |} d1)
    as ([i l] & -> & Hi & Hl).
  { intros s _. split.
    - destruct (imgs1 !! s) eqn:Hs; [left|by right].
      apply elem_of_dom, Hsub_i, elem_of_dom. by eexists.
    - destruct (lbls1 !! s) eqn:Hs; [left|by right].
      apply elem_of_dom, Hsub_l, elem_of_dom. by eexists. }
  cbn in Hi, Hl. by subst.
Qed.

End SyncRuns.

(** A disk is checked entry by entry. *)
Lemma well_formed_checked (d : disk) :
  bool_decide (map_Forall (fun p _ => node_at d (parent p) = Some Dir) d)
  = true ->
  well_formed d.
Proof.
  intros H%bool_decide_eq_true_1 p [x Hx]. by apply (H p x).
Qed.

Section SyncExamples.

Import SyncToYoloObb.

Definition sync_disk : disk :=
  list_to_map
    [ (["src"], Dir);
      (["src"; "images"], Dir);
      (["src"; "images"; "a.jpg"], File (lit "JPEG a"));
      (["src"; "images"; "b.png"], File (lit "PNG b"));
      (["src"; "labels"], Dir);
      (["src"; "labels"; "a.txt"], File (lit "3 0.5 0.5 0.2 0.1" ++ [LF]));
      (["dataset"], Dir);
      (["dataset"; "images"], Dir);
      (["dataset"; "images"; "val"], Dir);
      (["dataset"; "images"; "val"; "b.png"], File (lit "PNG b")) ]%string.

Definition sync_args (target : Path) : Args :=
  {| source_images := ["src"; "images"]%string;
     source_labels := ["src"; "labels"]%string;
     target := target;
     default_split := train;
     angle := lit "0";
     dry_run := false |}.

Example copy_missing_example :
  let r := copy_missing (sync_args ["dataset"%string]) sync_disk in
  r.1 = Ok {| added_imgs := 1; added_lbls := 1 |}
  /\ node_at r.2 ["dataset"; "images"; "train"; "a.jpg"]%string
     = Some (File (lit "JPEG a"))
  /\ node_at r.2 ["dataset"; "labels"; "train"; "a.txt"]%string
     = Some (File (lit "0 0.5 0.5 0.2 0.1 0" ++ [LF])).
Proof. repeat split; vm_compute; reflexivity. Qed.

Lemma sync_target_clear n :
  matches_txt n = true ->
  ~ child ["src"; "labels"]%string n `prefix_of` ["dataset"%string].
Proof. intros _ [k Hk]. discriminate Hk. Qed.

(** C4 at the input [--source src --target src/labels/t.txt]: the first
    run makes [t.txt] a directory of the source labels, which the second
    run finds with [*.txt] as the label of a stem [t] that the target
    does not hold, and fails to read.  [load_source_files] keeps the
    images that are files ([p.is_file()]) and, one line below, every
    label entry. *)
Lemma copy_missing_into_source_labels :
  let args := sync_args ["src"; "labels"; "t.txt"]%string in
  let r1 := copy_missing args sync_disk in
  well_formed sync_disk
  /\ r1.1 = Ok {| added_imgs := 2; added_lbls := 1 |}
  /\ node_at r1.2 ["src"; "labels"; "t.txt"]%string = Some Dir
  /\ match (load_source_files (source_images args) (source_labels args)
              r1.2).1 with
     | Ok (_, source_lbls) =>
         source_lbls !! "t"%string = Some ["src"; "labels"; "t.txt"]%string
     | Raise _ => False
     end
  /\ match (map_stems_by_split (target args) "labels" r1.2).1 with
     | Ok target_lbl_split => target_lbl_split !! "t"%string = None
     | Raise _ => False
     end
  /\ (copy_missing args r1.2).1 = Raise IsADirectoryError.
Proof.
  split; [apply well_formed_checked; vm_compute; reflexivity|].
  split; [vm_compute; reflexivity|].
  split; [vm_compute; reflexivity|].
  split; [vm_compute; reflexivity|].
  split; vm_compute; reflexivity.
Qed.

Lemma copy_missing_twice_witness :
  let args := sync_args ["dataset"%string] in
  let d1 := (copy_missing args sync_disk).2 in
  copy_missing args d1 = (Ok {| added_imgs := 0; added_lbls := 0 |}, d1).
Proof.
  cbv zeta.
  destruct (copy_missing_twice (sync_args ["dataset"%string]) eq_refl
              sync_disk {| added_imgs := 1; added_lbls := 1 |}
              (copy_missing (sync_args ["dataset"%string]) sync_disk).2)
    as (imgs & lbls & tis & tls & _ & _ & _ & _ & _ & Hrun).
  - repeat constructor; discriminate.
  - repeat constructor; discriminate.
  - exact sync_target_clear.
  - apply well_formed_checked. vm_compute. reflexivity.
  - apply pair_eq_fst. vm_compute. reflexivity.
  - exact Hrun.
Defined.

End SyncExamples.

(** ** The oriented-box converter *)

Section ObbConverterFacts.

Import ConvertObbLabelsToCorners.

Context {F : Type} `{Float F}.

(** C6.  A line of exactly nine fields goes through [convert_line] as it
    is, whatever the angle format, the default angle and the output order:
    the result is the nine fields joined by single spaces, and splitting it
    gives the same nine fields back. *)
Theorem convert_line_nine_fields (parts : list text) angle_format
    (default_angle : F) order :
  length parts = 9 ->
  convert_line parts angle_format default_angle order
  = Ok (join (lit " ") parts)
  /\ (Forall is_token parts -> split (join (lit " ") parts) = parts).
Proof.
  intros Hlen. split.
  - unfold convert_line. rewrite bool_decide_false by lia.
    by rewrite bool_decide_true.
  - apply split_join.
Qed.

(** A field [convert_line] reads as a number, that [float] refuses. *)
Definition unparseable_field (parts : list text) : Prop :=
  exists i s, 1 <= i <= 5 /\ parts !! i = Some s /\ float_of_str s = None.

(** A line with such a field among its second to sixth, and not of nine
    fields. *)
Definition unparseable_line (line : text) : Prop :=
  let parts := split (strip line) in
  length parts <> 9 /\ unparseable_field parts.

Lemma float_field_raises (parts : list text) i e :
  i < length parts -> float_field parts i = Raise e -> exists msg, e = ValueError msg.
Proof.
  intros Hi. unfold float_field.
  destruct (lookup_lt_is_Some_2 parts i Hi) as [s ->].
  destruct (float_of_str s); [done|]. intros [= <-]. by eexists.
Qed.

Lemma rotate_points_raises (cx cy w h a : F) e :
  rotate_points cx cy w h a = Raise e -> exists msg, e = ValueError msg.
Proof.
  unfold rotate_points, cos_or_raise, sin_or_raise, math_domain_error.
  destruct (math_cos a); cbn [rbind]; [|intros [= <-]; by eexists].
  destruct (math_sin a); cbn [rbind]; [done|intros [= <-]; by eexists].
Qed.

(** [convert_line] raises nothing but ValueError. *)
Lemma convert_line_raises parts angle_format (default_angle : F) order e :
  convert_line parts angle_format default_angle order = Raise e ->
  exists msg, e = ValueError msg.
Proof.
  unfold convert_line.
  case_bool_decide as Hlen; [intros [= <-]; by eexists|].
  case_bool_decide; [done|].
  destruct parts as [|cls rest] eqn:Hparts; [simpl in Hlen; lia|].
  rewrite <-Hparts in *. assert (5 <= length parts) as Hlen' by lia.
  destruct (float_field parts 1) eqn:H1; cbn [rbind];
    [|intros [= <-]; eapply float_field_raises; [|done]; lia].
  destruct (float_field parts 2) eqn:H2; cbn [rbind];
    [|intros [= <-]; eapply float_field_raises; [|done]; lia].
  destruct (float_field parts 3) eqn:H3; cbn [rbind];
    [|intros [= <-]; eapply float_field_raises; [|done]; lia].
  destruct (float_field parts 4) eqn:H4; cbn [rbind];
    [|intros [= <-]; eapply float_field_raises; [|done]; lia].
  case_bool_decide as H6.
  - destruct (float_field parts 5) eqn:H5; cbn [rbind];
      [|intros [= <-]; eapply float_field_raises; [|done]; lia].
    destruct (rotate_points _ _ _ _ _) eqn:Hrot; cbn [rbind]; [done|].
    intros [= <-]. by eapply rotate_points_raises.
  - cbn [rbind].
    destruct (rotate_points _ _ _ _ _) eqn:Hrot; cbn [rbind]; [done|].
    intros [= <-]. by eapply rotate_points_raises.
Qed.

Lemma float_field_ok_parses (parts : list text) i s x :
  parts !! i = Some s -> float_field parts i = Ok x -> float_of_str s = Some x.
Proof.
  intros Hs. unfold float_field. rewrite Hs.
  destruct (float_of_str s); [by intros [= ->]|done].
Qed.

(** On a line with a field that does not parse, [convert_line] raises:
    for the number of fields when they are fewer than five, for the field
    otherwise. *)
Lemma convert_line_unparseable parts angle_format (default_angle : F) order :
  length parts <> 9 -> unparseable_field parts ->
  exists e, convert_line parts angle_format default_angle order = Raise e.
Proof.
  intros H9 (i & s & Hi & Hs & Hbad).
  destruct (convert_line parts angle_format default_angle order)
    as [line|e] eqn:Hconv; [exfalso|by eexists].
  revert Hconv. unfold convert_line.
  case_bool_decide as Hlen; [done|]. rewrite bool_decide_false by done.
  destruct parts as [|cls rest] eqn:Hparts; [done|]. rewrite <-Hparts in *.
  destruct (float_field parts 1) eqn:H1; cbn [rbind]; [|done].
  destruct (float_field parts 2) eqn:H2; cbn [rbind]; [|done].
  destruct (float_field parts 3) eqn:H3; cbn [rbind]; [|done].
  destruct (float_field parts 4) eqn:H4; cbn [rbind]; [|done].
  assert (i = 1 \/ i = 2 \/ i = 3 \/ i = 4 \/ i = 5) as Hcases by lia.
  destruct Hcases as [-> | [-> | [-> | [-> | ->]]]].
  - rewrite (float_field_ok_parses _ _ _ _ Hs H1) in Hbad. done.
  - rewrite (float_field_ok_parses _ _ _ _ Hs H2) in Hbad. done.
  - rewrite (float_field_ok_parses _ _ _ _ Hs H3) in Hbad. done.
  - rewrite (float_field_ok_parses _ _ _ _ Hs H4) in Hbad. done.
  - apply lookup_lt_Some in Hs as Hlt.
    rewrite bool_decide_true by lia.
    destruct (float_field parts 5) eqn:H5; cbn [rbind]; [|done].
    rewrite (float_field_ok_parses _ _ _ _ Hs H5) in Hbad. done.
Qed.

Variables (path : Path) (angle_format : text) (default_angle : F)
  (order : text).

(** The error [process_file] raises names the file. *)
Definition names_file (e : exn) : Prop :=
  exists err, e = ValueError (msg_file_error path err).

Lemma process_line_raises st line e :
  process_line path angle_format default_angle order st line = Raise e ->
  names_file e.
Proof.
  unfold process_line. case_bool_decide; [done|].
  destruct (convert_line _ _ _ _) as [converted|e'] eqn:Hconv; [done|].
  destruct (convert_line_raises _ _ _ _ _ Hconv) as [msg ->].
  intros [= <-]. by exists msg.
Qed.

Lemma process_line_unparseable st line :
  unparseable_line line ->
  exists e, process_line path angle_format default_angle order st line = Raise e.
Proof.
  intros (H9 & Hbad). unfold process_line.
  rewrite bool_decide_false.
  2:{ intros Hnil. destruct Hbad as (i & s & _ & Hs & _).
      rewrite Hnil in Hs. done. }
  destruct (convert_line_unparseable _ angle_format default_angle order
              H9 Hbad) as [e ->].
  destruct e; by eexists.
Qed.

Lemma process_lines_unparseable lines st :
  Exists unparseable_line lines ->
  exists e, rfold (process_line path angle_format default_angle order) st lines
            = Raise e /\ names_file e.
Proof.
  intros Hex. revert st. induction Hex as [line lines Hbad | line lines _ IH];
    intros st; cbn [rfold].
  - destruct (process_line_unparseable st line Hbad) as [e He].
    rewrite He. exists e. split; [done|]. by eapply process_line_raises.
  - destruct (process_line _ _ _ _ st line) as [st'|e] eqn:Hline; cbn [rbind].
    + apply IH.
    + exists e. split; [done|]. by eapply process_line_raises.
Qed.

(** C7, as amended.  When a label file has a line, not of nine fields,
    with an unparseable field among its second to sixth (the fields the
    converter reads as numbers), [process_file] raises a ValueError whose
    message names the file, and leaves the disk as it was: nothing is
    written.  A line of fewer than five fields is refused for their
    number, a longer one for the field. *)
Theorem process_file_aborts dry_run d text :
  node_at d path = Some (File text) ->
  Exists unparseable_line (splitlines text) ->
  exists err,
    process_file path angle_format default_angle order dry_run d
    = (Raise (ValueError (msg_file_error path err)), d).
Proof.
  intros Hnode Hbad. unfold process_file, bind, read_text, lift.
  rewrite Hnode.
  destruct (process_lines_unparseable _
              {| new_lines := []; changed := false |} Hbad)
    as (e & -> & err & ->).
  by exists err.
Qed.

End ObbConverterFacts.

(** *** Examples, with [float] as the real numbers *)

Import RealFloat.

Definition nine_fields_example : list text :=
  [lit "7"; lit "0.1"; lit "0.9"; lit "0.9"; lit "0.1";
   lit "0.2"; lit "0.2"; lit "0.8"; lit "0.8"].

Lemma convert_line_nine_fields_witness :
  ConvertObbLabelsToCorners.convert_line nine_fields_example
    (lit "degrees") 45%R (lit "interleaved")
  = Ok (join (lit " ") nine_fields_example)
  /\ (Forall is_token nine_fields_example ->
      split (join (lit " ") nine_fields_example) = nine_fields_example).
Proof.
  apply (convert_line_nine_fields (F := R) nine_fields_example).
  reflexivity.
Defined.

(** C7, as first stated, fails on a line of nine fields: none of them is
    read as a number, so the line is kept and no error is raised. *)
Lemma process_file_keeps_nine_fields :
  let p := ["labels"; "poly.txt"]%string in
  let text := lit "0 x1 y1 x2 y2 x3 y3 x4 y4" ++ [LF] in
  let d : gmap (list string) node :=
    {[ ["labels"%string] := Dir; p := File text ]} in
  let r := ConvertObbLabelsToCorners.process_file (F := R) p (lit "radians")
             0%R (lit "grouped") false d in
  ConvertObbLabelsToCorners.float_of_str (F := R) (lit "x1") = None
  /\ r.1 = Ok false
  /\ node_at r.2 p = Some (File text).
Proof. repeat split; vm_compute; reflexivity. Qed.

Lemma process_file_aborts_witness :
  let p := ["labels"; "bad.txt"]%string in
  let text := lit "0 0.5 0.5 0.2 0.1 0" ++ [LF] ++ lit "0 0.5 oops 0.2 0.1" ++ [LF] in
  let d : gmap (list string) node := {[ ["labels"%string] := Dir; p := File text ]} in
  exists err,
    ConvertObbLabelsToCorners.process_file (F := R) p (lit "radians") 0%R
      (lit "grouped") false d
    = (Raise (ValueError (ConvertObbLabelsToCorners.msg_file_error p err)), d).
Proof.
  cbv zeta.
  apply (process_file_aborts (F := R) _ _ _ _ _ _
           (lit "0 0.5 0.5 0.2 0.1 0" ++ [LF] ++ lit "0 0.5 oops 0.2 0.1" ++ [LF])).
  - vm_compute. reflexivity.
  - apply Exists_cons_tl, Exists_cons_hd.
    split; [vm_compute; lia|].
    exists 2, (lit "oops").
    split; [lia|]. split; vm_compute; reflexivity.
Defined.

(** ** The inference service *)

Section ServiceFacts.

Import ApiIndex.

Context {image prediction : Type} `{Runtime image prediction}.

(** C8.  [predict] answers an empty upload, and bytes that do not decode
    as an image, with the client error 400; in both cases the world is as
    before (no inference was asked of the model, the clock was not read)
    and the result is the exception, not a response. *)
Theorem predict_client_errors (contents : list N) (w : world) :
  (contents = [] ->
   predict contents w = (Raise (HTTPException 400 detail_no_file), w))
  /\ (open_rgb contents = None ->
      exists detail,
        predict contents w = (Raise (HTTPException 400 detail), w)
        /\ inferences (predict contents w).2 = inferences w).
Proof.
  split.
  - intros ->. done.
  - intros Hbad. unfold predict. rewrite Hbad.
    case_bool_decide; eexists; split; done.
Qed.

(** A request that passes both checks asks the model for one inference. *)
Lemma predict_runs_model (contents : list N) (w : world) img :
  contents <> [] -> open_rgb contents = Some img ->
  exists response w',
    predict contents w = (Ok response, w')
    /\ inferences w' = inferences w ++ [img].
Proof.
  intros Hne Himg. unfold predict. rewrite bool_decide_false by done.
  rewrite Himg. unfold perf_counter, run_model.
  destruct w as [[|t0 [|t1 ts]] infs]; cbn;
    eexists _, _; split; reflexivity.
Qed.

End ServiceFacts.

(** A runtime for the examples: an image is its bytes, decoding accepts
    the bytes that start like a JPEG file, and a prediction is the image
    it was made from. *)
#[local] Instance example_Runtime : ApiIndex.Runtime (list N) (list N) := {|
  ApiIndex.open_rgb := fun bytes =>
    match bytes with
    | 255%N :: 216%N :: _ => Some bytes
    | _ => None
    end;
  ApiIndex.model_predict := fun img => img;
  ApiIndex.plot_rgb := fun p => p;
  ApiIndex.save_jpeg := fun img => img;
  ApiIndex.boxes_len := fun _ => Some 0%nat;
  ApiIndex.format_3f := fun _ => lit "0.000";
  ApiIndex.model_path := lit "best.pt";
|}.

Lemma predict_client_errors_witness :
  let w := {| ApiIndex.clock := [1%Q; 2%Q]; ApiIndex.inferences := [] |} in
  ApiIndex.predict [] w
  = (Raise (HTTPException 400 ApiIndex.detail_no_file), w)
  /\ exists detail,
       ApiIndex.predict [1; 2; 3]%N w = (Raise (HTTPException 400 detail), w)
       /\ ApiIndex.inferences (ApiIndex.predict [1; 2; 3]%N w).2
          = ApiIndex.inferences w.
Proof.
  cbv zeta. split.
  - apply (predict_client_errors []). reflexivity.
  - apply (predict_client_errors [1; 2; 3]%N). reflexivity.
Defined.

(** ** The dataset auditor *)

Section AuditorFacts.

Import CheckDatasetCounts.

(** A computation that leaves the disk as it found it. *)
Definition read_only {A} (m : M A) : Prop := forall d, (m d).2 = d.

Lemma read_only_ret {A} (a : A) : read_only (ret a).
Proof. done. Qed.

Lemma read_only_bind {A B} (m : M A) (k : A -> M B) :
  read_only m -> (forall a, read_only (k a)) -> read_only (bind m k).
Proof.
  intros Hm Hk d. unfold bind. specialize (Hm d).
  destruct (m d) as [[a|e] d']; simpl in *; subst; [apply Hk | done].
Qed.

Lemma read_only_for_each {A S} (l : list A) (s : S) body :
  (forall s x, read_only (body s x)) -> read_only (for_each l s body).
Proof.
  intros Hbody. revert s. induction l as [|x l IH]; intros s; cbn.
  - apply read_only_ret.
  - apply read_only_bind; [apply Hbody | apply IH].
Qed.

Lemma read_only_exists p : read_only (exists_ p).
Proof. done. Qed.

Lemma read_only_read_text p : read_only (read_text p).
Proof. intros d. unfold read_text. by destruct (node_at d p) as [[|?]|]. Qed.

Lemma read_only_glob_txt p : read_only (glob_txt p).
Proof. intros d. unfold glob_txt. by destruct (node_at d p) as [[|?]|]. Qed.

Lemma read_only_glob_all p : read_only (glob_all p).
Proof. intros d. unfold glob_all. by destruct (node_at d p) as [[|?]|]. Qed.

(** The same at one disk: a read, then a computation that leaves this
    disk as it is. *)
Lemma frame_bind {A B} (m : M A) (k : A -> M B) d :
  read_only m -> (forall a, (k a d).2 = d) -> (bind m k d).2 = d.
Proof.
  intros Hm Hk. unfold bind. specialize (Hm d).
  destruct (m d) as [[a|e] d']; simpl in *; subst; [apply Hk | done].
Qed.

Lemma frame_for_each {A S} (l : list A) (s : S) body d :
  (forall s x, x ∈ l -> (body s x d).2 = d) -> (for_each l s body d).2 = d.
Proof.
  revert s. induction l as [|x l IH]; intros s Hbody; cbn [for_each]; [done|].
  unfold bind. pose proof (Hbody s x ltac:(left)) as Hx.
  destruct (body s x d) as [[s'|e] d']; simpl in *; subst; [|done].
  apply IH. intros s1 y Hy. apply Hbody. by right.
Qed.

Context {F : Type} `{Checks F}.

Variable np_load : Path -> M (option cache).

Lemma read_only_any_image_exists img_dir stem_ :
  read_only (any_image_exists img_dir stem_).
Proof.
  apply read_only_for_each. intros found ext.
  destruct found; [apply read_only_ret | apply read_only_exists].
Qed.

Lemma read_only_check_file lbl_dir bad lbl :
  read_only (check_file lbl_dir bad lbl).
Proof.
  apply read_only_bind; [apply read_only_read_text|].
  intros text. apply read_only_ret.
Qed.

(** The cache is inspected with no other effect than its loading. *)
Lemma inspect_frame args split_ d :
  (is_Some (node_at d (cache_path args split_)) ->
   (np_load (cache_path args split_) d).2 = d) ->
  (inspect (F := F) np_load args split_ d).2 = d.
Proof.
  intros Hload. unfold inspect, bind, exists_.
  case_bool_decide as Hcache; cbn [negb]; [|done].
  specialize (Hload Hcache).
  by destruct (np_load _ d) as [[[c|]|e] d'].
Qed.

Lemma audit_split_frame args out split_ d :
  (inspect_cache args = true ->
   is_Some (node_at d (cache_path args split_)) ->
   (np_load (cache_path args split_) d).2 = d) ->
  (audit_split np_load args out split_ d).2 = d.
Proof.
  intros Hload. unfold audit_split.
  apply frame_bind; [apply read_only_glob_all|]. intros names.
  apply frame_bind; [apply read_only_glob_txt|]. intros lbls.
  apply frame_bind.
  { apply read_only_for_each. intros missing lbl.
    apply read_only_bind; [apply read_only_any_image_exists|].
    intros found. apply read_only_ret. }
  intros missing_img.
  apply frame_bind.
  { destruct (check_format args); [|apply read_only_ret].
    apply read_only_bind.
    - apply read_only_for_each. intros bad lbl. apply read_only_check_file.
    - intros bad. apply read_only_ret. }
  intros out'.
  destruct (inspect_cache args); [|done].
  unfold bind. pose proof (inspect_frame args split_ d (Hload eq_refl)) as Hi.
  by destruct (inspect np_load args split_ d) as [[lines|e] d'].
Qed.

(** C9, as amended.  Without [--inspect-cache] the auditor changes no
    file, whatever the disk and the other flags, and whether it ends or
    raises.  With [--inspect-cache] it loads the cache file of every
    split that has one, which unpickles it: [main] leaves the disk as it
    was when these loadings do. *)
Theorem main_never_mutates args d :
  (inspect_cache args = true ->
   forall split_, split_ ∈ split_on "," (splits args) ->
     is_Some (node_at d (cache_path args split_)) ->
     (np_load (cache_path args split_) d).2 = d) ->
  (main np_load args d).2 = d.
Proof.
  intros Hload. apply frame_for_each. intros out split_ Hin.
  apply audit_split_frame. intros Hi Hcache. by apply Hload.
Qed.

End AuditorFacts.

(** ** The dataset splitter *)

Lemma swap_head_perm {A} (x : list A) j (a xj : A) :
  x !! j = Some xj -> xj :: <[j := a]> x ≡ₚ a :: x.
Proof.
  revert j. induction x as [|b x IH]; intros [|j] Hj; simplify_eq/=.
  - apply perm_swap.
  - rewrite (perm_swap b xj), (IH _ Hj). apply perm_swap.
Qed.

Lemma swap_perm {A} (x : list A) i j xi xj :
  x !! i = Some xi -> x !! j = Some xj ->
  <[j := xi]> (<[i := xj]> x) ≡ₚ x.
Proof.
  revert i j. induction x as [|a x IH]; intros [|i] [|j] Hi Hj; simplify_eq/=.
  - done.
  - by apply swap_head_perm.
  - by apply swap_head_perm.
  - f_equiv. by apply IH.
Qed.

Lemma slice_take {A} (l : list A) (k : Z) :
  (0 <= k)%Z -> slice l None (Some k) = take (Z.to_nat k) l.
Proof.
  intros Hk. rewrite <-(Z2Nat.id k) at 1 by done. apply slice_prefix.
Qed.

Lemma slice_between {A} (l : list A) (a b : Z) :
  (0 <= a <= b)%Z -> (b <= Z.of_nat (length l))%Z ->
  slice l (Some a) (Some b) = take (Z.to_nat (b - a)) (drop (Z.to_nat a) l).
Proof.
  intros Ha Hb. unfold slice, slice_bound. cbn [from_option].
  destruct (Z.ltb_spec a 0); [lia|]. destruct (Z.ltb_spec b 0); [lia|].
  rewrite !Nat.min_r by lia. f_equal. lia.
Qed.

Lemma slice_drop {A} (l : list A) (a : Z) :
  (0 <= a <= Z.of_nat (length l))%Z ->
  slice l (Some a) None = drop (Z.to_nat a) l.
Proof.
  intros Ha. unfold slice, slice_bound. cbn [from_option].
  destruct (Z.ltb_spec a 0); [lia|].
  rewrite Nat.min_r by lia.
  rewrite take_ge; [done|]. rewrite length_drop. lia.
Qed.

(** A split with its pairs renamed. *)
Definition map_split {A B} (f : A -> B) (s : SplitYoloObb.split_data A)
  : SplitYoloObb.split_data B :=
  {| SplitYoloObb.train := map f (SplitYoloObb.train s);
     SplitYoloObb.val := map f (SplitYoloObb.val s);
     SplitYoloObb.test := map f (SplitYoloObb.test s) |}.

Lemma slice_map {A B} (f : A -> B) (l : list A) a b :
  slice (map f l) a b = map f (slice l a b).
Proof.
  unfold slice. rewrite length_map. by rewrite <-fmap_drop, <-fmap_take.
Qed.

Section SplitterFacts.

Import Binary64 SplitYoloObb.

Context {G : Type} `{Random G}.

Variable float_repr : float -> text.
Variable compensated_sum : bool.

(** [Random._randbelow(n)] draws below [n]. *)
Hypothesis randbelow_lt : forall g n, 0 < n -> (randbelow g n).1 < n.

Lemma swap_ok {A} (x : list A) i j :
  i < length x -> j < length x ->
  exists x', swap x i j = Ok x' /\ x' ≡ₚ x.
Proof.
  intros Hi Hj. unfold swap.
  destruct (lookup_lt_is_Some_2 x i Hi) as [xi Hxi].
  destruct (lookup_lt_is_Some_2 x j Hj) as [xj Hxj].
  rewrite Hxi, Hxj. eexists. split; [done|]. by apply swap_perm.
Qed.

Lemma shuffle_from_ok {A} i g (x : list A) :
  i < length x \/ i = 0 ->
  exists x', shuffle_from g x i = Ok x' /\ x' ≡ₚ x.
Proof using randbelow_lt.
  revert g x. induction i as [|i IH]; intros g x Hi; cbn [shuffle_from].
  - by exists x.
  - destruct Hi as [Hi|?]; [|done].
    pose proof (randbelow_lt g (S i + 1) ltac:(lia)) as Hj.
    destruct (randbelow g (S i + 1)) as [j g']. cbn [fst] in Hj.
    destruct (swap_ok x (S i) j) as (x1 & -> & Hx1); [lia..|].
    cbn [rbind].
    destruct (IH g' x1) as (x' & -> & Hx').
    { left. rewrite Hx1. lia. }
    exists x'. split; [done|]. by rewrite Hx'.
Qed.

(** The shuffle returns, with a permutation of the list. *)
Lemma shuffle_ok {A} g (x : list A) :
  exists x', shuffle g x = Ok x' /\ x' ≡ₚ x.
Proof using randbelow_lt.
  apply shuffle_from_ok. destruct x; simpl; lia.
Qed.

(** The shuffle moves positions: on a list renamed through [f] it gives
    the renamed list. *)
Lemma swap_map {A B} (f : A -> B) (x : list A) i j x' :
  swap x i j = Ok x' -> swap (map f x) i j = Ok (map f x').
Proof.
  unfold swap. rewrite !list_lookup_fmap.
  destruct (x !! j) as [xj|]; [|done]. destruct (x !! i) as [xi|]; [|done].
  intros [= <-]. cbn. by rewrite !list_fmap_insert.
Qed.

Lemma shuffle_from_map {A B} (f : A -> B) i g (x x' : list A) :
  shuffle_from g x i = Ok x' ->
  shuffle_from g (map f x) i = Ok (map f x').
Proof.
  revert g x. induction i as [|i IH]; intros g x; cbn [shuffle_from].
  - by intros [= <-].
  - destruct (randbelow g (S i + 1)) as [j g'].
    destruct (swap x (S i) j) as [x1|e] eqn:Hswap; [|done].
    rewrite (swap_map f _ _ _ _ Hswap). cbn [rbind]. apply IH.
Qed.

Lemma shuffle_map {A B} (f : A -> B) g (x x' : list A) :
  shuffle g x = Ok x' -> shuffle g (map f x) = Ok (map f x').
Proof. unfold shuffle. rewrite length_map. apply shuffle_from_map. Qed.

Lemma compute_split_indices_three total (r1 r2 r3 : float) c1 c2 :
  floor (mul (of_Z total) r1) = Ok c1 ->
  floor (mul (of_Z total) r2) = Ok c2 ->
  compute_split_indices total [r1; r2; r3] = Ok [c1; c1 + c2; total]%Z.
Proof.
  intros H1 H2. unfold compute_split_indices.
  change (slice [r1; r2; r3] None (Some (-1)%Z)) with [r1; r2].
  cbn [rfold rbind]. rewrite H1. cbn [rbind indices start].
  rewrite H2. cbn. done.
Qed.

(** What a run of [split_dataset] on [n] pairs gives when the ratios pass
    the sum check and the two counts are [c1] and [c2]. *)
Lemma split_dataset_run {A} (pairs shuffled : list A) (r1 r2 r3 : float)
    (seed c1 c2 : Z) :
  let n := Z.of_nat (length pairs) in
  isclose (sum compensated_sum [r1; r2; r3]) one abs_tol = true ->
  floor (mul (of_Z n) r1) = Ok c1 ->
  floor (mul (of_Z n) r2) = Ok c2 ->
  (0 <= c1)%Z -> (0 <= c2)%Z -> (c1 + c2 <= n)%Z ->
  shuffle (seeded seed) pairs = Ok shuffled ->
  length shuffled = length pairs ->
  split_dataset float_repr compensated_sum pairs [r1; r2; r3] seed
  = Ok (shuffled,
        {| train := take (Z.to_nat c1) shuffled;
           val := take (Z.to_nat c2) (drop (Z.to_nat c1) shuffled);
           test := drop (Z.to_nat (c1 + c2)) shuffled |}).
Proof.
  intros n Hsum Hc1 Hc2 H1 H2 Hn Hsh Hlen.
  unfold split_dataset. rewrite bool_decide_false by (simpl; lia).
  rewrite Hsum. cbn [negb]. rewrite Hsh. cbn [rbind].
  rewrite Hlen. fold n.
  rewrite (compute_split_indices_three n r1 r2 r3 c1 c2 Hc1 Hc2).
  cbn [rbind]. rewrite slice_take by lia.
  rewrite slice_between by lia. rewrite slice_drop by lia.
  by replace (c1 + c2 - c1)%Z with c2 by lia.
Qed.

(** C1, as amended.  For every list of [n] pairs and every three ratios
    that pass the sum check, whose counts [c1] and [c2], the floors of
    the binary64 products [n * r_train] and [n * r_val], are not negative
    and together at most [n], [split_dataset] returns three lists whose
    concatenation is a permutation of the pairs, of [c1], [c2] and
    [n - c1 - c2] pairs.  The split of a pair depends on the seed and on
    the position of the pair only: a run with the same seed on the pairs
    renamed gives the same split renamed, and so the same split on the
    same pairs. *)
Theorem split_dataset_partition {A} (pairs : list A) (r1 r2 r3 : float)
    (seed c1 c2 : Z) :
  let n := Z.of_nat (length pairs) in
  isclose (sum compensated_sum [r1; r2; r3]) one abs_tol = true ->
  floor (mul (of_Z n) r1) = Ok c1 ->
  floor (mul (of_Z n) r2) = Ok c2 ->
  (0 <= c1)%Z -> (0 <= c2)%Z -> (c1 + c2 <= n)%Z ->
  exists shuffled split_,
    split_dataset float_repr compensated_sum pairs [r1; r2; r3] seed
    = Ok (shuffled, split_)
    /\ train split_ ++ val split_ ++ test split_ ≡ₚ pairs
    /\ Z.of_nat (length (train split_)) = c1
    /\ Z.of_nat (length (val split_)) = c2
    /\ Z.of_nat (length (test split_)) = (n - c1 - c2)%Z
    /\ forall B (f : A -> B),
         split_dataset float_repr compensated_sum (map f pairs) [r1; r2; r3]
           seed
         = Ok (map f shuffled, map_split f split_).
Proof using randbelow_lt.
  intros n Hsum Hc1 Hc2 H1 H2 Hn.
  destruct (shuffle_ok (seeded seed) pairs) as (shuffled & Hsh & Hperm).
  assert (length shuffled = length pairs) as Hlen by (by rewrite Hperm).
  eexists _, _. split.
  { by apply (split_dataset_run pairs shuffled r1 r2 r3 seed c1 c2). }
  cbn [train val test].
  split; [|split; [|split; [|split]]].
  - rewrite Z2Nat.inj_add, <-drop_drop by lia.
    by rewrite !take_drop.
  - rewrite length_take. lia.
  - rewrite length_take, length_drop. lia.
  - rewrite length_drop. lia.
  - intros B f.
    rewrite (split_dataset_run (map f pairs) (map f shuffled) r1 r2 r3 seed
               c1 c2); rewrite ?length_map; try done.
    + unfold map_split. cbn [train val test].
      by rewrite !fmap_take, !fmap_drop.
    + by apply shuffle_map.
Qed.

End SplitterFacts.

(** *** Examples *)

Section SplitterExamples.

Import Binary64 SplitYoloObb.

Lemma randbelow_loop_lt fuel g k (n : Z) :
  (0 < n)%Z -> ((MersenneTwister.randbelow_loop fuel g k n).1 < n)%Z.
Proof.
  intros Hn. revert g. induction fuel as [|fuel IH]; intros g;
    cbn [MersenneTwister.randbelow_loop];
    destruct (MersenneTwister.getrandbits g k) as [r g'];
    destruct (Z.ltb_spec r n); cbn [fst]; try lia.
  apply IH.
Qed.

(** The draws of [random.Random] are below their bound. *)
Lemma MT_randbelow_lt (g : MersenneTwister.state) (n : nat) :
  0 < n -> (randbelow g n).1 < n.
Proof.
  intros Hn. cbn [randbelow MT_Random]. unfold MersenneTwister.randbelow.
  pose proof (randbelow_loop_lt MersenneTwister.draw_limit g
                (MersenneTwister.bit_length (Z.of_nat n)) (Z.of_nat n)
                ltac:(lia)) as Hr.
  destruct (MersenneTwister.randbelow_loop _ _ _ _) as [r g'].
  cbn [fst] in *. lia.
Qed.

(** The generator as Python seeds and steps it: the first word after
    [seed(42)], and the shuffle of four and of ten items. *)
Example shuffle_example :
  (MersenneTwister.genrand_uint32 (MersenneTwister.seed_int 42)).1
  = 2746317213%Z
  /\ shuffle (seeded 42) [1; 2; 3; 4] = Ok [3; 2; 4; 1]
  /\ shuffle (seeded 42) [0; 1; 2; 3; 4; 5; 6; 7; 8; 9]
     = Ok [7; 3; 2; 8; 5; 6; 9; 4; 0; 1].
Proof. repeat split; vm_compute; reflexivity. Qed.

(** The ratios of the command line's default, [0.7 0.2 0.1], and a
    [repr] that is not looked at. *)
Definition default_ratios : list float :=
  [of_frac 7 10; of_frac 2 10; of_frac 1 10].

Definition no_repr : float -> text := fun _ => lit "?".

(** The floor is taken of the rounded product: of 90 pairs, 62 go to
    train, where 90 times seven tenths is 63; of 10 pairs, 7 go to train,
    where 10 times the float written [0.7], which is below seven tenths,
    is below 7. *)
Example split_counts_rounded :
  compute_split_indices 90 default_ratios = Ok [62; 80; 90]%Z
  /\ Qfloor (90 * (7 # 10)) = 63%Z
  /\ compute_split_indices 10 default_ratios = Ok [7; 9; 10]%Z
  /\ Qfloor (10 * value (of_frac 7 10)) = 6%Z.
Proof. repeat split; vm_compute; reflexivity. Qed.

(** C1, as first stated, fails on ratios that sum to 1 with a negative
    one among them: of four pairs, two go to train and all four to test,
    and the validation list, empty, does not have floor(4 * -1/2) pairs.
    It also fails on the default ratios, for the rounding of the
    product: of 90 pairs, 62 go to train and not floor(90 * 0.7) = 63. *)
Lemma split_dataset_negative_ratio :
  let ratios := [of_frac 1 2; of_frac (-1) 2; of_Z 1] in
  (forall compensated,
     sum compensated ratios = of_Z 1
     /\ split_dataset no_repr compensated [1; 2; 3; 4] ratios 42
        = Ok ([3; 2; 4; 1],
              {| train := [3; 2];
                 val := [];
                 test := [3; 2; 4; 1] |}))
  /\ compute_split_indices 4 ratios = Ok [2; 0; 4]%Z
  /\ compute_split_indices 90 default_ratios = Ok [62; 80; 90]%Z
  /\ Qfloor (90 * (7 # 10)) = 63%Z.
Proof.
  cbv zeta. split.
  - intros [|]; split; vm_compute; reflexivity.
  - split; [vm_compute; reflexivity|].
    split; vm_compute; reflexivity.
Qed.

Lemma split_dataset_partition_witness :
  exists shuffled split_,
    split_dataset no_repr false [1; 2; 3; 4; 5; 6; 7; 8; 9; 10]
      default_ratios 42 = Ok (shuffled, split_)
    /\ train split_ ++ val split_ ++ test split_
       ≡ₚ [1; 2; 3; 4; 5; 6; 7; 8; 9; 10]
    /\ Z.of_nat (length (train split_)) = 7%Z
    /\ Z.of_nat (length (val split_)) = 2%Z
    /\ Z.of_nat (length (test split_)) = (10 - 7 - 2)%Z
    /\ forall B (f : nat -> B),
         split_dataset no_repr false (map f [1; 2; 3; 4; 5; 6; 7; 8; 9; 10])
           default_ratios 42
         = Ok (map f shuffled, map_split f split_).
Proof.
  apply (split_dataset_partition no_repr false MT_randbelow_lt
           [1; 2; 3; 4; 5; 6; 7; 8; 9; 10]
           (of_frac 7 10) (of_frac 2 10) (of_frac 1 10) 42%Z 7%Z 2%Z);
    first [vm_compute; reflexivity | lia | vm_compute; congruence].
Defined.

End SplitterExamples.

(** ** The rectangular-box converter *)

Section DecimalFacts.

Import ConvertYoloBboxToPolygon.

Local Open Scope Z_scope.

Lemma digits_upto_length fuel (n : N) (k : nat) :
  (0 < k)%nat -> (n < 10 ^ N.of_nat k)%N ->
  (length (digits_upto fuel n) <= k)%nat.
Proof.
  revert n k. induction fuel as [|fuel IH]; intros n k Hk Hn; cbn [digits_upto].
  - simpl. lia.
  - destruct (N.ltb_spec n 10); [simpl; lia|].
    rewrite length_app. cbn [length].
    destruct k as [|k]; [lia|].
    destruct k as [|k].
    { change (10 ^ N.of_nat 1)%N with 10%N in Hn. lia. }
    specialize (IH (n / 10)%N (S k) ltac:(lia)).
    assert (n / 10 < 10 ^ N.of_nat (S k))%N as Hdiv.
    { apply N.Div0.div_lt_upper_bound.
      replace (N.of_nat (S (S k))) with (N.succ (N.of_nat (S k))) in Hn by lia.
      by rewrite N.pow_succ_r' in Hn. }
    specialize (IH Hdiv). lia.
Qed.

Lemma len_le d (k : nat) :
  (0 < k)%nat -> (coeff d < 10 ^ N.of_nat k)%N -> len d <= Z.of_nat k.
Proof.
  intros Hk Hc. unfold len, digits.
  pose proof (digits_upto_length (S (N.to_nat (N.log2 (coeff d)))) _ k Hk Hc).
  lia.
Qed.

(** A number that fits the precision is not rounded. *)
Lemma fix_exact d :
  (coeff d < 10 ^ 28)%N -> Etiny <= exp d <= 0 -> fix_ d = Ok d.
Proof.
  intros Hc [He1 He2]. unfold fix_, is_zero.
  destruct (N.eqb_spec (coeff d) 0) as [H0|H0].
  - destruct d as [s c e]. cbn in *. subst c.
    unfold Emax, Etiny, Emin, prec in *. do 2 f_equal. lia.
  - pose proof (len_le d 28 ltac:(lia) Hc) as Hlen.
    assert (0 <= len d) as Hlen0 by (unfold len; lia).
    unfold Etop, Etiny, Emax, Emin, prec in *.
    destruct (Z.ltb_spec (999999 - 28 + 1) (len d + exp d - 28)); [lia|].
    destruct (Z.ltb_spec (len d + exp d - 28) (-999999 - 28 + 1)).
    + destruct (Z.ltb_spec (exp d) (-999999 - 28 + 1)); [lia|done].
    + destruct (Z.ltb_spec (exp d) (len d + exp d - 28)); [lia|done].
Qed.

(** *** The value of a decimal *)

Definition sgn (s : bool) : Q := if s then (-1)%Q else 1%Q.

Lemma value_eq d :
  value d = (sgn (sign d) * inject_Z (Z.of_N (coeff d)) * 10 ^ exp d)%Q.
Proof. by destruct d as [[] ? ?]. Qed.

Lemma Q10_add (a b : Z) : (10 ^ (a + b) == 10 ^ a * 10 ^ b)%Q.
Proof. apply Qpower_plus. done. Qed.

Lemma inject_N_pow10 (k : N) :
  (inject_Z (Z.of_N (10 ^ k)) == 10 ^ Z.of_N k)%Q.
Proof.
  rewrite N2Z.inj_pow. change (Z.of_N 10) with 10%Z.
  rewrite Zpower_Qpower by lia. done.
Qed.

Lemma value_pad d e : e <= exp d -> (value (pad_to d e) == value d)%Q.
Proof.
  intros He. rewrite !value_eq. unfold pad_to. cbn [sign coeff exp].
  rewrite N2Z.inj_mul, inject_Z_mult, inject_N_pow10.
  rewrite Z2N.id by lia.
  assert (10 ^ exp d == 10 ^ (exp d - e) * 10 ^ e)%Q as ->.
  { rewrite <-Q10_add. by replace (exp d - e + e) with (exp d) by lia. }
  ring.
Qed.

Lemma value_zero d : coeff d = 0%N -> (value d == 0)%Q.
Proof. intros Hc. rewrite value_eq, Hc. simpl. ring. Qed.


(** *** Halving *)

Lemma strip_zeros_pow10 (k n : nat) (m : N) e :
  strip_zeros (k + n) (m * 10 ^ N.of_nat k) e = strip_zeros n m (e + Z.of_nat k).
Proof.
  revert e. induction k as [|k IH]; intros e.
  - cbn [Nat.add]. change (10 ^ N.of_nat 0)%N with 1%N.
    rewrite N.mul_1_r. f_equal. lia.
  - cbn [Nat.add strip_zeros].
    replace (N.of_nat (S k)) with (N.succ (N.of_nat k)) by lia.
    rewrite N.pow_succ_r'.
    replace (m * (10 * 10 ^ N.of_nat k))%N with ((m * 10 ^ N.of_nat k) * 10)%N
      by lia.
    rewrite N.Div0.mod_mul. cbn [N.eqb].
    rewrite N.div_mul by done. rewrite IH. f_equal. lia.
Qed.

(** The aligned form of [a / Decimal(2)] for a decimal of at most 27
    digits that is not negative: one digit more at most, and twice the
    result is the operand. *)
Lemma truediv_2_exact w :
  sign w = false -> (coeff w < 10 ^ 27)%N -> Etiny < exp w <= 0 ->
  exists hw,
    truediv w Decimal_2 = Ok hw
    /\ sign hw = false
    /\ exp w - 1 <= exp hw <= exp w
    /\ (2 * coeff hw * 10 ^ Z.to_N (exp hw - (exp w - 1)) = 10 * coeff w)%N.
Proof.
  intros Hs Hc He. unfold truediv.
  change (is_zero Decimal_2) with false. cbn [sign exp Decimal_2].
  rewrite Hs. cbn [xorb]. rewrite Z.sub_0_r.
  unfold is_zero. destruct (N.eqb_spec (coeff w) 0) as [H0|H0].
  - rewrite fix_exact; cbn [coeff exp]; [|done|lia].
    eexists. split; [done|]. cbn [sign exp coeff]. repeat split; lia.
  - change (len Decimal_2) with 1.
    pose proof (len_le w 27 ltac:(lia) Hc) as Hlen.
    assert (0 <= len w) as Hlen0 by (unfold len; lia).
    set (shift := 1 - len w + prec + 1).
    assert (2 <= shift) as Hshift by (unfold shift, prec; lia).
    destruct (Z.leb_spec 0 shift); [|lia].
    set (k := Z.to_nat (shift - 1)).
    assert (Z.to_N shift = N.succ (N.of_nat k)) as -> by lia.
    rewrite N.pow_succ_r'. change (coeff Decimal_2) with 2%N.
    replace (coeff w * (10 * 10 ^ N.of_nat k))%N
      with (2 * (5 * coeff w * 10 ^ N.of_nat k))%N by lia.
    assert (N.div_eucl (2 * (5 * coeff w * 10 ^ N.of_nat k)) 2
            = ((5 * coeff w * 10 ^ N.of_nat k)%N, 0%N)) as ->.
    { pose proof (N.div_eucl_spec (2 * (5 * coeff w * 10 ^ N.of_nat k)) 2) as Hd.
      pose proof (N.mod_lt (2 * (5 * coeff w * 10 ^ N.of_nat k)) 2 ltac:(done)) as Hm.
      unfold N.modulo in Hm.
      destruct (N.div_eucl _ 2) as [q r]. cbn [snd] in Hm. f_equal; lia. }
    cbn [N.eqb negb].
    replace (Z.to_nat (exp w - (exp w - shift))) with (k + 1)%nat by lia.
    rewrite strip_zeros_pow10. cbn [strip_zeros].
    replace (exp w - shift + Z.of_nat k) with (exp w - 1) by lia.
    destruct (N.eqb_spec ((5 * coeff w) mod 10) 0) as [Hev|Hodd].
    + assert (5 * coeff w = 10 * ((5 * coeff w) / 10))%N as Hdiv.
      { pose proof (N.div_mod' (5 * coeff w) 10). lia. }
      rewrite fix_exact; cbn [coeff exp]; [|lia|lia].
      eexists. split; [done|]. cbn [sign exp coeff].
      split; [done|]. split; [lia|].
      replace (exp w - 1 + 1 - (exp w - 1)) with 1 by lia.
      change (10 ^ Z.to_N 1)%N with 10%N. lia.
    + rewrite fix_exact; cbn [coeff exp]; [|lia|lia].
      eexists. split; [done|]. cbn [sign exp coeff].
      split; [done|]. split; [lia|].
      replace (exp w - 1 - (exp w - 1)) with 0 by lia.
      change (10 ^ Z.to_N 0)%N with 1%N. lia.
Qed.


(** *** Adding *)

Lemma value_aligned d e :
  e <= exp d ->
  (value d == sgn (sign d) * inject_Z (Z.of_N (coeff (pad_to d e))) * 10 ^ e)%Q.
Proof. intros He. rewrite <-(value_pad d e He). by rewrite value_eq. Qed.

Lemma value_copy_negate d : (value (copy_negate d) == - value d)%Q.
Proof.
  rewrite !value_eq. unfold copy_negate. cbn [sign coeff exp].
  destruct (sign d); cbn [negb sgn]; ring.
Qed.

(** The sum before rounding: on the smaller exponent, no longer than the
    two aligned operands together, and exact. *)
Lemma add_form a b :
  let e := Z.min (exp a) (exp b) in
  Z.abs (exp a - exp b) <= 29 ->
  exists r,
    add a b = fix_ r
    /\ exp r = e
    /\ (coeff r <= coeff (pad_to a e) + coeff (pad_to b e))%N
    /\ (value r == value a + value b)%Q.
Proof.
  intros e Hwin.
  pose proof (value_aligned a e ltac:(lia)) as Ha.
  pose proof (value_aligned b e ltac:(lia)) as Hb.
  unfold add. fold e. unfold is_zero.
  destruct (N.eqb_spec (coeff a) 0) as [Ha0|Ha0];
    destruct (N.eqb_spec (coeff b) 0) as [Hb0|Hb0]; cbn [andb].
  - eexists. split; [done|]. cbn [exp coeff]. split; [done|]. split; [lia|].
    rewrite (value_zero a Ha0), (value_zero b Hb0).
    rewrite value_zero by done. ring.
  - replace (Z.max e (exp b - prec - 1)) with e by (unfold prec; lia).
    eexists. split; [done|]. cbn [exp pad_to]. split; [done|]. split; [lia|].
    rewrite (value_zero a Ha0), value_pad by lia. ring.
  - replace (Z.max e (exp a - prec - 1)) with e by (unfold prec; lia).
    eexists. split; [done|]. cbn [exp pad_to]. split; [done|]. split; [lia|].
    rewrite (value_zero b Hb0), value_pad by lia. ring.
  - set (ca := coeff (pad_to a e)) in *. set (cb := coeff (pad_to b e)) in *.
    case_bool_decide as Hsign.
    + destruct (N.eqb_spec ca cb) as [Heq|Hne].
      * eexists. split; [done|]. cbn [exp coeff]. split; [done|]. split; [lia|].
        rewrite value_zero by done. rewrite Ha, Hb, Heq.
        destruct (sign a), (sign b); try done; cbn [sgn]; ring.
      * destruct (N.ltb_spec ca cb) as [Hlt|Hge].
        -- eexists. split; [done|]. cbn [exp coeff]. split; [done|].
           split; [lia|]. rewrite Ha, Hb, value_eq. cbn [sign coeff exp].
           rewrite N2Z.inj_sub by lia. unfold Zminus.
           rewrite inject_Z_plus, inject_Z_opp.
           destruct (sign a), (sign b); try done; cbn [sgn]; ring.
        -- eexists. split; [done|]. cbn [exp coeff]. split; [done|].
           split; [lia|]. rewrite Ha, Hb, value_eq. cbn [sign coeff exp].
           rewrite N2Z.inj_sub by lia. unfold Zminus.
           rewrite inject_Z_plus, inject_Z_opp.
           destruct (sign a), (sign b); try done; cbn [sgn]; ring.
    + eexists. split; [done|]. cbn [exp coeff]. split; [done|]. split; [lia|].
      rewrite Ha, Hb, value_eq. cbn [sign coeff exp].
      rewrite N2Z.inj_add, inject_Z_plus.
      assert (sign b = sign a) as -> by (by destruct (sign a), (sign b)).
      ring.
Qed.

(** When the aligned operands together fit the precision, the sum is not
    rounded. *)
Lemma add_exact a b :
  let e := Z.min (exp a) (exp b) in
  Z.abs (exp a - exp b) <= 29 -> Etiny <= e -> exp a <= 0 -> exp b <= 0 ->
  (coeff (pad_to a e) + coeff (pad_to b e) < 10 ^ 28)%N ->
  exists r, add a b = Ok r /\ (value r == value a + value b)%Q.
Proof.
  intros e Hwin He Ha Hb Hfit.
  destruct (add_form a b Hwin) as (r & -> & Hexp & Hcoeff & Hval).
  fold e in Hexp, Hcoeff. exists r. split; [|done].
  apply fix_exact; lia.
Qed.


(** *** The corners of a box *)

(** A normalised coordinate or size: between 0 and 1, written with at
    most 26 decimal places. *)
Definition normalized (d : Decimal) : Prop :=
  sign d = false /\ -26 <= exp d <= 0
  /\ (coeff d <= 10 ^ Z.to_N (- exp d))%N.

Lemma pow10_split (a b : Z) :
  0 <= a -> 0 <= b -> (10 ^ Z.to_N (a + b) = 10 ^ Z.to_N a * 10 ^ Z.to_N b)%N.
Proof. intros Ha Hb. rewrite Z2N.inj_add by done. apply N.pow_add_r. Qed.

Lemma pow10_le_27 (a : Z) : a <= 27 -> (10 ^ Z.to_N a <= 10 ^ 27)%N.
Proof. intros Ha. apply N.pow_le_mono_r; [done | lia]. Qed.

(** The two edges [c - hw] and [c + hw] of a box, for a centre [c] that
    is normalised and a half size [hw] of at most a half and 27 places:
    neither is rounded. *)
Lemma edges_exact c hw :
  normalized c ->
  -27 <= exp hw <= 0 -> (2 * coeff hw <= 10 ^ Z.to_N (- exp hw))%N ->
  exists lo hi,
    sub c hw = Ok lo /\ add c hw = Ok hi
    /\ (value lo == value c - value hw)%Q
    /\ (value hi == value c + value hw)%Q.
Proof.
  intros (Hs & He & Hc) Hhe Hhc.
  set (e := Z.min (exp c) (exp hw)).
  assert (coeff (pad_to c e) + coeff (pad_to hw e) < 10 ^ 28)%N as Hfit.
  { unfold pad_to. cbn [coeff].
    pose proof (pow10_split (- exp c) (exp c - e) ltac:(lia) ltac:(lia)) as H1.
    pose proof (pow10_split (- exp hw) (exp hw - e) ltac:(lia) ltac:(lia)) as H2.
    replace (- exp c + (exp c - e)) with (- e) in H1 by lia.
    replace (- exp hw + (exp hw - e)) with (- e) in H2 by lia.
    pose proof (pow10_le_27 (- e) ltac:(lia)) as H3.
    assert (10 ^ 28 = 10 * 10 ^ 27)%N as -> by exact (N.pow_succ_r' 10 27).
    set (P := (10 ^ Z.to_N (- e))%N) in *. set (T := (10 ^ 27)%N) in *.
    set (kc := (10 ^ Z.to_N (exp c - e))%N) in *.
    set (kh := (10 ^ Z.to_N (exp hw - e))%N) in *.
    set (pc := (10 ^ Z.to_N (- exp c))%N) in *.
    set (ph := (10 ^ Z.to_N (- exp hw))%N) in *.
    assert (coeff c * kc <= P)%N by (rewrite H1; nia).
    assert (2 * (coeff hw * kh) <= P)%N by (rewrite H2; nia).
    assert (0 < T)%N by (unfold T; done).
    lia. }
  destruct (add_exact c (copy_negate hw)) as (lo & Hlo & Hvlo);
    cbn [copy_negate exp]; fold e; [unfold Etiny, Emin, prec; lia..| |].
  { exact Hfit. }
  destruct (add_exact c hw) as (hi & Hhi & Hvhi);
    fold e; [unfold Etiny, Emin, prec; lia..| |].
  { exact Hfit. }
  exists lo, hi. unfold sub. split; [done|]. split; [done|].
  split; [|done]. rewrite Hvlo, value_copy_negate. ring.
Qed.

(** Half of a normalised size is its exact half, of at most 27 places. *)
Lemma half_exact w :
  normalized w ->
  exists hw,
    truediv w Decimal_2 = Ok hw
    /\ -27 <= exp hw <= 0 /\ (2 * coeff hw <= 10 ^ Z.to_N (- exp hw))%N
    /\ (2 * value hw == value w)%Q.
Proof.
  intros (Hs & He & Hc).
  assert (coeff w < 10 ^ 27)%N as Hc27.
  { pose proof (N.pow_le_mono_r 10 (Z.to_N (- exp w)) 26 ltac:(done) ltac:(lia)).
    assert (10 ^ 26 < 10 ^ 27)%N by done. lia. }
  destruct (truediv_2_exact w Hs Hc27) as (hw & Hdiv & Hsw & Hexp & Heq).
  { unfold Etiny, Emin, prec. lia. }
  exists hw. split; [done|]. split; [lia|].
  set (k := exp hw - (exp w - 1)) in *.
  assert (- exp w + 1 = - exp hw + k) as Hk by lia.
  pose proof (pow10_split (- exp hw) k ltac:(lia) ltac:(lia)) as Hp.
  rewrite <-Hk in Hp.
  pose proof (pow10_split (- exp w) 1 ltac:(lia) ltac:(lia)) as Hp1.
  change (10 ^ Z.to_N 1)%N with 10%N in Hp1. rewrite Hp1 in Hp.
  split.
  - assert (0 < 10 ^ Z.to_N k)%N as Hpos.
    { apply N.neq_0_lt_0, N.pow_nonzero. done. }
    nia.
  - rewrite !value_eq, Hs, Hsw. cbn [sgn].
    assert (10 ^ exp w == 10 ^ 1 * 10 ^ (exp w - 1))%Q as ->.
    { rewrite <-Q10_add. by replace (1 + (exp w - 1)) with (exp w) by lia. }
    assert (10 ^ exp hw == 10 ^ k * 10 ^ (exp w - 1))%Q as ->.
    { rewrite <-Q10_add. by replace (k + (exp w - 1)) with (exp hw) by lia. }
    apply (f_equal Z.of_N) in Heq.
    rewrite !N2Z.inj_mul in Heq. apply (f_equal inject_Z) in Heq.
    rewrite !inject_Z_mult in Heq.
    assert (inject_Z (Z.of_N (10 ^ Z.to_N k)) == 10 ^ k)%Q as Hpk.
    { rewrite inject_N_pow10. by rewrite Z2N.id by lia. }
    rewrite <-Hpk. change (10 ^ 1)%Q with (inject_Z (Z.of_N 10)).
    change 2%Q with (inject_Z (Z.of_N 2)).
    transitivity (inject_Z (Z.of_N 2) * inject_Z (Z.of_N (coeff hw))
                  * inject_Z (Z.of_N (10 ^ Z.to_N k)) * 10 ^ (exp w - 1))%Q;
      [ring|].
    rewrite Heq. ring.
Qed.


(** The geometry read back from the corners of a box, in exact
    arithmetic: the extents are the sizes and the midpoints the centre. *)
Definition box_reproduced (xc yc w h x_min x_max y_min y_max : Q) : Prop :=
  (x_max - x_min == w /\ y_max - y_min == h
   /\ (x_min + x_max) / 2 == xc /\ (y_min + y_max) / 2 == yc)%Q.

Lemma polygon_values_exact x_center y_center width height :
  normalized x_center -> normalized y_center ->
  normalized width -> normalized height ->
  exists x_min x_max y_min y_max,
    polygon_values x_center y_center width height
    = Ok [x_min; x_max; x_max; x_min; y_min; y_min; y_max; y_max]
    /\ box_reproduced (value x_center) (value y_center)
         (value width) (value height)
         (value x_min) (value x_max) (value y_min) (value y_max).
Proof.
  intros Hx Hy Hw Hh.
  destruct (half_exact width Hw) as (half_w & Hdw & Hew & Hcw & Hvw).
  destruct (half_exact height Hh) as (half_h & Hdh & Heh & Hch & Hvh).
  destruct (edges_exact x_center half_w Hx Hew Hcw)
    as (x_min & x_max & Hxmin & Hxmax & Hvxmin & Hvxmax).
  destruct (edges_exact y_center half_h Hy Heh Hch)
    as (y_min & y_max & Hymin & Hymax & Hvymin & Hvymax).
  exists x_min, x_max, y_min, y_max. split.
  - unfold polygon_values. rewrite Hdw, Hdh. cbn [rbind].
    rewrite Hxmin, Hxmax. cbn [rbind]. rewrite Hymin, Hymax. done.
  - unfold box_reproduced.
    rewrite Hvxmin, Hvxmax, Hvymin, Hvymax, <-Hvw, <-Hvh.
    repeat split; field.
Qed.

End DecimalFacts.

(** ** The corners of an oriented box, in rounded arithmetic *)

(** The error unit for values of magnitude [m], with cosines and sines
    known within [eps]. *)
Definition unit_error (eps m : R) : R :=
  ((RoundedFloat.u + eps) * m + RoundedFloat.eta)%R.

(** The geometry read back from four corners, within [T]: the centre is
    their mean, the width and the height are the lengths of the first two
    edges, and the angle is the direction of the first edge. *)
Definition obb_reproduced_within (T cx cy w h a : R)
    (corners : list (R * R)) : Prop :=
  (exists x1 y1 x2 y2 x3 y3 x4 y4,
    corners = [(x1, y1); (x2, y2); (x3, y3); (x4, y4)]
    /\ Rabs ((x1 + x2 + x3 + x4) / 4 - cx) <= T
    /\ Rabs ((y1 + y2 + y3 + y4) / 4 - cy) <= T
    /\ (0 <= w ->
        Rabs (sqrt ((x2 - x1) * (x2 - x1) + (y2 - y1) * (y2 - y1)) - w)
        <= 4 * T)
    /\ (0 <= h ->
        Rabs (sqrt ((x3 - x2) * (x3 - x2) + (y3 - y2) * (y3 - y2)) - h)
        <= 4 * T)
    /\ Rabs (x2 - x1 - w * cos a) <= 2 * T
    /\ Rabs (y2 - y1 - w * sin a) <= 2 * T)%R.

Section RoundingFacts.

Import RoundedFloat.

Local Open Scope R_scope.

Lemma u_small : 0 < u <= / 64.
Proof.
  unfold u. split; [apply Rinv_0_lt_compat, pow_lt; lra|].
  apply Rinv_le_contravar; [lra|].
  change 53%nat with (6 + 47)%nat. rewrite pow_add.
  assert (1 <= 2 ^ 47) by (apply pow_R1_Rle; lra).
  assert (2 ^ 6 = 64) as -> by (simpl; lra). nra.
Qed.

Lemma eta_small : 0 < eta <= 1.
Proof.
  unfold eta. split; [apply Rinv_0_lt_compat, pow_lt; lra|].
  apply Rle_trans with (/ 1); [|rewrite Rinv_1; lra].
  apply Rinv_le_contravar; [lra|]. apply pow_R1_Rle. lra.
Qed.

Lemma Omega_large : 64 <= Omega.
Proof.
  unfold Omega.
  assert (1 <= 2 ^ 971) by (apply pow_R1_Rle; lra).
  assert (64 <= 2 ^ 53 - 1).
  { change 53%nat with (7 + 46)%nat. rewrite pow_add.
    assert (1 <= 2 ^ 46) by (apply pow_R1_Rle; lra).
    assert (2 ^ 7 = 128) as -> by (simpl; lra). nra. }
  nra.
Qed.

(** Rounding to the grid is within half its spacing. *)
Lemma to_grid_near (x : R) : Rabs (to_grid x - x) <= u * Rabs x + eta.
Proof.
  unfold to_grid, eta. set (p := 2 ^ 1074).
  assert (0 < p) as Hp by (apply pow_lt; lra).
  assert (2 ^ 1075 = 2 * p) as -> by reflexivity.
  destruct (archimed (x * p - / 2)) as [Hup1 Hup2].
  set (z := IZR (up (x * p - / 2))) in *.
  replace (z * / p - x) with ((z - x * p) * / p) by (field; lra).
  assert (0 < / p) as Hip by (by apply Rinv_0_lt_compat).
  rewrite Rabs_mult, (Rabs_pos_eq (/ p)) by lra.
  assert (Rabs (z - x * p) <= / 2) as Hz by (apply Rabs_le; lra).
  rewrite Rinv_mult. pose proof u_small. pose proof (Rabs_pos x).
  pose proof (Rabs_pos (z - x * p)). nra.
Qed.

End RoundingFacts.

Section Norms.

Local Open Scope R_scope.

Lemma Rabs_bound (x b : R) : Rabs x <= b -> - b <= x <= b.
Proof.
  intros Hx. pose proof (Rle_abs x). pose proof (Rle_abs (- x)) as Hn.
  rewrite Rabs_Ropp in Hn. lra.
Qed.

Lemma norm_sqr a b : sqrt (a * a + b * b) * sqrt (a * a + b * b) = a * a + b * b.
Proof. apply sqrt_sqrt. nra. Qed.

Lemma norm_triangle a b c d :
  sqrt ((a + c) * (a + c) + (b + d) * (b + d))
  <= sqrt (a * a + b * b) + sqrt (c * c + d * d).
Proof.
  set (p := sqrt (a * a + b * b)). set (q := sqrt (c * c + d * d)).
  set (r := sqrt ((a + c) * (a + c) + (b + d) * (b + d))).
  assert (0 <= p) by apply sqrt_pos. assert (0 <= q) by apply sqrt_pos.
  assert (0 <= r) by apply sqrt_pos.
  pose proof (norm_sqr a b) as Hp. pose proof (norm_sqr c d) as Hq.
  pose proof (norm_sqr (a + c) (b + d)) as Hr.
  fold p in Hp. fold q in Hq. fold r in Hr.
  assert (a * c + b * d <= p * q) as Hcs.
  { destruct (Rle_dec (a * c + b * d) 0); [nra|].
    apply Rsqr_incr_0_var; [|nra]. unfold Rsqr.
    replace (p * q * (p * q)) with ((p * p) * (q * q)) by ring.
    rewrite Hp, Hq.
    pose proof (Rle_0_sqr (a * d - b * c)) as Hsq. unfold Rsqr in Hsq. nra. }
  apply Rsqr_incr_0_var; [|lra]. unfold Rsqr. nra.
Qed.

Lemma norm_le_sum c d : sqrt (c * c + d * d) <= Rabs c + Rabs d.
Proof.
  pose proof (Rabs_pos c). pose proof (Rabs_pos d).
  apply Rsqr_incr_0_var; [|lra]. unfold Rsqr. rewrite norm_sqr.
  assert (Rabs c * Rabs c = c * c) by (rewrite <-Rabs_mult; apply Rabs_pos_eq; nra).
  assert (Rabs d * Rabs d = d * d) by (rewrite <-Rabs_mult; apply Rabs_pos_eq; nra).
  nra.
Qed.

(** The length of an edge known within [d] in both coordinates. *)
Lemma edge_length (A B a b w d : R) :
  A * A + B * B = w * w -> 0 <= w ->
  Rabs (a - A) <= d -> Rabs (b - B) <= d ->
  Rabs (sqrt (a * a + b * b) - w) <= 2 * d.
Proof.
  intros Hw Hw0 Ha Hb.
  assert (sqrt (A * A + B * B) = w) as HW.
  { rewrite Hw. by apply sqrt_square. }
  pose proof (norm_le_sum (a - A) (b - B)) as Hn.
  pose proof (norm_triangle A B (a - A) (b - B)) as H1.
  replace (A + (a - A)) with a in H1 by ring.
  replace (B + (b - B)) with b in H1 by ring.
  pose proof (norm_triangle a b (A - a) (B - b)) as H2.
  replace (a + (A - a)) with A in H2 by ring.
  replace (b + (B - b)) with B in H2 by ring.
  pose proof (norm_le_sum (A - a) (B - b)) as Hn'.
  rewrite (Rabs_minus_sym A a), (Rabs_minus_sym B b) in Hn'.
  rewrite HW in H1, H2. apply Rabs_le. lra.
Qed.

End Norms.

Section RotationTolerance.

Import ConvertObbLabelsToCorners RoundedFloat.

Local Open Scope R_scope.

Variables (rnd libm_cos libm_sin : R -> R) (eps : R).

(** Rounding to nearest: the error is at most the unit roundoff times
    the magnitude, or half the spacing of the subnormal floats, as long
    as the magnitude is that of a finite float. *)
Hypothesis rnd_near :
  forall x, Rabs x <= Omega -> Rabs (rnd x - x) <= u * Rabs x + eta.

(** The accuracy of the library's cosine and sine. *)
Hypothesis cos_near : forall x, Rabs (libm_cos x - cos x) <= eps.
Hypothesis sin_near : forall x, Rabs (libm_sin x - sin x) <= eps.
Hypothesis eps_small : 0 <= eps <= / 64.

Section Magnitude.

Variable m : R.
Hypothesis m_pos : 0 <= m.
Hypothesis m_fits : m <= Omega / 4.

Let s := unit_error eps m.

Lemma s_facts :
  0 <= s /\ u * m <= s /\ eps * m <= s /\ eta <= s
  /\ u * s <= s / 64 /\ eps * s <= s / 64 /\ s <= Omega / 32.
Proof using m_pos m_fits eps_small.
  pose proof u_small. pose proof eta_small. pose proof Omega_large.
  unfold s, unit_error.
  assert (0 <= (u + eps) * m + eta) by nra.
  repeat split; try nra.
Qed.

(** One rounding after an error [k * s] on a value of magnitude at most
    [j * m]. *)
Lemma rnd_step (x y k j : R) :
  0 <= k <= 16 -> 0 <= j <= 1 ->
  Rabs (x - y) <= k * s -> Rabs y <= j * m ->
  Rabs (rnd x - y) <= (k + j + k / 64 + 1) * s.
Proof using m_pos m_fits eps_small rnd_near.
  intros Hk Hj Hxy Hy.
  destruct s_facts as (Hs & Hum & Hem & Heta & Hus & Hes & HsO).
  assert (Rabs x <= j * m + k * s) as Hx.
  { replace x with (y + (x - y)) by ring.
    eapply Rle_trans; [apply Rabs_triang|]. lra. }
  assert (Rabs x <= Omega) as HxO by nra.
  pose proof (rnd_near x HxO) as Hr.
  replace (rnd x - y) with ((rnd x - x) + (x - y)) by ring.
  eapply Rle_trans; [apply Rabs_triang|].
  assert (u * Rabs x <= j * s + k * (s / 64)).
  { pose proof u_small.
    assert (u * Rabs x <= u * (j * m + k * s)) by nra.
    nra. }
  lra.
Qed.

(** A rounded product of a half size, known within [s], and a cosine or
    a sine, known within [eps]. *)
Lemma product_step (p p0 t t0 : R) :
  Rabs (p - p0) <= s -> Rabs p0 <= m / 2 ->
  Rabs (t - t0) <= eps -> Rabs t0 <= 1 ->
  Rabs (rnd (p * t) - p0 * t0) <= 4 * s.
Proof using m_pos m_fits eps_small rnd_near.
  intros Hp Hp0 Ht Ht0.
  destruct s_facts as (Hs & Hum & Hem & Heta & Hus & Hes & HsO).
  assert (Rabs (p * t - p0 * t0) <= 2 * s) as Hpt.
  { replace (p * t - p0 * t0) with ((p - p0) * t + p0 * (t - t0)) by ring.
    eapply Rle_trans; [apply Rabs_triang|]. rewrite !Rabs_mult.
    assert (Rabs t <= 1 + eps).
    { replace t with (t0 + (t - t0)) by ring.
      eapply Rle_trans; [apply Rabs_triang|]. lra. }
    pose proof (Rabs_pos (p - p0)). pose proof (Rabs_pos p0).
    pose proof (Rabs_pos t). pose proof (Rabs_pos (t - t0)).
    assert (Rabs (p - p0) * Rabs t <= s * (1 + eps)) by nra.
    assert (Rabs p0 * Rabs (t - t0) <= m / 2 * eps) by nra.
    nra. }
  assert (Rabs (p0 * t0) <= / 2 * m) as Hy.
  { rewrite Rabs_mult. pose proof (Rabs_pos p0). pose proof (Rabs_pos t0).
    nra. }
  pose proof (rnd_step (p * t) (p0 * t0) 2 (/ 2) ltac:(lra) ltac:(lra)
                Hpt Hy) as Hr.
  lra.
Qed.

(** The rounded sum or difference of two such products. *)
Lemma sum_step (op : R -> R -> R) (q1 q2 q01 q02 : R) :
  (forall a b c d, op a b - op c d = (a - c) + (op 0 b - op 0 d))
  /\ (forall b d, Rabs (op 0 b - op 0 d) = Rabs (b - d))
  /\ (forall b, Rabs (op 0 b) = Rabs b) /\ (forall a b, op a b = a + op 0 b) ->
  Rabs (q1 - q01) <= 4 * s -> Rabs (q2 - q02) <= 4 * s ->
  Rabs q01 + Rabs q02 <= m ->
  Rabs (rnd (op q1 q2) - op q01 q02) <= 11 * s.
Proof using m_pos m_fits eps_small rnd_near.
  intros (Hop & Hop0 & Hop1 & Hop2) H1 H2 Hm.
  destruct s_facts as (Hs & Hum & Hem & Heta & Hus & Hes & HsO).
  assert (Rabs (op q1 q2 - op q01 q02) <= 8 * s) as Hd.
  { rewrite Hop. eapply Rle_trans; [apply Rabs_triang|]. rewrite Hop0. lra. }
  assert (Rabs (op q01 q02) <= 1 * m) as Hy.
  { rewrite Hop2. eapply Rle_trans; [apply Rabs_triang|]. rewrite Hop1. lra. }
  pose proof (rnd_step _ _ 8 1 ltac:(lra) ltac:(lra) Hd Hy) as Hr.
  lra.
Qed.

Lemma plus_op :
  (forall a b c d : R, (a + b) - (c + d) = (a - c) + ((0 + b) - (0 + d)))
  /\ (forall b d : R, Rabs ((0 + b) - (0 + d)) = Rabs (b - d))
  /\ (forall b : R, Rabs (0 + b) = Rabs b)
  /\ (forall a b : R, a + b = a + (0 + b)).
Proof.
  repeat split; intros; try ring; f_equal; ring.
Qed.

Lemma minus_op :
  (forall a b c d : R, (a - b) - (c - d) = (a - c) + ((0 - b) - (0 - d)))
  /\ (forall b d : R, Rabs ((0 - b) - (0 - d)) = Rabs (b - d))
  /\ (forall b : R, Rabs (0 - b) = Rabs b)
  /\ (forall a b : R, a - b = a + (0 - b)).
Proof.
  repeat split; intros; try ring.
  - replace (0 - b - (0 - d)) with (- (b - d)) by ring. apply Rabs_Ropp.
  - replace (0 - b) with (- b) by ring. apply Rabs_Ropp.
Qed.

(** The last rounding: the centre plus the rotated offset. *)
Lemma centre_step (c r r0 : R) :
  Rabs (r - r0) <= 11 * s -> Rabs c + Rabs r0 <= m ->
  Rabs (rnd (c + r) - (c + r0)) <= 14 * s.
Proof using m_pos m_fits eps_small rnd_near.
  intros Hr Hm.
  destruct s_facts as (Hs & Hum & Hem & Heta & Hus & Hes & HsO).
  assert (Rabs (c + r - (c + r0)) <= 11 * s) as Hd.
  { by replace (c + r - (c + r0)) with (r - r0) by ring. }
  assert (Rabs (c + r0) <= 1 * m) as Hy.
  { eapply Rle_trans; [apply Rabs_triang|]. lra. }
  pose proof (rnd_step _ _ 11 1 ltac:(lra) ltac:(lra) Hd Hy) as Hx.
  lra.
Qed.

(** One corner: both coordinates are within [14 * s] of the exact
    ones. *)
Lemma corner_close (cx cy px py px0 py0 a : R) :
  Rabs (px - px0) <= s -> Rabs (py - py0) <= s ->
  Rabs px0 <= m / 2 -> Rabs py0 <= m / 2 ->
  Rabs cx + Rabs cy + Rabs px0 + Rabs py0 <= m ->
  let c := libm_cos a in
  let sn := libm_sin a in
  Rabs (rnd (cx + rnd (rnd (px * c) - rnd (py * sn)))
        - (cx + (px0 * cos a - py0 * sin a))) <= 14 * s
  /\ Rabs (rnd (cy + rnd (rnd (px * sn) + rnd (py * c)))
           - (cy + (px0 * sin a + py0 * cos a))) <= 14 * s.
Proof using m_pos m_fits eps_small rnd_near cos_near sin_near.
  intros Hpx Hpy Hpx0 Hpy0 Hm c sn.
  pose proof (COS_bound a) as [Hc1 Hc2]. pose proof (SIN_bound a) as [Hs1 Hs2].
  assert (Rabs (cos a) <= 1) as Hcos by (apply Rabs_le; lra).
  assert (Rabs (sin a) <= 1) as Hsin by (apply Rabs_le; lra).
  pose proof (Rabs_pos cx). pose proof (Rabs_pos cy).
  pose proof (Rabs_pos px0). pose proof (Rabs_pos py0).
  assert (forall p t, Rabs t <= 1 -> Rabs (p * t) <= Rabs p) as Hprod.
  { intros p t Ht. rewrite Rabs_mult. pose proof (Rabs_pos p).
    pose proof (Rabs_pos t). nra. }
  pose proof (Hprod px0 _ Hcos). pose proof (Hprod px0 _ Hsin).
  pose proof (Hprod py0 _ Hcos). pose proof (Hprod py0 _ Hsin).
  split.
  - apply centre_step.
    + apply (sum_step Rminus); [exact minus_op | | |lra].
      * apply product_step; [done..|apply cos_near|done].
      * apply product_step; [done..|apply sin_near|done].
    + assert (Rabs (px0 * cos a - py0 * sin a)
              <= Rabs (px0 * cos a) + Rabs (py0 * sin a)).
      { replace (px0 * cos a - py0 * sin a)
          with (px0 * cos a + - (py0 * sin a)) by ring.
        eapply Rle_trans; [apply Rabs_triang|]. rewrite Rabs_Ropp. lra. }
      lra.
  - apply centre_step.
    + apply (sum_step Rplus); [exact plus_op | | |lra].
      * apply product_step; [done..|apply sin_near|done].
      * apply product_step; [done..|apply cos_near|done].
    + pose proof (Rabs_triang (px0 * sin a) (py0 * cos a)). lra.
Qed.

End Magnitude.

(** The corners [rotate_points] computes in rounded arithmetic reproduce
    the box within fourteen error units of its magnitude. *)
Lemma rotate_points_close (cx cy w h a : R) :
  let m := Rabs cx + Rabs cy + Rabs w + Rabs h in
  m <= Omega / 4 ->
  exists corners,
    rotate_points (H := Rounded_Float rnd libm_cos libm_sin) cx cy w h a
    = Ok corners
    /\ obb_reproduced_within (14 * unit_error eps m) cx cy w h a corners.
Proof using rnd_near cos_near sin_near eps_small.
  intros m Hm.
  pose proof (Rabs_pos cx). pose proof (Rabs_pos cy).
  pose proof (Rabs_pos w). pose proof (Rabs_pos h).
  assert (0 <= m) as Hm0 by (unfold m; lra).
  destruct (s_facts m Hm0 Hm) as (Hs & Hum & Hem & Heta & Hus & Hes & HsO).
  pose proof u_small as Hu. pose proof Omega_large as HO.
  assert (u * m + eta <= unit_error eps m) as Hue.
  { unfold unit_error. destruct eps_small. nra. }
  set (s := unit_error eps m) in *.
  assert (forall v, Rabs v <= m ->
            Rabs (rnd (v / 2) - v / 2) <= s /\ Rabs (v / 2) <= m / 2
            /\ Rabs (v / 2) = Rabs v / 2) as Hhalf.
  { intros v Hv.
    assert (Rabs (v / 2) = Rabs v / 2) as Hv2.
    { unfold Rdiv. rewrite Rabs_mult, (Rabs_pos_eq (/ 2)); lra. }
    split; [|split; [lra|done]].
    eapply Rle_trans; [apply rnd_near; lra|]. pose proof (Rabs_pos v).
    rewrite Hv2. nra. }
  destruct (Hhalf w ltac:(unfold m; lra)) as (Hw & Hw2 & Hw3).
  destruct (Hhalf h ltac:(unfold m; lra)) as (Hh & Hh2 & Hh3).
  set (hw := rnd (w / 2)) in *. set (hh := rnd (h / 2)) in *.
  assert (forall p p0, Rabs (p - p0) <= s -> Rabs (- p - - p0) <= s) as Hneg.
  { intros p p0 Hp. replace (- p - - p0) with (- (p - p0)) by ring.
    by rewrite Rabs_Ropp. }
  assert (Rabs cx + Rabs cy + Rabs (w / 2) + Rabs (h / 2) <= m) as Hsum.
  { unfold m. lra. }
  destruct (corner_close m Hm0 Hm cx cy (- hw) (- hh) (- (w / 2)) (- (h / 2)) a)
    as [Hx1 Hy1]; rewrite ?Rabs_Ropp; auto.
  destruct (corner_close m Hm0 Hm cx cy hw (- hh) (w / 2) (- (h / 2)) a)
    as [Hx2 Hy2]; rewrite ?Rabs_Ropp; auto.
  destruct (corner_close m Hm0 Hm cx cy hw hh (w / 2) (h / 2) a)
    as [Hx3 Hy3]; rewrite ?Rabs_Ropp; auto.
  destruct (corner_close m Hm0 Hm cx cy (- hw) hh (- (w / 2)) (h / 2) a)
    as [Hx4 Hy4]; rewrite ?Rabs_Ropp; auto.
  cbv zeta in *. fold s in Hx1, Hy1, Hx2, Hy2, Hx3, Hy3, Hx4, Hy4.
  unfold rotate_points, cos_or_raise, sin_or_raise.
  cbn [math_cos math_sin fadd fsub fmul fdiv fneg two Rounded_Float rbind map].
  fold hw hh.
  eexists. split; [reflexivity|].
  eexists _, _, _, _, _, _, _, _. split; [reflexivity|].
  apply Rabs_bound in Hx1, Hy1, Hx2, Hy2, Hx3, Hy3, Hx4, Hy4.
  pose proof (sin2_cos2 a) as Hsc. unfold Rsqr in Hsc.
  split; [apply Rabs_le; lra|]. split; [apply Rabs_le; lra|].
  split; [|split; [|split; apply Rabs_le; lra]].
  - intros Hw0.
    eapply Rle_trans;
      [apply (edge_length (w * cos a) (w * sin a) _ _ w (28 * s));
       [nra | lra | apply Rabs_le; lra | apply Rabs_le; lra]|lra].
  - intros Hh0.
    eapply Rle_trans;
      [apply (edge_length (- (h * sin a)) (h * cos a) _ _ h (28 * s));
       [nra | lra | apply Rabs_le; lra | apply Rabs_le; lra]|lra].
Qed.

End RotationTolerance.

Section Overflow.

Import Binary64 Binary64Float.

(** Near the largest float the corners overflow: for a box whose
    centre and sizes are the largest float and whose angle is 0, of which
    the cosine is 1 and the sine 0, the second corner lies at infinity. *)
Example rotate_points_overflows libm_cos libm_sin parse format :
  libm_cos (S754_zero false) = Some (of_Z 1) ->
  libm_sin (S754_zero false) = Some (S754_zero false) ->
  ConvertObbLabelsToCorners.rotate_points
    (H := B64_Float libm_cos libm_sin parse format)
    largest largest largest largest (S754_zero false)
  = Ok [(S754_finite false 9007199254740991 970,
         S754_finite false 9007199254740991 970);
        (S754_infinity false, S754_finite false 9007199254740991 970);
        (S754_infinity false, S754_infinity false);
        (S754_finite false 9007199254740991 970, S754_infinity false)].
Proof.
  intros Hcos Hsin.
  unfold ConvertObbLabelsToCorners.rotate_points,
    ConvertObbLabelsToCorners.cos_or_raise,
    ConvertObbLabelsToCorners.sin_or_raise.
  cbn [ConvertObbLabelsToCorners.math_cos ConvertObbLabelsToCorners.math_sin
       B64_Float].
  rewrite Hcos, Hsin. vm_compute. reflexivity.
Qed.

End Overflow.

(** C2, as amended.  For the axis-aligned converter and normalised
    inputs (coordinates and sizes between 0 and 1, written with at most
    26 decimal places), the corners reproduce the box exactly: the
    extents are the sizes and the midpoints the centre.  For the oriented
    converter, in arithmetic that rounds to the nearest float, with a
    cosine and a sine accurate within [eps] and inputs far from overflow,
    the corners reproduce the box within a tolerance [T] of fourteen
    error units: the mean of the corners is within [T] of the centre, the
    first two edges have the width and the height as lengths within
    [4 * T], and the first edge is the width in the direction of the
    angle within [2 * T]. *)
Theorem corners_reproduce_box :
  (forall x_center y_center width height,
     normalized x_center -> normalized y_center ->
     normalized width -> normalized height ->
     exists x_min x_max y_min y_max,
       ConvertYoloBboxToPolygon.polygon_values x_center y_center width height
       = Ok [x_min; x_max; x_max; x_min; y_min; y_min; y_max; y_max]
       /\ box_reproduced
            (ConvertYoloBboxToPolygon.value x_center)
            (ConvertYoloBboxToPolygon.value y_center)
            (ConvertYoloBboxToPolygon.value width)
            (ConvertYoloBboxToPolygon.value height)
            (ConvertYoloBboxToPolygon.value x_min)
            (ConvertYoloBboxToPolygon.value x_max)
            (ConvertYoloBboxToPolygon.value y_min)
            (ConvertYoloBboxToPolygon.value y_max))
  /\ (forall (rnd libm_cos libm_sin : R -> R) (eps : R),
        (forall x, Rabs x <= RoundedFloat.Omega ->
           Rabs (rnd x - x) <= RoundedFloat.u * Rabs x + RoundedFloat.eta) ->
        (forall x, Rabs (libm_cos x - cos x) <= eps) ->
        (forall x, Rabs (libm_sin x - sin x) <= eps) ->
        0 <= eps <= / 64 ->
        forall cx cy w h a : R,
          Rabs cx + Rabs cy + Rabs w + Rabs h <= RoundedFloat.Omega / 4 ->
          exists corners,
            ConvertObbLabelsToCorners.rotate_points
              (H := RoundedFloat.Rounded_Float rnd libm_cos libm_sin)
              cx cy w h a
            = Ok corners
            /\ obb_reproduced_within
                 (14 * unit_error eps (Rabs cx + Rabs cy + Rabs w + Rabs h))
                 cx cy w h a corners)%R.
Proof.
  split.
  - apply polygon_values_exact.
  - intros rnd libm_cos libm_sin eps Hrnd Hcos Hsin Heps cx cy w h a Hm.
    by apply rotate_points_close.
Qed.

Section DecimalExamples.

Import ConvertYoloBboxToPolygon.

Definition dec (c : N) (e : Z) : Decimal :=
  {| sign := false; coeff := c; exp := e |}.

Example to_polygon_example :
  to_polygon (lit "3") (dec 5 (-1)) (dec 5 (-1)) (dec 2 (-1)) (dec 1 (-1))
  = Ok (lit "3 0.4 0.6 0.6 0.4 0.45 0.45 0.55 0.55").
Proof. vm_compute. reflexivity. Qed.

(** C2, as first stated, fails for the axis-aligned converter on a size
    of thirty decimal places: the two edges round to the centre, and
    their difference, zero, is not the width. *)
Lemma polygon_values_rounds :
  let c := dec (10 ^ 27) (-27) in
  polygon_values (dec 1 0) (dec 1 0) (dec 1 (-30)) (dec 1 (-30))
  = Ok [c; c; c; c; c; c; c; c]
  /\ ~ (value c - value c == value (dec 1 (-30)))%Q.
Proof.
  split; [vm_compute; reflexivity|].
  intros Heq. vm_compute in Heq. discriminate.
Qed.

Lemma corners_reproduce_box_witness :
  normalized (dec 5 (-1)) /\ normalized (dec 2 (-1)) /\ normalized (dec 1 (-1))
  /\ (exists x_min x_max y_min y_max,
        polygon_values (dec 5 (-1)) (dec 5 (-1)) (dec 2 (-1)) (dec 1 (-1))
        = Ok [x_min; x_max; x_max; x_min; y_min; y_min; y_max; y_max]
        /\ box_reproduced (value (dec 5 (-1))) (value (dec 5 (-1)))
             (value (dec 2 (-1))) (value (dec 1 (-1)))
             (value x_min) (value x_max) (value y_min) (value y_max))
  /\ (exists corners,
        ConvertObbLabelsToCorners.rotate_points
          (H := RoundedFloat.Rounded_Float RoundedFloat.to_grid cos sin)
          (/ 2) (/ 2) (/ 5) (/ 10) (PI / 2)
        = Ok corners
        /\ obb_reproduced_within
             (14 * unit_error 0
                     (Rabs (/ 2) + Rabs (/ 2) + Rabs (/ 5) + Rabs (/ 10)))
             (/ 2) (/ 2) (/ 5) (/ 10) (PI / 2) corners)%R.
Proof.
  assert (forall c, (c <= 10)%N -> normalized (dec c (-1))) as Hn.
  { intros c Hc. unfold normalized, dec. cbn [sign exp coeff].
    change (10 ^ Z.to_N (- -1))%N with 10%N. lia. }
  split; [apply Hn; lia|]. split; [apply Hn; lia|]. split; [apply Hn; lia|].
  split.
  - apply (proj1 corners_reproduce_box); apply Hn; lia.
  - apply (proj2 corners_reproduce_box RoundedFloat.to_grid cos sin 0%R).
    + intros x _. apply to_grid_near.
    + intros x. rewrite Rminus_diag, Rabs_R0. lra.
    + intros x. rewrite Rminus_diag, Rabs_R0. lra.
    + lra.
    + pose proof Omega_large. rewrite !Rabs_pos_eq by lra. lra.
Defined.

End DecimalExamples.

(** * Part III: more of the code *)

(** ** More on words and lines *)

Lemma join_snoc sep (ps : list text) (t : text) :
  join sep (ps ++ [t]) =
    match ps with [] => t | _ => join sep ps ++ sep ++ t end.
Proof.
  induction ps as [|p ps IH]; [done|].
  destruct ps as [|q ps]; [done|].
  change ((p :: q :: ps) ++ [t]) with (p :: (q :: ps) ++ [t]).
  cbn [app]. rewrite !join_cons2. cbn [app] in IH. rewrite IH.
  by rewrite <-!app_assoc.
Qed.

Lemma lstrip_not_space c s : isspace c = false -> lstrip (c :: s) = c :: s.
Proof. intros Hc. cbn. by rewrite Hc. Qed.

(** Lines joined end with the last character of the last line. *)
Lemma join_last sep (ls : list text) (l : text) (c : N) :
  exists s, join sep (ls ++ [l ++ [c]]) = s ++ [c].
Proof.
  rewrite join_snoc. destruct ls.
  - by exists l.
  - eexists. by rewrite !app_assoc.
Qed.

Lemma token_last t : is_token t -> exists t0 c, t = t0 ++ [c] /\ isspace c = false.
Proof.
  intros [Hne Hsp]. destruct (exists_last Hne) as (t0 & c & ->).
  apply Forall_app in Hsp as [_ Hc]. exists t0, c. split; [done|].
  by inversion Hc.
Qed.

Lemma join_tokens_last parts :
  Forall is_token parts -> parts <> [] ->
  exists s c, join [SP] parts = s ++ [c] /\ isspace c = false.
Proof.
  intros Htok Hne. destruct (exists_last Hne) as (init & t & ->).
  apply Forall_app in Htok as [_ Ht]. inversion Ht as [|? ? Htt _]; subst.
  destruct (token_last t Htt) as (t0 & c & -> & Hc).
  destruct (join_last [SP] init t0 c) as [s Hs]. by exists s, c.
Qed.

(** Fields joined by single spaces have nothing to strip. *)
Lemma strip_join_tokens parts :
  Forall is_token parts -> strip (join [SP] parts) = join [SP] parts.
Proof.
  intros Htok. destruct parts as [|p ps]; [done|].
  unfold strip.
  assert (exists c s, join [SP] (p :: ps) = c :: s /\ isspace c = false)
    as (c & s & Hs & Hc).
  { inversion Htok as [|? ? [Hne Hp] _]; subst.
    destruct p as [|c p]; [done|]. inversion Hp; subst.
    destruct ps; cbn; eauto. }
  rewrite Hs, (lstrip_not_space _ _ Hc), <-Hs. unfold rstrip.
  destruct (join_tokens_last (p :: ps) Htok ltac:(done)) as (s' & c' & Hr & Hc').
  rewrite Hr, rev_app_distr. cbn [rev app].
  rewrite (lstrip_not_space _ _ Hc').
  change (c' :: rev s') with (rev [c'] ++ rev s').
  by rewrite <-rev_app_distr, rev_involutive.
Qed.

Lemma endswith_app_lf s : endswith (s ++ [LF]) [LF] = true.
Proof.
  unfold endswith. apply bool_decide_eq_true.
  rewrite length_app. cbn [length].
  replace (length s + 1 - 1) with (length s) by lia.
  by rewrite drop_app_length.
Qed.

Lemma endswith_last s c : c <> LF -> endswith (s ++ [c]) [LF] = false.
Proof.
  intros Hc. unfold endswith. apply bool_decide_eq_false.
  rewrite length_app. cbn [length].
  replace (length s + 1 - 1) with (length s) by lia.
  rewrite drop_app_length. congruence.
Qed.

(** Lines of fields, joined, do not end in a line feed. *)
Lemma endswith_join_lines (ls : list text) :
  Forall (fun l => exists parts, Forall is_token parts /\ parts <> []
                                 /\ l = join [SP] parts) ls ->
  endswith (join [LF] ls) [LF] = false.
Proof.
  intros Hls. destruct (decide (ls = [])) as [->|Hne]; [done|].
  destruct (exists_last Hne) as (init & l & ->).
  apply Forall_app in Hls as [_ Hl].
  inversion Hl as [|? ? (parts & Htok & Hp & ->) _]; subst.
  destruct (join_tokens_last parts Htok Hp) as (s & c & -> & Hc).
  destruct (join_last [LF] init s c) as [s' ->].
  apply endswith_last. by intros ->.
Qed.

(** *** More on [rewrite_file] *)

Section NormalizerMore.

Import ConvertLabelIndices.

(** A line that [rewrite_file] has to rewrite: not blank, with a class
    that is not ["0"] or with more than five fields. *)
Definition needs_rewrite (line : text) : Prop :=
  strip line <> []
  /\ (head (split line) <> Some (lit "0") \/ 5 < length (split line)).

Lemma norm_line_changes line :
  (norm_line line).2 = true <-> needs_rewrite line.
Proof.
  unfold norm_line, needs_rewrite. case_bool_decide as Hblank; cbn [snd].
  - split; [done | by intros [? _]].
  - unfold fields_change. rewrite orb_true_iff, !bool_decide_eq_true.
    split; [by intros ? | by intros [_ ?]].
Qed.

Lemma changes_iff text :
  changes text = true <-> Exists needs_rewrite (splitlines text).
Proof.
  unfold changes. rewrite existsb_exists, Exists_exists. split.
  - intros (l & Hin & Hl). exists l.
    split; [by apply list_elem_of_In | by apply norm_line_changes].
  - intros (l & Hin & Hl). exists l.
    split; [by apply list_elem_of_In | by apply norm_line_changes].
Qed.

(** The dry run writes nothing, and reports what the run that writes
    reports. *)
Theorem rewrite_file_dry_run path d :
  (rewrite_file path true d).2 = d
  /\ forall c d1, rewrite_file path false d = (Ok c, d1) ->
                  rewrite_file path true d = (Ok c, d).
Proof.
  rewrite !rewrite_file_eq.
  destruct (node_at d path) as [[|text]|]; [done| |done].
  rewrite andb_false_r. split; [done|]. cbn [negb]. rewrite andb_true_r.
  intros c d1. destruct (changes text); [|by intros [= <- _]].
  destruct (write_text _ _ d) as [[[]|e] d']; [|done]. by intros [= <- _].
Qed.

(** [rewrite_file] reports a change exactly when a line needs one, and
    a file it reports as unchanged is not written. *)
Theorem rewrite_file_changed path dry_run d text c d1 :
  node_at d path = Some (File text) ->
  rewrite_file path dry_run d = (Ok c, d1) ->
  (c = true <-> Exists needs_rewrite (splitlines text))
  /\ (c = false -> d1 = d).
Proof.
  intros Hnode. rewrite rewrite_file_eq, Hnode, <-changes_iff.
  destruct (changes text) eqn:Hch; cbn [andb].
  - destruct (negb dry_run).
    + destruct (write_text _ _ d) as [[[]|e] d']; [|done].
      intros [= <- <-]. done.
    + intros [= <- <-]. done.
  - intros [= <- <-]. done.
Qed.

(** [rewrite_file] touches the file it is given and nothing else: the
    other paths keep what they lead to, the file stays a file, and a path
    that is no file gives an error without a write. *)
Theorem rewrite_file_frame path dry_run d :
  let r := rewrite_file path dry_run d in
  (forall q, q <> path -> r.2 !! q = d !! q)
  /\ (forall text, node_at d path = Some (File text) ->
        exists text', node_at r.2 path = Some (File text'))
  /\ (node_at d path = None -> r = (Raise FileNotFoundError, d))
  /\ (node_at d path = Some Dir -> r = (Raise IsADirectoryError, d)).
Proof.
  cbv zeta. rewrite rewrite_file_eq.
  destruct (node_at d path) as [[|text]|] eqn:Hnode.
  - repeat split; try done.
  - assert (forall q, q <> path ->
              (write_text path (new_text_of text) d).2 !! q = d !! q) as Hother.
    { intros q Hq. unfold write_text. rewrite Hnode.
      destruct (node_at d (parent path)) as [[|?]|]; [|done..].
      cbn. by rewrite lookup_insert_ne. }
    assert (exists text',
              node_at (write_text path (new_text_of text) d).2 path
              = Some (File text')) as Hfile.
    { unfold write_text. rewrite Hnode.
      destruct (node_at d (parent path)) as [[|?]|]; cbn; [|by eexists..].
      exists (new_text_of text). destruct path; [done|].
      cbn. by rewrite lookup_insert_eq. }
    destruct (changes text && negb dry_run).
    + destruct (write_text _ _ d) as [[[]|e] d']; cbn in *;
        repeat split; try done.
    + cbn. repeat split; try done. intros ? _. by eexists.
  - repeat split; try done.
Qed.

End NormalizerMore.

Lemma rewrite_file_changed_witness :
  let p := ["labels"; "a.txt"]%string in
  let r := ConvertLabelIndices.rewrite_file p false disk_example in
  (r.1 = Ok true <-> Exists needs_rewrite (splitlines labels_example)).
Proof.
  cbv zeta.
  destruct (rewrite_file_changed ["labels"; "a.txt"]%string false disk_example
              labels_example true
              (ConvertLabelIndices.rewrite_file ["labels"; "a.txt"]%string
                 false disk_example).2) as [Hiff _].
  - reflexivity.
  - apply pair_eq_fst. vm_compute. reflexivity.
  - split; [intros _; by apply Hiff|].
    intros _. vm_compute. reflexivity.
Defined.

(** ** More on the sync tool *)

Section SyncLabelMore.

Import SyncToYoloObb.

Variable angle_value : text.

Hypothesis angle_token : is_token angle_value.

Lemma sync_fields_again parts :
  sync_fields angle_value (sync_fields angle_value parts)
  = sync_fields angle_value parts.
Proof.
  unfold sync_fields.
  destruct parts as [|p0 [|p1 [|p2 [|p3 [|p4 [|p5 rest]]]]]]; try done.
Qed.

(** A line [normalize_label] has written is written again as it is. *)
Lemma sync_line_again parts :
  Forall is_token parts -> parts <> [] ->
  let o := join [SP] (sync_fields angle_value parts) in
  not_blank o = true
  /\ join [SP] (sync_fields angle_value (split o)) = o.
Proof using angle_token.
  intros Htok Hne. cbv zeta.
  pose proof (sync_fields_tokens angle_value angle_token _ Htok) as Hq.
  pose proof (sync_fields_not_nil angle_value _ Hne) as Hqne.
  rewrite split_join by done. split; [|by rewrite sync_fields_again].
  unfold not_blank. apply negb_true_iff, bool_decide_eq_false.
  by rewrite strip_nil_iff, split_join.
Qed.

(** [normalize_label] is idempotent: the text it returns is a text it
    leaves as it is. *)
Theorem normalize_label_idempotent text :
  normalize_label (normalize_label text angle_value) angle_value
  = normalize_label text angle_value.
Proof using angle_token.
  set (g := fun l => join [SP] (sync_fields angle_value (split l))).
  set (out := map g (List.filter not_blank (splitlines text))).
  assert (normalize_label text angle_value
          = if endswith text [LF] && negb (bool_decide (out = []))
            then join [LF] out ++ [LF] else join [LF] out) as Hfirst.
  { unfold normalize_label. by rewrite normalize_lines_eq. }
  assert (Forall (fun o => exists parts, Forall is_token parts /\ parts <> []
                                         /\ o = g (join [SP] parts)
                                         /\ o = join [SP]
                                                  (sync_fields angle_value parts))
            out) as Hout.
  { apply Forall_map, Forall_forall. intros l Hl.
    apply list_elem_of_In, filter_In in Hl as [_ Hl].
    unfold not_blank in Hl. apply negb_true_iff, bool_decide_eq_false in Hl.
    rewrite strip_nil_iff in Hl.
    exists (split l). split; [apply split_tokens|]. split; [done|].
    unfold g. by rewrite (split_join _ (split_tokens l)). }
  assert (map g (List.filter not_blank out) = out) as Hsame.
  { clear Hfirst. induction Hout as [|o os (parts & Htok & Hne & _ & ->) _ IH];
      [done|].
    destruct (sync_line_again parts Htok Hne) as [Hnb Hg].
    cbn [List.filter]. rewrite Hnb. cbn [map].
    f_equal; [exact Hg | exact IH]. }
  assert (endswith (normalize_label text angle_value) [LF]
          = endswith text [LF] && negb (bool_decide (out = []))) as Hend.
  { rewrite Hfirst.
    destruct (endswith text [LF] && negb (bool_decide (out = [])));
      [apply endswith_app_lf|].
    apply endswith_join_lines. eapply Forall_impl; [exact Hout|].
    intros o (parts & Htok & Hne & _ & ->).
    exists (sync_fields angle_value parts).
    split; [by apply sync_fields_tokens|].
    split; [by apply sync_fields_not_nil | done]. }
  unfold normalize_label at 1. rewrite normalize_lines_eq. cbn [app].
  rewrite (normalize_label_lines angle_value angle_token text), Hend.
  fold g. fold out. rewrite Hsame, Hfirst.
  by destruct (endswith text [LF]), (bool_decide (out = [])).
Qed.

End SyncLabelMore.

Lemma normalize_label_idempotent_witness :
  SyncToYoloObb.normalize_label
    (SyncToYoloObb.normalize_label source_label_example (lit "0.0"))
    (lit "0.0")
  = SyncToYoloObb.normalize_label source_label_example (lit "0.0").
Proof.
  apply (normalize_label_idempotent (lit "0.0")).
  split; [done|]. repeat constructor.
Defined.

(** *** What a run leaves alone, and what it counts *)

Lemma write_text_disk (p : Path) (c : text) (d : disk) r d' :
  write_text p c d = (r, d') -> d' = d \/ d' = <[p := File c]> d.
Proof.
  unfold write_text. destruct (node_at d p) as [[|?]|];
    destruct (node_at d (parent p)) as [[|?]|]; intros [= <- <-]; auto.
Qed.

Lemma copy2_disk (src dst : Path) (d : disk) r d' :
  copy2 src dst d = (r, d') ->
  d' = d
  \/ exists c dst', d' = <[dst' := File c]> d
                    /\ (dst' = dst \/ dst' = child dst (name src)).
Proof.
  unfold copy2.
  set (dst' := if bool_decide (node_at d dst = Some Dir)
               then child dst (name src) else dst).
  destruct (bool_decide (src = dst') && _); [intros [= <- <-]; by left|].
  unfold bind. pose proof (read_text_disk src d) as Hrd.
  destruct (read_text src d) as [[c|e] d0]; cbn in Hrd; subst d0;
    [|intros [= <- <-]; by left].
  intros [-> | ->]%write_text_disk; [by left|]. right.
  exists c, dst'. split; [done|]. unfold dst'. case_bool_decide; auto.
Qed.

(** Every entry of [d] is in [d'], as it was. *)
Definition kept (d d' : disk) : Prop :=
  forall p x, d !! p = Some x -> d' !! p = Some x.

Lemma kept_refl d : kept d d.
Proof. by intros p x. Qed.

Lemma kept_mkdir_parents (d dk : disk) (p : Path) r dk' :
  kept d dk -> mkdir_parents p dk = (r, dk') -> kept d dk'.
Proof.
  intros Hk Hrun q x Hq.
  destruct (mkdir_parents_spec _ _ _ _ Hrun) as [Hm _].
  destruct (Hm q) as [->|[Hnone _]]; [by apply Hk|].
  apply Hk in Hq. congruence.
Qed.

Lemma kept_insert (d dk : disk) (p : Path) (x : node) :
  kept d dk -> d !! p = None -> kept d (<[p := x]> dk).
Proof.
  intros Hk Hp q y Hq. rewrite lookup_insert_ne by congruence. by apply Hk.
Qed.

Section SyncRunsMore.

Import SyncToYoloObb.

Variable args : Args.

Variables (source_imgs source_lbls : gmap string Path).
Variables (target_img_split target_lbl_split : gmap string split_name).

(** Has the loop an image, a label, to copy for a stem? *)
Definition image_missing (s : string) : bool :=
  bool_decide (target_img_split !! s = None /\ is_Some (source_imgs !! s)).

Definition label_missing (s : string) : bool :=
  bool_decide (target_lbl_split !! s = None /\ is_Some (source_lbls !! s)).

Abbreviation copy_stem' :=
  (copy_stem args source_imgs source_lbls target_img_split target_lbl_split).

Ltac run_step H :=
  match type of H with
  | (let (_, _) := ?m in _) = _ => destruct m as [[?|?] ?]; [|done]
  end.

Lemma copy_stem_counts st s d st' d' :
  copy_stem' st s d = (Ok st', d') ->
  added_imgs st' = added_imgs st + (if image_missing s then 1 else 0)
  /\ added_lbls st' = added_lbls st + (if label_missing s then 1 else 0).
Proof.
  unfold copy_stem, bind, image_missing, label_missing.
  match goal with |- context [let (_, _) := ?m d in _] =>
    destruct (m d) as [[k_img|e] d1] eqn:Himg; [|done] end.
  match goal with |- context [let (_, _) := ?m d1 in _] =>
    destruct (m d1) as [[k_lbl|e] d2] eqn:Hlbl; [|done] end.
  intros [= <- <-]. cbn [added_imgs added_lbls]. split.
  - destruct (target_img_split !! s), (source_imgs !! s);
      try (injection Himg as <- <-;
           rewrite bool_decide_false by (intros [? [? ?]]; done); lia).
    rewrite bool_decide_true by (split; [done | by eexists]).
    unfold bind in Himg.
    run_step Himg. run_step Himg. injection Himg as <- <-. lia.
  - destruct (target_lbl_split !! s), (source_lbls !! s);
      try (injection Hlbl as <- <-;
           rewrite bool_decide_false by (intros [? [? ?]]; done); lia).
    rewrite bool_decide_true by (split; [done | by eexists]).
    unfold bind in Hlbl.
    run_step Hlbl. run_step Hlbl. run_step Hlbl.
    injection Hlbl as <- <-. lia.
Qed.

Lemma copy_loop_counts stems st d st' d' :
  for_each stems st copy_stem' d = (Ok st', d') ->
  added_imgs st' = added_imgs st + length (List.filter image_missing stems)
  /\ added_lbls st' = added_lbls st + length (List.filter label_missing stems).
Proof.
  revert st d. induction stems as [|s stems IH]; intros st d; cbn [for_each].
  - intros [= <- <-]. cbn. lia.
  - unfold bind. destruct (copy_stem' st s d) as [[st1|e] d1] eqn:Hs; [|done].
    intros Hrest. destruct (copy_stem_counts _ _ _ _ _ Hs) as [Hi Hl].
    destruct (IH _ _ Hrest) as [Hi' Hl']. cbn [List.filter].
    destruct (image_missing s), (label_missing s); cbn [length]; lia.
Qed.

(** In a dry run, a turn of the loop leaves the disk. *)
Lemma copy_stem_dry st s d :
  dry_run args = true -> (copy_stem' st s d).2 = d.
Proof.
  intros Hdry. unfold copy_stem, bind, ensure_dir. rewrite Hdry.
  destruct (target_img_split !! s), (source_imgs !! s);
    destruct (target_lbl_split !! s), (source_lbls !! s); cbn; try done;
    match goal with |- context [read_text ?p d] =>
      pose proof (read_text_disk p d) as Hrd;
      destruct (read_text p d) as [[?|?] ?]; cbn in Hrd; by subst end.
Qed.

Lemma copy_loop_dry stems st d :
  dry_run args = true -> (for_each stems st copy_stem' d).2 = d.
Proof.
  intros Hdry. revert st. induction stems as [|s stems IH]; intros st;
    cbn [for_each]; [done|].
  unfold bind. pose proof (copy_stem_dry st s d Hdry) as Hs.
  destruct (copy_stem' st s d) as [[st1|e] d1]; cbn in Hs; subst d1; [|done].
  apply IH.
Qed.

(** The entries the loop finds on the disk [d] it started from stay as
    they are: what it writes is new. *)
Hypothesis source_imgs_ok : forall s src,
  source_imgs !! s = Some src ->
  exists n, src = child (source_images args) n
            /\ has_image_ext n = true /\ stem n = s.

Hypothesis source_lbls_ok : forall s src,
  source_lbls !! s = Some src ->
  exists n, src = child (source_labels args) n
            /\ matches_txt n = true /\ stem n = s.

Variable d : disk.

Hypothesis d_well_formed : well_formed d.

Hypothesis target_imgs_ok :
  stems_by_split d (target args) "images" = Ok target_img_split.

Hypothesis target_lbls_ok :
  stems_by_split d (target args) "labels" = Ok target_lbl_split.

Lemma fresh_in_split kind (m : gmap string split_name) sp n :
  stems_by_split d (target args) kind = Ok m ->
  keeps kind n = true -> m !! stem n = None ->
  d !! child (split_base (target args) kind sp) n = None
  /\ d !! child (child (split_base (target args) kind sp) n) n = None.
Proof using d_well_formed.
  intros Hm Hkeep Hnone.
  assert (d !! child (split_base (target args) kind sp) n = None) as Hfresh.
  { destruct (d !! child (split_base (target args) kind sp) n) as [x|] eqn:Hx;
      [|done].
    exfalso. apply (not_elem_of_dom m (stem n)) in Hnone. apply Hnone.
    apply (stems_by_split_dom _ _ _ _ _ Hm). exists sp, n.
    split; [|split; [by eexists | done]].
    specialize (d_well_formed _ ltac:(by eexists)).
    by rewrite parent_child in d_well_formed. }
  split; [done|].
  destruct (d !! child (child _ n) n) as [x|] eqn:Hx; [|done].
  specialize (d_well_formed _ ltac:(by eexists)).
  rewrite parent_child, node_at_child in d_well_formed. congruence.
Qed.

Lemma copy_stem_kept st s dk r dk' :
  kept d dk -> copy_stem' st s dk = (r, dk') -> kept d dk'.
Proof using source_imgs_ok source_lbls_ok d_well_formed target_imgs_ok
  target_lbls_ok.
  intros Hk. unfold copy_stem, bind, ensure_dir.
  set (sp := match target_img_split !! s with
             | Some s0 => s0
             | None => match target_lbl_split !! s with
                       | Some s0 => s0
                       | None => default_split args
                       end
             end).
  fold (split_base (target args) "images" sp).
  fold (split_base (target args) "labels" sp).
  match goal with |- context [let (_, _) := ?m dk in _] =>
    destruct (m dk) as [r_img dk1] eqn:Himg end.
  assert (kept d dk1) as Hk1.
  { destruct (target_img_split !! s) eqn:Ht;
      [by destruct (source_imgs !! s); injection Himg as <- <-|].
    destruct (source_imgs !! s) as [src|] eqn:Hsrc;
      [|by injection Himg as <- <-].
    destruct (source_imgs_ok _ _ Hsrc) as (n & -> & Hext & Hstem).
    rewrite name_child, parent_child in Himg. unfold bind in Himg.
    destruct (dry_run args); [by injection Himg as <- <-|].
    destruct (mkdir_parents _ dk) as [r0 dk0] eqn:Hmk.
    pose proof (kept_mkdir_parents _ _ _ _ _ Hk Hmk) as Hk0.
    destruct r0 as [[]|e]; [|by injection Himg as <- <-].
    destruct (copy2 _ _ dk0) as [r1 dk2] eqn:Hcp.
    assert (kept d dk2) as Hk2.
    { destruct (fresh_in_split "images" _ sp n target_imgs_ok Hext)
        as [Hf1 Hf2]; [by rewrite Hstem|].
      destruct (copy2_disk _ _ _ _ _ Hcp) as [->|(c & dst' & -> & Hdst)];
        [done|].
      apply kept_insert; [done|].
      destruct Hdst as [->| ->]; by rewrite ?name_child. }
    by destruct r1 as [[]|e]; injection Himg as <- <-. }
  destruct r_img as [k_img|e]; [|by intros [= <- <-]].
  match goal with |- context [let (_, _) := ?m dk1 in _] =>
    destruct (m dk1) as [r_lbl dk2] eqn:Hlbl end.
  assert (kept d dk2) as Hk2.
  { destruct (target_lbl_split !! s) eqn:Ht;
      [by destruct (source_lbls !! s); injection Hlbl as <- <-|].
    destruct (source_lbls !! s) as [src|] eqn:Hsrc;
      [|by injection Hlbl as <- <-].
    destruct (source_lbls_ok _ _ Hsrc) as (n & -> & Hext & Hstem).
    rewrite name_child, parent_child in Hlbl. unfold bind in Hlbl.
    assert (exists r0 dk0,
      (if dry_run args then ret tt
       else mkdir_parents (split_base (target args) "labels" sp)) dk1
      = (r0, dk0) /\ kept d dk0) as (r0 & dk0 & Hmk & Hk0).
    { destruct (dry_run args); [by eexists _, _|].
      destruct (mkdir_parents _ dk1) as [r0 dk0] eqn:Hmk.
      exists r0, dk0. split; [done|]. by eapply kept_mkdir_parents. }
    rewrite Hmk in Hlbl.
    destruct r0 as [[]|e]; [|by injection Hlbl as <- <-].
    pose proof (read_text_disk (child (source_labels args) n) dk0) as Hrd.
    destruct (read_text _ dk0) as [[text|e] dk0']; cbn in Hrd; subst dk0';
      [|by injection Hlbl as <- <-].
    destruct (dry_run args); [by injection Hlbl as <- <-|].
    destruct (write_text _ _ dk0) as [r1 dk3] eqn:Hw.
    assert (kept d dk3) as Hk3.
    { destruct (fresh_in_split "labels" _ sp n target_lbls_ok Hext)
        as [Hf1 _]; [by rewrite Hstem|].
      destruct (write_text_disk _ _ _ _ _ Hw) as [->| ->]; [done|].
      by apply kept_insert. }
    by destruct r1 as [[]|e]; injection Hlbl as <- <-. }
  by destruct r_lbl as [k_lbl|e]; intros [= <- <-].
Qed.

Lemma copy_loop_kept stems st dk r dk' :
  kept d dk -> for_each stems st copy_stem' dk = (r, dk') -> kept d dk'.
Proof using source_imgs_ok source_lbls_ok d_well_formed target_imgs_ok
  target_lbls_ok.
  revert st dk. induction stems as [|s stems IH]; intros st dk Hk;
    cbn [for_each].
  - by intros [= <- <-].
  - unfold bind. destruct (copy_stem' st s dk) as [r1 dk1] eqn:Hs.
    pose proof (copy_stem_kept _ _ _ _ _ Hk Hs) as Hk1.
    destruct r1 as [st1|e]; [by apply IH | by intros [= <- <-]].
Qed.

End SyncRunsMore.

Section SyncRunTheorems.

Import SyncToYoloObb.

Variable args : Args.

(** A dry run of [copy_missing] leaves the disk as it is, whether it
    returns or raises. *)
Theorem copy_missing_dry_run d :
  dry_run args = true -> (copy_missing args d).2 = d.
Proof.
  intros Hdry. unfold copy_missing, bind.
  rewrite load_source_files_eq.
  destruct (node_at d (source_images args)) as [[|c]|]; [|done..].
  rewrite !map_stems_by_split_eq.
  destruct (stems_by_split d (target args) "images") as [tis|e]; [|done].
  destruct (stems_by_split d (target args) "labels") as [tls|e]; [|done].
  by apply copy_loop_dry.
Qed.

(** [copy_missing] only adds: on a disk where every entry lies in a
    directory, what a path leads to before the run it leads to after
    it, a file with the content it had, whether the run returns or
    raises. *)
Theorem copy_missing_keeps d r d1 :
  well_formed d ->
  copy_missing args d = (r, d1) ->
  forall p x, d !! p = Some x -> d1 !! p = Some x.
Proof.
  intros Hwf. unfold copy_missing, bind.
  rewrite load_source_files_eq.
  destruct (node_at d (source_images args)) as [[|c]|];
    [|by intros [= <- <-]..].
  rewrite !map_stems_by_split_eq.
  destruct (stems_by_split d (target args) "images") as [tis|e] eqn:Htis;
    [|by intros [= <- <-]].
  destruct (stems_by_split d (target args) "labels") as [tls|e] eqn:Htls;
    [|by intros [= <- <-]].
  intros Hrun.
  eapply (copy_loop_kept args _ _ tis tls (source_images_ok d _)
            (source_labels_ok d _) d Hwf Htis Htls); [|exact Hrun].
  apply kept_refl.
Qed.

Lemma sorted_stems_NoDup (stems : gset string) : NoDup (sorted_stems stems).
Proof.
  unfold sorted_stems. rewrite merge_sort_Permutation. apply NoDup_elements.
Qed.

Lemma missing_count (source target : gset string) (all : gset string)
    (missing : string -> bool) :
  source ⊆ all ->
  (forall s, missing s = true <-> s ∈ source /\ s ∉ target) ->
  length (List.filter missing (sorted_stems all)) = size (source ∖ target).
Proof.
  intros Hsub Hmissing. unfold size, set_size. cbn.
  apply Permutation_length, NoDup_Permutation.
  - apply NoDup_ListNoDup, List.NoDup_filter, NoDup_ListNoDup, sorted_stems_NoDup.
  - apply NoDup_elements.
  - intros s. rewrite list_elem_of_In, filter_In, <-list_elem_of_In.
    rewrite elem_of_sorted_stems, elem_of_elements, elem_of_difference.
    rewrite Hmissing. split; [by intros [_ ?]|]. intros [Hs Ht].
    split; [by apply Hsub | done].
Qed.

(** The counts [copy_missing] reports when it returns, dry run or not:
    the stems of the source images that the target images lacked, and
    the stems of the source labels that the target labels lacked. *)
Theorem copy_missing_counts d r d1 imgs lbls tis tls :
  (load_source_files (source_images args) (source_labels args) d).1
  = Ok (imgs, lbls) ->
  (map_stems_by_split (target args) "images" d).1 = Ok tis ->
  (map_stems_by_split (target args) "labels" d).1 = Ok tls ->
  copy_missing args d = (Ok r, d1) ->
  added_imgs r = size (dom imgs ∖ dom tis)
  /\ added_lbls r = size (dom lbls ∖ dom tls).
Proof.
  unfold copy_missing, bind.
  rewrite load_source_files_eq.
  destruct (node_at d (source_images args)) as [[|c]|]; [|done..].
  rewrite !map_stems_by_split_eq. cbn [fst].
  intros [= <- <-] -> ->. cbn [fst]. intros Hrun.
  destruct (copy_loop_counts _ _ _ _ _ _ _ _ _ _ Hrun) as [-> ->].
  cbn [added_imgs added_lbls plus]. split.
  - apply missing_count; [set_solver|]. intros s.
    unfold image_missing. rewrite bool_decide_eq_true.
    by rewrite not_elem_of_dom, elem_of_dom, (comm and).
  - apply missing_count; [set_solver|]. intros s.
    unfold label_missing. rewrite bool_decide_eq_true.
    by rewrite not_elem_of_dom, elem_of_dom, (comm and).
Qed.

End SyncRunTheorems.

(** [map_stems_by_split] reads only, and maps the stems the splits of
    the target hold, each to a split that holds it: the directory of the
    split has an entry of that stem, an image by its extension for
    ["images"], a [*.txt] entry otherwise. *)
Theorem map_stems_by_split_spec root kind d m d' :
  SyncToYoloObb.map_stems_by_split root kind d = (Ok m, d') ->
  d' = d
  /\ forall s,
       (s ∈ dom m <-> in_target d root kind s)
       /\ forall sp, m !! s = Some sp ->
            exists n, node_at d (split_base root kind sp) = Some Dir
                      /\ is_Some (d !! child (split_base root kind sp) n)
                      /\ keeps kind n = true /\ stem n = s.
Proof.
  rewrite map_stems_by_split_eq. intros [= Hm <-]. split; [done|].
  intros s. split; [by apply stems_by_split_dom|].
  revert Hm. unfold stems_by_split. cbn [rfold].
  destruct (split_names d root kind SyncToYoloObb.train) as [f1|] eqn:H1;
    cbn [rbind]; [|done].
  destruct (split_names d root kind SyncToYoloObb.val) as [f2|] eqn:H2;
    cbn [rbind]; [|done].
  destruct (split_names d root kind SyncToYoloObb.test) as [f3|] eqn:H3;
    cbn [rbind]; [|done].
  intros [= <-] sp.
  assert (forall files (m0 : gmap string SyncToYoloObb.split_name) sp0,
    SyncToYoloObb.by_stem (fun _ => sp0) files m0 !! s = Some sp ->
    m0 !! s = Some sp \/ (sp = sp0 /\ exists n, n ∈ files /\ stem n = s))
    as Hstep.
  { intros files. unfold SyncToYoloObb.by_stem.
    induction files as [|n files IH]; intros m0 sp0; cbn; [by left|].
    intros Hl. destruct (IH _ _ Hl) as [Hm0|[-> (n' & Hn' & Hs)]].
    - destruct (decide (stem n = s)) as [Heq|Hne].
      + rewrite Heq, lookup_insert_eq in Hm0. injection Hm0 as <-.
        right. split; [done|]. exists n. split; [by left | done].
      + rewrite lookup_insert_ne in Hm0 by done. by left.
    - right. split; [done|]. exists n'. split; [by right | done]. }
  intros Hl.
  destruct (Hstep _ _ _ Hl) as [Hl2|[-> (n & Hn & Hs)]].
  2:{ exists n. by destruct (split_names_elem _ _ _ _ _ _ H3 Hn) as (? & ? & ?). }
  destruct (Hstep _ _ _ Hl2) as [Hl1|[-> (n & Hn & Hs)]].
  2:{ exists n. by destruct (split_names_elem _ _ _ _ _ _ H2 Hn) as (? & ? & ?). }
  destruct (Hstep _ _ _ Hl1) as [Hl0|[-> (n & Hn & Hs)]].
  2:{ exists n. by destruct (split_names_elem _ _ _ _ _ _ H1 Hn) as (? & ? & ?). }
  by rewrite lookup_empty in Hl0.
Qed.

Section SyncMoreExamples.

Import SyncToYoloObb.

Lemma copy_missing_dry_run_witness :
  let args := {| source_images := ["src"; "images"]%string;
                 source_labels := ["src"; "labels"]%string;
                 target := ["dataset"%string];
                 default_split := val;
                 angle := lit "0.0";
                 dry_run := true |} in
  (copy_missing args sync_disk).1
  = Ok {| added_imgs := 1; added_lbls := 1 |}
  /\ (copy_missing args sync_disk).2 = sync_disk.
Proof.
  cbv zeta. split; [vm_compute; reflexivity|].
  by apply copy_missing_dry_run.
Defined.

Lemma copy_missing_keeps_witness :
  let r := copy_missing (sync_args ["dataset"%string]) sync_disk in
  r.1 = Ok {| added_imgs := 1; added_lbls := 1 |}
  /\ forall p x, sync_disk !! p = Some x -> r.2 !! p = Some x.
Proof.
  cbv zeta. split; [vm_compute; reflexivity|].
  apply (copy_missing_keeps (sync_args ["dataset"%string]) sync_disk
           (Ok {| added_imgs := 1; added_lbls := 1 |})).
  - apply well_formed_checked. vm_compute. reflexivity.
  - apply pair_eq_fst. vm_compute. reflexivity.
Defined.

Lemma copy_missing_counts_witness :
  let args := sync_args ["dataset"%string] in
  exists imgs lbls tis tls,
    (load_source_files (source_images args) (source_labels args) sync_disk).1
    = Ok (imgs, lbls)
    /\ (map_stems_by_split (target args) "images" sync_disk).1 = Ok tis
    /\ (map_stems_by_split (target args) "labels" sync_disk).1 = Ok tls
    /\ 1 = size (dom imgs ∖ dom tis) /\ 1 = size (dom lbls ∖ dom tls).
Proof.
  cbv zeta. eexists _, _, _, _.
  split; [vm_compute; reflexivity|].
  split; [vm_compute; reflexivity|].
  split; [vm_compute; reflexivity|].
  apply (copy_missing_counts (sync_args ["dataset"%string]) sync_disk
           {| added_imgs := 1; added_lbls := 1 |}
           (copy_missing (sync_args ["dataset"%string]) sync_disk).2).
  - vm_compute. reflexivity.
  - vm_compute. reflexivity.
  - vm_compute. reflexivity.
  - apply pair_eq_fst. vm_compute. reflexivity.
Defined.

Lemma map_stems_by_split_spec_witness :
  exists m,
    map_stems_by_split ["dataset"%string] "images" sync_disk = (Ok m, sync_disk)
    /\ m !! "b"%string = Some val
    /\ in_target sync_disk ["dataset"%string] "images" "b".
Proof.
  destruct (map_stems_by_split ["dataset"%string] "images" sync_disk)
    as [[m|e] d'] eqn:Hrun.
  2:{ exfalso. apply (f_equal fst) in Hrun. vm_compute in Hrun. done. }
  destruct (map_stems_by_split_spec _ _ _ _ _ Hrun) as [-> Hspec].
  exists m. split; [done|].
  assert (m !! "b"%string = Some val) as Hb.
  { apply (f_equal fst) in Hrun. vm_compute in Hrun. injection Hrun as <-.
    vm_compute. reflexivity. }
  split; [done|]. apply Hspec, elem_of_dom. by eexists.
Defined.

End SyncMoreExamples.

(** *** More on the oriented-box converter *)

Section ObbConverterMore.

Import ConvertObbLabelsToCorners.

Context {F : Type} `{Float F}.

(** What [f"{value:.15f}"] writes has no whitespace in it. *)
Hypothesis format_no_space :
  forall x : F, Forall (fun c => isspace c = false) (format_15f x).

Lemma Forall_lstrip_char (P : N -> Prop) c s :
  Forall P s -> Forall P (lstrip_char c s).
Proof.
  induction s as [|c' s IH]; [done|]. intros Hs. cbn.
  destruct (c' =? c)%N; [|done]. apply IH. by inversion Hs.
Qed.

Lemma Forall_rstrip_char (P : N -> Prop) c s :
  Forall P s -> Forall P (rstrip_char c s).
Proof.
  intros Hs. unfold rstrip_char.
  apply Forall_rev, Forall_lstrip_char, Forall_rev. done.
Qed.

Lemma format_float_token (x : F) : is_token (format_float x).
Proof using format_no_space.
  unfold format_float. case_bool_decide as Hnil; [apply lit_0_token|].
  split; [done|]. by apply Forall_rstrip_char, Forall_rstrip_char.
Qed.

(** A line in the target format: nine fields, single spaces. *)
Definition nine_line (l : text) : Prop :=
  exists fields, length fields = 9 /\ Forall is_token fields
                 /\ l = join [SP] fields.

Lemma convert_line_nine parts angle_format (default_angle : F) order :
  length parts = 9 ->
  convert_line parts angle_format default_angle order = Ok (join [SP] parts).
Proof.
  intros Hlen. unfold convert_line.
  rewrite bool_decide_false by lia. by rewrite bool_decide_true.
Qed.

Lemma convert_line_ok parts angle_format (default_angle : F) order out :
  convert_line parts angle_format default_angle order = Ok out ->
  length parts <> 9 ->
  exists cls fields,
    head parts = Some cls /\ length fields = 8 /\ Forall is_token fields
    /\ out = join [SP] (cls :: fields).
Proof using format_no_space.
  unfold convert_line. case_bool_decide; [done|].
  case_bool_decide; [done|]. intros Hrun _.
  destruct parts as [|cls rest]; [done|].
  destruct (float_field _ 1) as [cx|]; [|done].
  destruct (float_field _ 2) as [cy|]; [|done].
  destruct (float_field _ 3) as [w|]; [|done].
  destruct (float_field _ 4) as [h|]; [|done].
  cbn [rbind] in Hrun.
  destruct (if bool_decide (6 <= length (cls :: rest))
            then float_field (cls :: rest) 5 else Ok default_angle)
    as [angle|]; [|done].
  cbn [rbind] in Hrun. unfold rotate_points in Hrun.
  destruct (cos_or_raise _) as [cos_a|]; [|done].
  destruct (sin_or_raise _) as [sin_a|]; [|done].
  cbn [rbind map] in Hrun. injection Hrun as <-.
  exists cls. case_bool_decide; eexists; (split; [done|]);
    (split; [|split; [|reflexivity]]); cbn; try done;
    repeat constructor; apply format_float_token.
Qed.

(** [convert_line] keeps the class and answers with nine fields. *)
Theorem convert_line_fields parts angle_format (default_angle : F) order out :
  Forall is_token parts ->
  convert_line parts angle_format default_angle order = Ok out ->
  length (split out) = 9 /\ head (split out) = head parts.
Proof using format_no_space.
  intros Htok Hrun. destruct (decide (length parts = 9)) as [Hnine|Hnine].
  - rewrite convert_line_nine in Hrun by done. injection Hrun as <-.
    by rewrite split_join.
  - destruct (convert_line_ok _ _ _ _ _ Hrun Hnine)
      as (cls & fields & Hhead & Hlen & Hfields & ->).
    assert (is_token cls) as Hcls.
    { destruct parts; [done|]. injection Hhead as ->. by inversion Htok. }
    rewrite split_join by (by constructor). cbn. split; [lia | done].
Qed.

Lemma convert_line_nine_line parts angle_format (default_angle : F) order out :
  Forall is_token parts ->
  convert_line parts angle_format default_angle order = Ok out ->
  nine_line out.
Proof using format_no_space.
  intros Htok Hrun. destruct (decide (length parts = 9)) as [Hnine|Hnine].
  - rewrite convert_line_nine in Hrun by done. injection Hrun as <-.
    by exists parts.
  - destruct (convert_line_ok _ _ _ _ _ Hrun Hnine)
      as (cls & fields & Hhead & Hlen & Hfields & ->).
    exists (cls :: fields). split; [cbn; lia|]. split; [|done].
    constructor; [|done].
    destruct parts; [done|]. injection Hhead as ->. by inversion Htok.
Qed.

(** A line that every run leaves: blank, or in the target format. *)
Definition settled (line : text) : Prop :=
  strip line = []
  \/ (length (split line) = 9 /\ join [SP] (split line) = strip line).

Lemma nine_line_settled l : nine_line l -> settled l.
Proof.
  intros (fields & Hlen & Htok & ->). right.
  by rewrite split_join, strip_join_tokens.
Qed.

Lemma nine_line_not_nil l : nine_line l -> l <> [].
Proof.
  intros (fields & Hlen & Htok & ->).
  apply join_tokens_not_nil; [done|]. by destruct fields.
Qed.

Lemma nine_line_no_break l : nine_line l -> no_break l.
Proof. intros (fields & Hlen & Htok & ->). by apply join_tokens_no_break. Qed.

Variable path : Path.

Section OneRun.

Variables (angle_format : text) (default_angle : F) (order : text).

Abbreviation process_line' :=
  (process_line path angle_format default_angle order).

Lemma process_line_settled st line :
  settled line ->
  exists st', process_line' st line = Ok st'
              /\ changed st' = changed st
              /\ new_lines st' = new_lines st
                                 ++ (if bool_decide (strip line = []) then []
                                     else [strip line]).
Proof.
  intros Hs. unfold process_line. case_bool_decide as Hblank.
  { exists st. by rewrite app_nil_r. }
  destruct Hs as [Hs|[Hlen Hjoin]]; [done|].
  rewrite split_strip, convert_line_nine, Hjoin by done.
  eexists. split; [done|]. cbn. split; [|done].
  by rewrite bool_decide_false by naive_solver.
Qed.

Lemma process_lines_settled lines st :
  Forall settled lines ->
  exists st', rfold process_line' st lines = Ok st'
              /\ changed st' = changed st.
Proof.
  revert st. induction lines as [|l lines IH]; intros st Hall; cbn [rfold].
  - by exists st.
  - inversion Hall as [|? ? Hl Hrest]; subst.
    destruct (process_line_settled st l Hl) as (st1 & -> & Hc1 & _).
    cbn [rbind]. destruct (IH st1 Hrest) as (st2 & -> & Hc2).
    exists st2. split; [done | congruence].
Qed.

Lemma process_line_ok st line st' :
  process_line' st line = Ok st' ->
  exists outs, new_lines st' = new_lines st ++ outs
               /\ Forall nine_line outs
               /\ (changed st' = true -> changed st = true \/ outs <> [])
               /\ (changed st' = false -> changed st = false /\ settled line).
Proof using format_no_space.
  unfold process_line. case_bool_decide as Hblank.
  { intros [= <-]. exists []. rewrite app_nil_r.
    repeat split; auto. by left. }
  destruct (convert_line _ _ _ _) as [converted|e] eqn:Hconv;
    [|by destruct e].
  intros [= <-]. cbn. exists [converted].
  pose proof (convert_line_nine_line _ _ _ _ _
                (split_tokens (strip line)) Hconv) as Hnine.
  split; [done|]. split; [by constructor|]. split; [by right|].
  case_bool_decide as Hsame; [done|]. intros Hc. split; [done|].
  right.
  pose proof (convert_line_fields _ _ _ _ _
                (split_tokens (strip line)) Hconv) as [Hlen _].
  rewrite Hsame, !split_strip in Hlen. split; [done|].
  destruct Hnine as (fields & _ & Htok & Hout).
  rewrite <-Hsame, Hout at 1. rewrite <-split_strip, <-Hsame, Hout.
  by rewrite split_join.
Qed.

Lemma process_lines_ok lines st st' :
  rfold process_line' st lines = Ok st' ->
  exists outs, new_lines st' = new_lines st ++ outs
               /\ Forall nine_line outs
               /\ (changed st' = true -> changed st = true \/ outs <> [])
               /\ (changed st' = false ->
                   changed st = false /\ Forall settled lines).
Proof using format_no_space.
  revert st. induction lines as [|l lines IH]; intros st; cbn [rfold].
  - intros [= <-]. exists []. rewrite app_nil_r. repeat split; auto.
  - destruct (process_line' st l) as [st1|e] eqn:Hl; [|done]. cbn [rbind].
    intros Hrest.
    destruct (process_line_ok _ _ _ Hl) as (o1 & Hn1 & Ho1 & Ht1 & Hf1).
    destruct (IH _ Hrest) as (o2 & Hn2 & Ho2 & Ht2 & Hf2).
    exists (o1 ++ o2). rewrite Hn2, Hn1, <-app_assoc.
    split; [done|]. split; [by apply Forall_app|]. split.
    + intros Hc. destruct (Ht2 Hc) as [Hc1|Hne].
      * destruct (Ht1 Hc1) as [?|Hne]; [by left|].
        right. by destruct o1.
      * right. destruct o1; [done|]. done.
    + intros Hc. destruct (Hf2 Hc) as [Hc1 Hall].
      destruct (Hf1 Hc1) as [Hc0 Hs]. split; [done|]. by constructor.
Qed.

End OneRun.

Lemma node_file_not_root (d : disk) (p : Path) text :
  node_at d p = Some (File text) -> p <> [].
Proof. by intros Hn ->. Qed.

Lemma node_at_insert_eq (d : disk) (p : Path) (x : node) :
  p <> [] -> node_at (<[p := x]> d) p = Some x.
Proof. destruct p; [done|]. intros _. cbn. by rewrite lookup_insert_eq. Qed.

(** The text a run writes for the lines it has converted. *)
Lemma splitlines_written outs (nl : bool) :
  Forall nine_line outs -> outs <> [] ->
  splitlines (if nl && negb (bool_decide (outs = []))
              then join [LF] outs ++ [LF] else join [LF] outs) = outs.
Proof.
  intros Hnine Hne.
  assert (Forall no_break outs) as Hnb.
  { eapply Forall_impl; [exact Hnine|]. apply nine_line_no_break. }
  rewrite (bool_decide_false (outs = [])) by done.
  destruct nl; cbn [andb negb].
  - by apply splitlines_join_lf.
  - apply splitlines_join_exact; [done|].
    eapply Forall_impl; [exact Hnine|]. apply nine_line_not_nil.
Qed.

(** After a run of [process_file] that has returned (no dry run), a
    second run, whatever its options, reports no change and leaves the
    disk as it is. *)
Theorem process_file_idempotent angle_format default_angle order
    angle_format' default_angle' order' d c d1 :
  process_file path angle_format default_angle order false d = (Ok c, d1) ->
  process_file path angle_format' default_angle' order' false d1
  = (Ok false, d1).
Proof using format_no_space.
  unfold process_file, bind, read_text, lift.
  destruct (node_at d path) as [[|text]|] eqn:Hnode; [done| |done].
  destruct (rfold _ _ (splitlines text)) as [st|e] eqn:Hrun; [|done].
  destruct (process_lines_ok _ _ _ _ _ _ Hrun) as (outs & Hn & Hnine & Ht & Hf).
  cbn [new_lines app] in Hn.
  assert (forall text1,
    node_at d1 path = Some (File text1) ->
    Forall settled (splitlines text1) ->
    match node_at d1 path with
    | Some Dir => (Raise IsADirectoryError, d1)
    | Some (File c0) => (Ok c0, d1)
    | None => (Raise FileNotFoundError, d1)
    end = (Ok text1, d1)
    /\ exists st2,
         rfold (process_line path angle_format' default_angle' order')
           {| new_lines := []; changed := false |} (splitlines text1) = Ok st2
         /\ changed st2 = false) as Hsecond.
  { intros text1 -> Hall. split; [done|].
    by apply process_lines_settled. }
  destruct (changed st) eqn:Hc.
  - destruct (Ht eq_refl) as [?|Hne]; [done|].
    destruct (write_text _ _ d) as [[[]|e] d'] eqn:Hw; [|done].
    intros [= <- <-].
    destruct (write_text_ok _ _ _ _ Hw) as (-> & _ & Hp & _).
    rewrite Hn in *.
    set (text1 := if endswith text [LF] && negb (bool_decide (outs = []))
                  then join [LF] outs ++ [LF] else join [LF] outs) in *.
    destruct (Hsecond text1) as [-> (st2 & -> & ->)]; [| |done].
    + by apply node_at_insert_eq.
    + unfold text1. rewrite splitlines_written by done.
      eapply Forall_impl; [exact Hnine|]. apply nine_line_settled.
  - intros [= <- <-]. destruct (Hf eq_refl) as [_ Hall].
    destruct (Hsecond text Hnode Hall) as [-> (st2 & -> & ->)]. done.
Qed.

(** The dry run of [process_file] writes nothing, and reports what the
    run that writes reports. *)
Theorem process_file_dry_run angle_format default_angle order d :
  (process_file path angle_format default_angle order true d).2 = d
  /\ forall c d1,
       process_file path angle_format default_angle order false d = (Ok c, d1)
       -> process_file path angle_format default_angle order true d = (Ok c, d).
Proof.
  unfold process_file, bind, read_text, lift.
  destruct (node_at d path) as [[|text]|] eqn:Hnode; [done| |done].
  destruct (rfold _ _ (splitlines text)) as [st|e]; [|done].
  destruct (changed st); cbn; [|split; [done | by intros ? ? [= <- _]]].
  split; [done|]. intros c d1.
  destruct (write_text _ _ d) as [[[]|e] d']; [|done]. by intros [= <- _].
Qed.

(** A line with a field, and fewer than five. *)
Definition short_line (line : text) : Prop :=
  1 <= length (split line) < 5.

(** A line of one to four fields makes [process_file] fail, with nothing
    written, unless an earlier line has done so. *)
Theorem process_file_short_line angle_format default_angle order dry_run d
    text :
  node_at d path = Some (File text) ->
  Exists short_line (splitlines text) ->
  exists err,
    process_file path angle_format default_angle order dry_run d
    = (Raise (ValueError (msg_file_error path err)), d).
Proof.
  intros Hnode Hex. unfold process_file, bind, read_text, lift.
  rewrite Hnode.
  assert (forall st, exists err,
    rfold (process_line path angle_format default_angle order) st
      (splitlines text) = Raise (ValueError (msg_file_error path err)))
    as Hraise.
  { induction Hex as [l ls Hshort|l ls _ IH]; intros st; cbn [rfold].
    - exists msg_too_few_fields. unfold process_line.
      rewrite bool_decide_false.
      2:{ rewrite strip_nil_iff. intros Hnil. unfold short_line in Hshort.
          rewrite Hnil in Hshort. simpl in Hshort. lia. }
      unfold convert_line. rewrite split_strip.
      rewrite bool_decide_true by (unfold short_line in Hshort; lia). done.
    - destruct (process_line _ _ _ _ st l) as [st1|e1] eqn:Hl; cbn [rbind].
      + apply IH.
      + destruct (process_line_raises _ _ _ _ _ _ _ Hl) as [err ->].
        by exists err. }
  destruct (Hraise {| new_lines := []; changed := false |}) as [err ->].
  by exists err.
Qed.

(** When the run returns.  The fields the converter reads parse, and
    the sine and cosine are defined (as they are on every number that is
    no infinity). *)
Definition parseable_fields (parts : list text) : Prop :=
  5 <= length parts
  /\ forall i s, 1 <= i <= 5 -> parts !! i = Some s ->
                 is_Some (float_of_str s).

Definition trig_total : Prop :=
  forall x : F, is_Some (math_cos x) /\ is_Some (math_sin x).

Lemma float_field_returns (parts : list text) i :
  parseable_fields parts -> 1 <= i <= 5 -> i < length parts ->
  exists x, float_field parts i = Ok x.
Proof.
  intros [_ Hparse] Hi Hlen. unfold float_field.
  destruct (lookup_lt_is_Some_2 parts i Hlen) as [s Hs]. rewrite Hs.
  destruct (Hparse i s Hi Hs) as [x ->]. by exists x.
Qed.

Lemma convert_line_returns parts angle_format (default_angle : F) order :
  trig_total -> parseable_fields parts ->
  exists out, convert_line parts angle_format default_angle order = Ok out.
Proof.
  intros Htrig Hp. pose proof Hp as [Hlen _]. unfold convert_line.
  rewrite bool_decide_false by lia. case_bool_decide; [by eexists|].
  destruct parts as [|cls rest]; [simpl in Hlen; lia|].
  destruct (float_field_returns _ 1 Hp) as [cx ->]; [lia..|].
  destruct (float_field_returns _ 2 Hp) as [cy ->]; [lia..|].
  destruct (float_field_returns _ 3 Hp) as [w ->]; [lia..|].
  destruct (float_field_returns _ 4 Hp) as [h ->]; [lia..|].
  cbn [rbind].
  assert (exists angle,
            (if bool_decide (6 <= length (cls :: rest))
             then float_field (cls :: rest) 5 else Ok default_angle)
            = Ok angle) as [angle ->].
  { case_bool_decide; [|by eexists].
    apply float_field_returns; [done|lia..]. }
  cbn [rbind]. unfold rotate_points, cos_or_raise, sin_or_raise.
  set (angle_rad := if bool_decide (angle_format = lit "degrees")
                    then math_radians angle else angle).
  destruct (Htrig angle_rad) as [[c ->] [s ->]]. cbn [rbind]. by eexists.
Qed.

Lemma process_file_returns angle_format default_angle order d text :
  trig_total ->
  node_at d path = Some (File text) ->
  node_at d (parent path) = Some Dir ->
  Forall (fun line => strip line = [] \/ parseable_fields (split line))
    (splitlines text) ->
  exists c d1,
    process_file path angle_format default_angle order false d = (Ok c, d1).
Proof.
  intros Htrig Hnode Hpar Hall. unfold process_file, bind, read_text, lift.
  rewrite Hnode.
  assert (forall st, exists st',
    rfold (process_line path angle_format default_angle order) st
      (splitlines text) = Ok st') as Hrun.
  { induction Hall as [|l ls Hl _ IH]; intros st; cbn [rfold]; [by eexists|].
    assert (exists st1,
      process_line path angle_format default_angle order st l = Ok st1)
      as [st1 ->].
    { unfold process_line. case_bool_decide as Hblank; [by eexists|].
      destruct Hl as [?|Hl]; [done|]. rewrite split_strip.
      destruct (convert_line_returns (split l) angle_format default_angle
                  order Htrig Hl) as [out ->]. by eexists. }
    cbn [rbind]. apply IH. }
  destruct (Hrun {| new_lines := []; changed := false |}) as [st ->].
  destruct (changed st); [|by eexists _, _].
  unfold write_text. rewrite Hnode, Hpar. by eexists _, _.
Qed.

End ObbConverterMore.

(** *** The real numbers as [float], for the examples *)

Lemma digits_upto_lt fuel n : Forall (fun d => (d < 10)%N) (digits_upto fuel n).
Proof.
  revert n. induction fuel as [|fuel IH]; intros n; cbn [digits_upto];
    [constructor|].
  destruct (N.ltb_spec n 10); [by repeat constructor|].
  apply Forall_app. split; [apply IH|]. repeat constructor.
  by apply N.mod_lt.
Qed.

Lemma digit_not_space (d : N) : (d < 10)%N -> isspace (48 + d) = false.
Proof.
  intros Hd. destruct d as [|p]; [done|].
  do 4 (destruct p as [p|p|]; try done; try lia).
Qed.

Lemma str_of_N_no_space n : Forall (fun c => isspace c = false) (str_of_N n).
Proof.
  unfold str_of_N, digits. apply Forall_map.
  eapply Forall_impl; [apply digits_upto_lt|]. apply digit_not_space.
Qed.

Lemma R_format_no_space (x : R) :
  Forall (fun c => isspace c = false)
    (ConvertObbLabelsToCorners.format_15f x).
Proof.
  change (ConvertObbLabelsToCorners.format_15f x)
    with (RealFloat.R_format_15f x).
  unfold RealFloat.R_format_15f.
  set (ds := repeat 48%N _ ++ str_of_N _).
  assert (Forall (fun c => isspace c = false) ds) as Hds.
  { apply Forall_app. split; [|apply str_of_N_no_space].
    apply Forall_forall. by intros c ->%list_elem_of_In%repeat_spec. }
  apply Forall_app. split; [by destruct (Rlt_dec x 0); repeat constructor|].
  apply Forall_app. split; [by apply Forall_take|].
  apply Forall_app. split; [by repeat constructor | by apply Forall_drop].
Qed.

Lemma R_trig_total : trig_total (F := R).
Proof. intros x. split; by eexists. Qed.

(** *** Examples *)

Definition obb_fields_example : list text :=
  [lit "7"; lit "0.5"; lit "0.5"; lit "0.2"; lit "0.1"].

Lemma obb_fields_example_parse : parseable_fields (F := R) obb_fields_example.
Proof.
  split; [simpl; lia|]. intros i s Hi Hs.
  destruct i as [|[|[|[|[|[|i]]]]]]; try lia; cbn in Hs; try done;
    injection Hs as <-; vm_compute; by eexists.
Qed.

Lemma convert_line_fields_witness :
  exists out,
    ConvertObbLabelsToCorners.convert_line (F := R) obb_fields_example
      (lit "radians") 0%R (lit "grouped") = Ok out
    /\ length (split out) = 9 /\ head (split out) = Some (lit "7").
Proof.
  destruct (convert_line_returns (F := R) obb_fields_example (lit "radians")
              0%R (lit "grouped") R_trig_total obb_fields_example_parse)
    as [out Hout].
  exists out. split; [exact Hout|].
  apply (convert_line_fields (F := R) R_format_no_space obb_fields_example
           (lit "radians") 0%R (lit "grouped") out); [|exact Hout].
  repeat constructor; done.
Defined.

Definition obb_disk_example : disk :=
  {[ ["labels"%string] := Dir;
     ["labels"; "box.txt"]%string :=
       File (lit "7 0.5 0.5 0.2 0.1" ++ [LF] ++ [LF]
             ++ lit "7  0.25 0.5 0.2 0.1 1.57" ++ [LF]) ]}.

Lemma process_file_idempotent_witness :
  exists c d1,
    ConvertObbLabelsToCorners.process_file (F := R)
      ["labels"; "box.txt"]%string (lit "radians") 0%R (lit "grouped") false
      obb_disk_example = (Ok c, d1)
    /\ ConvertObbLabelsToCorners.process_file (F := R)
         ["labels"; "box.txt"]%string (lit "degrees") 0%R (lit "interleaved")
         false d1 = (Ok false, d1).
Proof.
  destruct (process_file_returns (F := R) ["labels"; "box.txt"]%string
              (lit "radians") 0%R (lit "grouped") obb_disk_example
              (lit "7 0.5 0.5 0.2 0.1" ++ [LF] ++ [LF]
               ++ lit "7  0.25 0.5 0.2 0.1 1.57" ++ [LF]) R_trig_total)
    as (c & d1 & Hrun).
  - vm_compute. reflexivity.
  - vm_compute. reflexivity.
  - assert (splitlines (lit "7 0.5 0.5 0.2 0.1" ++ [LF] ++ [LF]
                        ++ lit "7  0.25 0.5 0.2 0.1 1.57" ++ [LF])
            = [lit "7 0.5 0.5 0.2 0.1"; []; lit "7  0.25 0.5 0.2 0.1 1.57"])
      as -> by (vm_compute; reflexivity).
    apply Forall_cons. split; [right; exact obb_fields_example_parse|].
    apply Forall_cons. split; [by left|].
    apply Forall_cons. split; [|constructor].
    right. split; [vm_compute; lia|]. intros i s Hi Hs.
    destruct i as [|[|[|[|[|[|i]]]]]]; try lia; vm_compute in Hs;
      injection Hs as <-; vm_compute; by eexists.
  - exists c, d1. split; [exact Hrun|].
    exact (process_file_idempotent (F := R) R_format_no_space _ _ _ _ _ _ _
             _ _ _ Hrun).
Defined.

Definition obb_short_example : disk :=
  {[ ["labels"%string] := Dir;
     ["labels"; "short.txt"]%string := File (lit "7 0.5 0.5" ++ [LF]) ]}.

Lemma process_file_short_line_witness :
  exists err,
    ConvertObbLabelsToCorners.process_file (F := R)
      ["labels"; "short.txt"]%string (lit "degrees") 0%R (lit "grouped") true
      obb_short_example
    = (Raise (ValueError
                (ConvertObbLabelsToCorners.msg_file_error
                   ["labels"; "short.txt"]%string err)),
       obb_short_example).
Proof.
  apply (process_file_short_line (F := R) ["labels"; "short.txt"]%string
           (lit "degrees") 0%R (lit "grouped") true obb_short_example
           (lit "7 0.5 0.5" ++ [LF])).
  - vm_compute. reflexivity.
  - apply Exists_cons_hd. unfold short_line. vm_compute. lia.
Defined.

(** ** More on the dataset auditor *)

Lemma bind_Ok {A B} (m : M A) (k : A -> M B) d b d' :
  bind m k d = (Ok b, d') ->
  exists a d1, m d = (Ok a, d1) /\ k a d1 = (Ok b, d').
Proof.
  unfold bind. destruct (m d) as [[a|e] d1]; [|done]. intros Hk.
  by exists a, d1.
Qed.

Lemma for_each_Ok_inv {A S} (P : S -> Prop) (l : list A) (s : S)
    (body : S -> A -> M S) d s' d' :
  (forall s x d s' d', P s -> body s x d = (Ok s', d') -> P s') ->
  P s -> for_each l s body d = (Ok s', d') -> P s'.
Proof.
  intros Hbody. revert s d. induction l as [|x l IH]; intros s d Hs;
    cbn [for_each].
  - by intros [= <- <-].
  - intros (s1 & d1 & Hx & Hrest)%bind_Ok. eapply IH; [|exact Hrest].
    by eapply Hbody.
Qed.


Section AuditorMore.

Import CheckDatasetCounts.

Context {F : Type} `{Checks F}.

Lemma check_line_report file i line b :
  check_line file i line = Some b ->
  bad_file b = file /\ bad_number b = i /\ bad_text b = line.
Proof.
  unfold check_line. intros Hb.
  repeat case_match; try done; by simplify_eq.
Qed.

Lemma check_lines_numbers file (lines : list text) k :
  let reported := omap (fun il => check_line file il.1 il.2)
                    (zip (seq k (length lines)) lines) in
  Forall (fun b => bad_file b = file /\ k <= bad_number b
                   /\ lines !! (bad_number b - k) = Some (bad_text b))
    reported
  /\ StronglySorted lt (map bad_number reported).
Proof.
  cbv zeta. revert k.
  induction lines as [|l ls IH]; intros k; cbn [length seq zip omap].
  { split; constructor. }
  destruct (IH (S k)) as [Hall Hsorted].
  assert (Forall (fun b => bad_file b = file /\ k <= bad_number b
                           /\ (l :: ls) !! (bad_number b - k)
                              = Some (bad_text b))
            (omap (fun il => check_line file il.1 il.2)
               (zip (seq (S k) (length ls)) ls))) as Hall'.
  { eapply Forall_impl; [exact Hall|]. intros b (Hf & Hk & Hl).
    split; [done|]. split; [lia|].
    replace (bad_number b - k) with (S (bad_number b - S k)) by lia. done. }
  cbn [omap list_omap fst snd] in *.
  destruct (check_line file k l) as [b|] eqn:Hb; [|by split].
  destruct (check_line_report _ _ _ _ Hb) as (Hf & Hn & Ht).
  split.
  - constructor; [|done]. rewrite Hn, Nat.sub_diag. cbn. by rewrite Ht.
  - cbn [map]. constructor; [done|]. apply Forall_map.
    eapply Forall_impl; [exact Hall|]. intros b' (_ & Hk & _). cbn. lia.
Qed.

(** [check_file] reports the lines of a file by their numbers, counted
    from 1, in their order. *)
Theorem check_file_numbers lbl_dir bad lbl d text bad' d' :
  node_at d (child lbl_dir lbl) = Some (File text) ->
  check_file lbl_dir bad lbl d = (Ok bad', d') ->
  exists reported,
    bad' = bad ++ reported
    /\ Forall (fun b => bad_file b = lbl
                        /\ 1 <= bad_number b
                        /\ splitlines text !! (bad_number b - 1)
                           = Some (bad_text b)) reported
    /\ StronglySorted lt (map bad_number reported).
Proof.
  intros Hnode. unfold check_file, bind, read_text. rewrite Hnode.
  intros [= <- _]. eexists. split; [done|].
  apply (check_lines_numbers lbl (splitlines text) 1).
Qed.

End AuditorMore.

(** *** The report on a split *)

Section AuditorReport.

Import CheckDatasetCounts.

Context {F : Type} `{Checks F}.

Variable np_load : Path -> M (option cache).







End AuditorReport.

(** *** Examples: the checks over the rationals *)

Section AuditorExamples.

Import CheckDatasetCounts.

(** [str.isdigit] on ASCII digits, [float] on decimal literals, every
    rational being finite. *)
#[local] Instance example_Checks : Checks Q := {|
  isdigit := fun s =>
    negb (bool_decide (s = []))
    && forallb (fun c => (48 <=? c)%N && (c <=? 57)%N) s;
  float_of_str := RealFloat.read_decimal;
  isfinite := fun _ => true;
  zero_le := fun x => Qle_bool 0 x;
  zero_lt := fun x => negb (Qle_bool x 0);
  le_one := fun x => Qle_bool x 1;
|}.

Definition audit_disk : disk :=
  list_to_map
    [ (["data"], Dir);
      (["data"; "images"], Dir);
      (["data"; "images"; "train"], Dir);
      (["data"; "images"; "train"; "a.jpg"], File (lit "JPEG a"));
      (["data"; "images"; "train"; "c.png"], File (lit "PNG c"));
      (["data"; "labels"], Dir);
      (["data"; "labels"; "train"], Dir);
      (["data"; "labels"; "train"; "a.txt"],
       File (lit "0 0.5 0.5 0.2 0.1 0.0" ++ [LF] ++ lit "1 2 3" ++ [LF]
             ++ [LF] ++ lit "0 0.5 0.5 1.2 0.1 0.0" ++ [LF]));
      (["data"; "labels"; "train"; "b.txt"],
       File (lit "x 0.5 0.5 0.2 0.1 0.0" ++ [LF])) ]%string.

Definition audit_args (check inspect_ : bool) (lim : Z) : Args :=
  {| root := ["data"%string]; splits := "train,val"; limit := lim;
     check_format := check; inspect_cache := inspect_ |}.

Example main_example :
  (main Pickle.np_load (audit_args false true 1) audit_disk).1
  = Ok [counts_line "train" 2 2;
        labels_without_image 1 ["b.txt"%string];
        images_without_label 1 ["c.png"%string];
        cache_not_found "train.cache";
        counts_line "val" 0 0;
        cache_not_found "val.cache"].
Proof. vm_compute. reflexivity. Qed.

(** The disk of the examples with a cache file for the split [train]. *)
Definition cache_disk (bytes : text) : disk :=
  <[ ["data"; "labels"; "train.cache"]%string := File bytes ]> audit_disk.

(** A pickle that calls [shutil.copy2] with the cache file and a label
    file. *)
Definition copying_pickle : text :=
  lit "cshutil" ++ [LF] ++ lit "copy2" ++ [LF]
  ++ lit "(Vdata/labels/train.cache" ++ [LF]
  ++ lit "Vdata/labels/train/a.txt" ++ [LF]
  ++ lit "tR.".

(** C9, as first stated, fails with [--inspect-cache] on a cache file
    that is such a pickle: loading it copies the cache over the label
    file [a.txt], after which the auditor prints that the cache could not
    be read. *)
Lemma main_unpickles_cache :
  let d := cache_disk copying_pickle in
  let label := ["data"; "labels"; "train"; "a.txt"]%string in
  let r := main Pickle.np_load (audit_args false true 1) d in
  r.1 = Ok [counts_line "train" 2 2;
            labels_without_image 1 ["b.txt"%string];
            images_without_label 1 ["c.png"%string];
            cache_error "train.cache";
            counts_line "val" 0 0;
            cache_not_found "val.cache"]
  /\ node_at d label
     = Some (File (lit "0 0.5 0.5 0.2 0.1 0.0" ++ [LF] ++ lit "1 2 3" ++ [LF]
                   ++ [LF] ++ lit "0 0.5 0.5 1.2 0.1 0.0" ++ [LF]))
  /\ node_at r.2 label = Some (File copying_pickle).
Proof.
  cbv zeta.
  split; [vm_compute; reflexivity|].
  split; vm_compute; reflexivity.
Qed.

(** With a cache that is the pickle of an empty dictionary, the auditor
    run with every flag leaves the disk as it was. *)
Lemma main_never_mutates_witness :
  let d := cache_disk (lit "}.") in
  (main Pickle.np_load (audit_args true true 1) d).2 = d.
Proof.
  cbv zeta. apply main_never_mutates. intros _ split_ Hin _.
  change (split_on "," (splits (audit_args true true 1)))
    with ["train"; "val"]%string in Hin.
  set (d := cache_disk (lit "}.")).
  apply elem_of_cons in Hin as [->|Hin].
  - assert (node_at d (cache_path (audit_args true true 1) "train")
            = Some (File (lit "}."))) as Hnode by (vm_compute; reflexivity).
    unfold Pickle.np_load, bind, read_text. rewrite Hnode.
    clearbody d. reflexivity.
  - apply list_elem_of_singleton in Hin as ->.
    assert (node_at d (cache_path (audit_args true true 1) "val") = None)
      as Hnode by (vm_compute; reflexivity).
    unfold Pickle.np_load, bind, read_text. by rewrite Hnode.
Defined.


Lemma check_file_numbers_witness :
  let text := lit "0 0.5 0.5 0.2 0.1 0.0" ++ [LF] ++ lit "1 2 3" ++ [LF]
              ++ [LF] ++ lit "0 0.5 0.5 1.2 0.1 0.0" ++ [LF] in
  match (check_file ["data"; "labels"; "train"]%string [] "a.txt"
           audit_disk).1 with
  | Ok bad' =>
      map bad_number bad' = [2; 4]
      /\ exists reported,
           bad' = [] ++ reported
           /\ Forall (fun b => bad_file b = "a.txt"%string
                               /\ 1 <= bad_number b
                               /\ splitlines text !! (bad_number b - 1)
                                  = Some (bad_text b)) reported
           /\ StronglySorted lt (map bad_number reported)
  | Raise _ => False
  end.
Proof.
  cbv zeta.
  destruct (check_file ["data"; "labels"; "train"]%string [] "a.txt"
              audit_disk) as [[bad'|e] d'] eqn:Hrun; cbn [fst].
  - split.
    + apply (f_equal fst) in Hrun. vm_compute in Hrun.
      injection Hrun as <-. reflexivity.
    + eapply check_file_numbers; [|exact Hrun]. vm_compute. reflexivity.
  - apply (f_equal fst) in Hrun. vm_compute in Hrun. discriminate.
Defined.

End AuditorExamples.

(** ** More on the rectangular-box converter *)

Section PolygonMore.

Import ConvertYoloBboxToPolygon.

Local Open Scope Z_scope.

Lemma no_space_app (s t : text) :
  Forall (fun c => isspace c = false) s ->
  Forall (fun c => isspace c = false) t ->
  Forall (fun c => isspace c = false) (s ++ t).
Proof. intros. by apply Forall_app. Qed.

Lemma no_space_zeros n : Forall (fun c => isspace c = false) (repeat 48%N n).
Proof. apply Forall_forall. by intros c ->%list_elem_of_In%repeat_spec. Qed.

Lemma str_of_N_not_nil n : str_of_N n <> [].
Proof.
  unfold str_of_N, digits. cbn [digits_upto].
  destruct (n <? 10)%N; [done|]. intros Hnil.
  apply (f_equal length) in Hnil. rewrite length_map, length_app in Hnil.
  simpl in Hnil. lia.
Qed.

Ltac no_space :=
  repeat first
    [ assumption
    | apply no_space_app
    | apply no_space_zeros
    | apply str_of_N_no_space
    | (apply Forall_take; assumption)
    | (apply Forall_drop; assumption)
    | by repeat constructor ].

(** What [str] writes for a number is one field. *)
Lemma str_token (d : Decimal) : is_token (str d).
Proof.
  unfold str.
  set (int := str_of_N (coeff d)).
  set (n := Z.of_nat (length int)).
  set (leftdigits := exp d + n).
  set (dotplace := if (exp d <=? 0) && (-6 <? leftdigits)
                   then leftdigits else 1).
  pose proof (str_of_N_no_space (coeff d)) as Hint. fold int in Hint.
  pose proof (str_of_N_not_nil (coeff d)) as Hne. fold int in Hne.
  assert (Forall (fun c => isspace c = false)
            (if leftdigits =? dotplace then []
             else lit "E" ++ str_signed (leftdigits - dotplace))) as Hexp.
  { destruct (leftdigits =? dotplace); [constructor|]. unfold str_signed.
    destruct (_ <? 0); no_space. }
  assert (Forall (fun c => isspace c = false)
            (if sign d then lit "-" else [])) as Hsign.
  { destruct (sign d); no_space. }
  destruct (dotplace <=? 0) eqn:Hd0; [|destruct (n <=? dotplace) eqn:Hnd].
  - split; [by destruct (sign d) | no_space].
  - split; [by destruct (sign d), int | no_space].
  - split; [|no_space].
    intros Hnil. apply (f_equal length) in Hnil.
    rewrite !length_app in Hnil. cbn [length lit] in Hnil.
    simpl in Hnil. lia.
Qed.

(** When [to_polygon] returns, its line has nine fields: the label, and
    the eight numbers as [str] writes them. *)
Theorem to_polygon_fields label x_center y_center width height out :
  is_token label ->
  to_polygon label x_center y_center width height = Ok out ->
  exists values,
    polygon_values x_center y_center width height = Ok values
    /\ split out = label :: map str values
    /\ length (split out) = 9%nat.
Proof.
  intros Hlabel. unfold to_polygon.
  destruct (polygon_values _ _ _ _) as [values|e] eqn:Hv; [|done].
  cbn [rbind]. intros Hout.
  assert (out = join [SP] (label :: map str values)) as ->
    by (by injection Hout).
  clear Hout. exists values. split; [done|]. rewrite split_join.
  2:{ constructor; [done|]. apply Forall_map, Forall_forall.
      intros d _. apply str_token. }
  split; [done|]. revert Hv. unfold polygon_values.
  repeat (match goal with
          | |- context [rbind ?r _] => destruct r; cbn [rbind]; [|done]
          end).
  by intros [= <-].
Qed.

Lemma fix_raises d e : fix_ d = Raise e -> e = DecimalOverflow.
Proof.
  unfold fix_. repeat case_match; try done; by intros [= <-].
Qed.

Lemma add_raises a b e : add a b = Raise e -> e = DecimalOverflow.
Proof. unfold add. repeat case_match; apply fix_raises. Qed.

Lemma halve_raises a e : truediv a Decimal_2 = Raise e -> e = DecimalOverflow.
Proof.
  unfold truediv. change (is_zero Decimal_2) with false. cbv iota.
  repeat case_match; apply fix_raises.
Qed.

(** The only signal that stops [to_polygon] is an overflow: halving
    divides by no zero, and no operation is invalid. *)
Theorem to_polygon_raises label x_center y_center width height e :
  to_polygon label x_center y_center width height = Raise e ->
  e = DecimalOverflow.
Proof.
  unfold to_polygon, polygon_values, sub.
  repeat (match goal with
          | |- context [rbind ?r _] =>
              let H := fresh in
              destruct r eqn:H; cbn [rbind];
              [|intros [= <-];
                first [by eapply halve_raises | by eapply add_raises]]
          end).
  done.
Qed.

End PolygonMore.

Section PolygonMoreExamples.

Import ConvertYoloBboxToPolygon.

Lemma to_polygon_fields_witness :
  exists values,
    polygon_values (dec 5 (-1)) (dec 5 (-1)) (dec 2 (-1)) (dec 1 (-1))
    = Ok values
    /\ split (lit "3 0.4 0.6 0.6 0.4 0.45 0.45 0.55 0.55")
       = lit "3" :: map str values
    /\ length (split (lit "3 0.4 0.6 0.6 0.4 0.45 0.45 0.55 0.55")) = 9.
Proof.
  apply (to_polygon_fields (lit "3")).
  - split; [done|]. by repeat constructor.
  - vm_compute. reflexivity.
Defined.

(** Near the largest exponent, the sum of the centre and the half width
    has no room for its digits. *)
Lemma to_polygon_raises_witness :
  to_polygon (lit "0") (dec 9 999999) (dec 5 (-1)) (dec 2 999999) (dec 1 (-1))
  = Raise DecimalOverflow.
Proof.
  destruct (to_polygon (lit "0") (dec 9 999999) (dec 5 (-1)) (dec 2 999999)
              (dec 1 (-1))) as [out|e] eqn:Hrun.
  - vm_compute in Hrun. discriminate.
  - f_equal. by eapply to_polygon_raises.
Defined.

End PolygonMoreExamples.

(** ** Directories of label files *)


(** ** The recursive listing *)

(** [q] is a directory reached from [p] in [k] steps down. *)
Fixpoint reaches (d : disk) (p : Path) (k : nat) (q : Path) : Prop :=
  match k with
  | O => q = p
  | S k' => exists n, d !! child p n = Some Dir /\ reaches d (child p n) k' q
  end.

Lemma reaches_prefix d p k q : reaches d p k q -> p `prefix_of` q.
Proof.
  revert p. induction k as [|k IH]; intros p; cbn.
  - by intros ->.
  - intros (n & _ & Hr). apply IH in Hr. etrans; [|exact Hr].
    by apply prefix_app_r.
Qed.

Lemma reaches_length d p k q : reaches d p k q -> length q = length p + k.
Proof.
  revert p. induction k as [|k IH]; intros p; cbn.
  - intros ->. lia.
  - intros (n & _ & Hr). apply IH in Hr. unfold child in Hr.
    rewrite length_app in Hr. simpl in Hr. lia.
Qed.

Lemma reaches_dir d p k q : reaches d p (S k) q -> d !! q = Some Dir.
Proof.
  revert p. induction k as [|k IH]; intros p.
  - by intros (n & Hn & ->).
  - intros (n & _ & Hr). by eapply IH.
Qed.

Lemma elem_of_walk fuel d p q :
  q ∈ walk fuel d p <-> exists k, k < fuel /\ reaches d p k q.
Proof.
  revert p. induction fuel as [|fuel IH]; intros p; cbn [walk].
  - split; [by intros ?%elem_of_nil | intros (k & ? & _); lia].
  - rewrite elem_of_cons, list_elem_of_In, in_flat_map. split.
    + intros [->|(n & Hn & Hq)]; [exists 0; split; [lia | done]|].
      case_bool_decide as Hdir; [|done].
      apply list_elem_of_In, IH in Hq as (k & Hk & Hr).
      exists (S k). split; [lia|]. by exists n.
    + intros ([|k] & Hk & Hr); [by left|]. right.
      destruct Hr as (n & Hdir & Hr). exists n. split.
      * apply list_elem_of_In, elem_of_entries. by eexists.
      * rewrite bool_decide_true by done. apply list_elem_of_In, IH.
        exists k. split; [lia | done].
Qed.

Lemma depth_bound_length (d : disk) q x :
  d !! q = Some x -> length q < depth_bound d.
Proof.
  intros Hq. apply elem_of_map_to_list in Hq. unfold depth_bound.
  induction (map_to_list d) as [|kv l IH]; [by apply elem_of_nil in Hq|].
  apply elem_of_cons in Hq as [<-|Hq]; cbn; [lia|].
  specialize (IH Hq). lia.
Qed.

(** The bound is enough: every directory below [p] is visited. *)
Lemma elem_of_walk_all d p q :
  q ∈ walk (depth_bound d) d p <-> exists k, reaches d p k q.
Proof.
  rewrite elem_of_walk. split; [intros (k & _ & Hr); by exists k|].
  intros (k & Hr). exists k. split; [|done].
  destruct k as [|k]; [unfold depth_bound; lia|].
  pose proof (reaches_length _ _ _ _ Hr).
  pose proof (depth_bound_length _ _ _ (reaches_dir _ _ _ _ Hr)). lia.
Qed.

(** What [rglob] lists: the matching entries of the directories below
    [p]. *)
Definition listed (matches : string -> bool) (d : disk) (p q : Path) : Prop :=
  node_at d p = Some Dir
  /\ exists dir n k, q = child dir n /\ reaches d p k dir
                     /\ is_Some (d !! q) /\ matches n = true.

Lemma rglob_spec matches p d :
  exists paths, rglob matches p d = (Ok paths, d)
                /\ forall q, q ∈ paths <-> listed matches d p q.
Proof.
  unfold rglob, listed. destruct (node_at d p) as [[|c]|] eqn:Hp.
  - eexists. split; [done|]. intros q.
    rewrite list_elem_of_In, in_flat_map. split.
    + intros (dir & Hdir & Hq). split; [done|].
      apply list_elem_of_In, elem_of_walk_all in Hdir as [k Hr].
      apply in_map_iff in Hq as (n & <- & Hn).
      apply filter_In in Hn as [Hn Hm].
      apply list_elem_of_In, elem_of_entries in Hn.
      by exists dir, n, k.
    + intros (_ & dir & n & k & -> & Hr & Hn & Hm). exists dir. split.
      * apply list_elem_of_In, elem_of_walk_all. by exists k.
      * apply in_map, filter_In. split; [|done].
        by apply list_elem_of_In, elem_of_entries.
  - exists []. split; [done|]. intros q.
    split; [by intros ?%elem_of_nil | by intros [? _]].
  - exists []. split; [done|]. intros q.
    split; [by intros ?%elem_of_nil | by intros [? _]].
Qed.

Lemma listed_below matches d p q :
  listed matches d p q ->
  p `prefix_of` parent q /\ q <> p /\ matches (name q) = true
  /\ is_Some (d !! q) /\ node_at d (parent q) = Some Dir.
Proof.
  intros (Hp & dir & n & k & -> & Hr & Hq & Hm).
  rewrite parent_child, name_child. split; [by eapply reaches_prefix|].
  split.
  { intros Heq. apply reaches_prefix in Hr as [rest ->].
    apply (f_equal length) in Heq. unfold child in Heq.
    rewrite !length_app in Heq. simpl in Heq. lia. }
  split; [done|]. split; [done|].
  destruct k as [|k]; [by cbn in Hr; subst|].
  apply reaches_dir in Hr. destruct dir; [done|]. exact Hr.
Qed.

Lemma elem_of_sorted_paths q paths : q ∈ sorted_paths paths <-> q ∈ paths.
Proof. unfold sorted_paths. by rewrite merge_sort_Permutation. Qed.

(** Two disks of one shape: the same paths, leading to directories in
    the one as in the other. *)
Definition same_shape (d d' : disk) : Prop :=
  forall q, (is_Some (d !! q) <-> is_Some (d' !! q))
            /\ (d !! q = Some Dir <-> d' !! q = Some Dir).

Lemma same_shape_refl d : same_shape d d.
Proof. by intros q. Qed.

Lemma same_shape_trans d1 d2 d3 :
  same_shape d1 d2 -> same_shape d2 d3 -> same_shape d1 d3.
Proof.
  intros H12 H23 q. destruct (H12 q) as [Ha Hb], (H23 q) as [Hc Hd].
  split; [by rewrite Ha | by rewrite Hb].
Qed.

Lemma same_shape_sym d1 d2 : same_shape d1 d2 -> same_shape d2 d1.
Proof. intros H q. destruct (H q) as [Ha Hb]. by split. Qed.

Lemma same_shape_node d d' p :
  same_shape d d' -> node_at d p = Some Dir <-> node_at d' p = Some Dir.
Proof. intros Hs. destruct p; [done|]. apply Hs. Qed.

Lemma same_shape_reaches d d' p k q :
  same_shape d d' -> reaches d p k q -> reaches d' p k q.
Proof.
  intros Hs. revert p. induction k as [|k IH]; intros p; cbn; [done|].
  intros (n & Hn & Hr). exists n. split; [by apply Hs | by apply IH].
Qed.

Lemma same_shape_listed matches d d' p q :
  same_shape d d' -> listed matches d p q -> listed matches d' p q.
Proof.
  intros Hs (Hp & dir & n & k & -> & Hr & Hq & Hm). split.
  - by apply (same_shape_node d d').
  - exists dir, n, k. split; [done|]. split; [by eapply same_shape_reaches|].
    split; [by apply Hs | done].
Qed.

(** Writing a file over a file keeps the shape. *)
Lemma same_shape_rewrite (d : disk) (p : Path) c c' :
  d !! p = Some (File c) -> same_shape d (<[p := File c']> d).
Proof.
  intros Hp q. destruct (decide (p = q)) as [<-|Hne].
  - rewrite lookup_insert_eq, Hp. split; [split; by eexists|]. split; done.
  - by rewrite lookup_insert_ne.
Qed.


(** ** A script over the files of a directory

    The loop [for path in files: if op(path): ...] of the two scripts
    that rewrite label files in place, for an operation that rewrites
    the file it is given. *)

Section DirectoryLoop.

Context {S : Type}.

Variable op : Path -> M bool.

(** The files [op] leaves as they are. *)
Variable settled_at : disk -> Path -> Prop.

Variable update : S -> bool -> Path -> S.

Definition loop_body (st : S) (path : Path) : M S :=
  bind (op path) (fun changed => ret (update st changed path)).

Hypothesis settled_content : forall (d d' : disk) q,
  settled_at d q -> d' !! q = d !! q -> settled_at d' q.

Hypothesis op_shape : forall (d : disk) q r d',
  op q d = (r, d') ->
  same_shape d d' /\ forall q', q' <> q -> d' !! q' = d !! q'.

Lemma loop_shape (files : list Path) (st : S) (d : disk) r d' :
  for_each files st loop_body d = (r, d') ->
  same_shape d d' /\ (forall q, q ∉ files -> d' !! q = d !! q).
Proof using op_shape.
  revert st d. induction files as [|q files IH]; intros st d; cbn [for_each].
  - intros [= <- <-]. split; [apply same_shape_refl | done].
  - unfold loop_body at 1, bind at 1 2.
    destruct (op q d) as [r0 d0] eqn:Hop.
    destruct (op_shape _ _ _ _ Hop) as [Hs0 Ho0].
    destruct r0 as [c|e].
    + cbn. intros Hrest. destruct (IH _ _ Hrest) as [Hs1 Ho1].
      split; [by eapply same_shape_trans|].
      intros q' [Hne Hnin]%not_elem_of_cons.
      by rewrite (Ho1 _ Hnin), (Ho0 _ Hne).
    + intros [= <- <-]. split; [done|].
      intros q' [Hne _]%not_elem_of_cons. by apply Ho0.
Qed.

Hypothesis op_settles : forall (d : disk) q c d',
  q <> [] -> op q d = (Ok c, d') -> settled_at d' q.

Lemma loop_run (files : list Path) (st : S) (d : disk) st' d' :
  Forall (fun q => q <> []) files ->
  for_each files st loop_body d = (Ok st', d') ->
  same_shape d d' /\ (forall q, q ∈ files -> settled_at d' q).
Proof using op_shape op_settles settled_content.
  intros Hne. revert st d.
  induction Hne as [|q files Hq _ IH]; intros st d; cbn [for_each].
  - intros [= <- <-]. split; [apply same_shape_refl|].
    by intros q ?%elem_of_nil.
  - intros (st1 & d1 & Hstep & Hrest)%bind_Ok. unfold loop_body in Hstep.
    apply bind_Ok in Hstep as (c & d0 & Hop & Hret). injection Hret as _ <-.
    destruct (op_shape _ _ _ _ Hop) as [Hs1 _].
    pose proof (op_settles _ _ _ _ Hq Hop) as Hset.
    destruct (IH _ _ Hrest) as (Hs2 & Hall).
    destruct (loop_shape _ _ _ _ _ Hrest) as [_ Hrest'].
    split; [by eapply same_shape_trans|].
    intros q' [Heq|Hin]%elem_of_cons; [subst q'|by apply Hall].
    destruct (decide (q ∈ files)) as [Hin|Hnin]; [by apply Hall|].
    eapply settled_content; [exact Hset|]. by apply Hrest'.
Qed.

Hypothesis op_settled : forall (d : disk) q,
  q <> [] -> settled_at d q -> op q d = (Ok false, d).

Hypothesis update_unchanged : forall st q, update st false q = st.

Lemma loop_settled (files : list Path) (st : S) (d : disk) :
  Forall (fun q => q <> [] /\ settled_at d q) files ->
  for_each files st loop_body d = (Ok st, d).
Proof using op_settled update_unchanged.
  induction 1 as [|q files [Hq Hs] _ IH]; cbn [for_each]; [done|].
  unfold loop_body at 1, bind at 1 2.
  rewrite (op_settled d q Hq Hs). cbn. by rewrite update_unchanged.
Qed.

(** The second run of the loop over the files listed below [dir], after
    a first one that returned. *)
Lemma loop_twice (matches : string -> bool) (dir : Path) (st0 : S)
    (d : disk) paths st1 d1 :
  (forall q, q ∈ paths <-> listed matches d dir q) ->
  for_each (sorted_paths paths) st0 loop_body d = (Ok st1, d1) ->
  same_shape d d1
  /\ forall paths1,
       (forall q, q ∈ paths1 <-> listed matches d1 dir q) ->
       (paths1 = [] <-> paths = [])
       /\ for_each (sorted_paths paths1) st0 loop_body d1 = (Ok st0, d1).
Proof using All.
  intros Hpaths Hrun.
  assert (Forall (fun q => q <> []) (sorted_paths paths)) as Hne.
  { apply Forall_forall. intros q Hq%elem_of_sorted_paths%Hpaths.
    destruct Hq as (_ & dir' & n & k & -> & _). apply child_not_nil. }
  destruct (loop_run _ _ _ _ _ Hne Hrun) as [Hshape Hset].
  split; [done|]. intros paths1 Hpaths1.
  assert (forall q, q ∈ paths1 <-> q ∈ paths) as Hsame.
  { intros q. rewrite Hpaths, Hpaths1. split; apply same_shape_listed;
      [by apply same_shape_sym | done]. }
  split.
  - split; intros ->.
    + destruct paths as [|q l]; [done|]. exfalso.
      apply (elem_of_nil q), Hsame. by left.
    + destruct paths1 as [|q l]; [done|]. exfalso.
      apply (elem_of_nil q), Hsame. by left.
  - apply loop_settled, Forall_forall.
    intros q Hq%elem_of_sorted_paths%Hsame. split.
    + apply Hpaths in Hq as (_ & dir' & n & k & -> & _). apply child_not_nil.
    + by apply Hset, elem_of_sorted_paths.
Qed.

End DirectoryLoop.

Lemma sorted_paths_nil paths : sorted_paths paths = [] <-> paths = [].
Proof.
  split; [|by intros ->]. intros Hnil. destruct paths as [|q l]; [done|].
  exfalso. apply (elem_of_nil q). rewrite <-Hnil.
  apply elem_of_sorted_paths. by left.
Qed.


(** ** The normalizer on a directory *)

Section NormalizerMain.

Import ConvertLabelIndices.

(** A file the normalizer has nothing to change in. *)
Definition settled_file (d : disk) (q : Path) : Prop :=
  exists text, d !! q = Some (File text) /\ changes text = false.

Lemma settled_file_content (d d' : disk) q :
  settled_file d q -> d' !! q = d !! q -> settled_file d' q.
Proof. intros (text & Hq & Hch) Heq. exists text. by rewrite Heq. Qed.

Lemma rewrite_file_settled (dry_run : bool) (d : disk) (q : Path) :
  q <> [] -> settled_file d q -> rewrite_file q dry_run d = (Ok false, d).
Proof.
  intros Hq (text & Hnode & Hch). rewrite rewrite_file_eq.
  rewrite (node_at_lookup _ _ Hq), Hnode, Hch. done.
Qed.

Lemma rewrite_file_settles (d : disk) (q : Path) c d' :
  q <> [] -> rewrite_file q false d = (Ok c, d') -> settled_file d' q.
Proof.
  intros Hq. rewrite rewrite_file_eq, (node_at_lookup _ _ Hq).
  destruct (d !! q) as [[|text]|] eqn:Hnode; [done| |done].
  destruct (changes text) eqn:Hch; cbn [andb negb].
  - destruct (write_text _ _ d) as [[[]|e] d0] eqn:Hw; [|done].
    intros [= <- <-]. apply write_text_ok in Hw as (-> & _).
    exists (new_text_of text). rewrite lookup_insert_eq.
    split; [done | apply new_text_unchanged].
  - intros [= <- <-]. by exists text.
Qed.

Lemma rewrite_file_shape (dry_run : bool) (d : disk) (q : Path) r d' :
  rewrite_file q dry_run d = (r, d') ->
  same_shape d d' /\ forall q', q' <> q -> d' !! q' = d !! q'.
Proof.
  rewrite rewrite_file_eq.
  destruct (node_at d q) as [[|text]|] eqn:Hnode;
    [intros [= <- <-]; split; [apply same_shape_refl | done]|
    |intros [= <- <-]; split; [apply same_shape_refl | done]].
  assert (q <> []) as Hq by (by intros ->).
  rewrite (node_at_lookup _ _ Hq) in Hnode.
  destruct (changes text && negb dry_run);
    [|intros [= <- <-]; split; [apply same_shape_refl | done]].
  destruct (write_text _ _ d) as [r0 d0] eqn:Hw.
  assert (same_shape d d0 /\ forall q', q' <> q -> d0 !! q' = d !! q')
    as Hd0.
  { destruct (write_text_disk _ _ _ _ _ Hw) as [-> | ->].
    - split; [apply same_shape_refl | done].
    - split; [by eapply same_shape_rewrite|].
      intros q' Hne. by rewrite lookup_insert_ne. }
  by destruct r0 as [[]|e]; intros [= <- <-].
Qed.


Definition count_changed (dry_run : bool) (st : report) (changed : bool)
    (path : Path) : report :=
  if changed then
    {| changed_count := S (changed_count st);
       would_update := if dry_run then would_update st ++ [path]
                       else would_update st |}
  else st.

(** The normalizer is idempotent on a directory: after a run of [main]
    that is no dry run has returned, a second run finds files, changes
    none of them and leaves the disk as it is. *)
Theorem label_indices_main_idempotent labels_dir d r d1 :
  main labels_dir false d = (Ok r, d1) ->
  main labels_dir false d1
  = (Ok {| changed_count := 0; would_update := [] |}, d1).
Proof.
  unfold main, bind at 1, is_dir.
  case_bool_decide as Hdir; [|done]. cbn [negb]. unfold bind at 1.
  destruct (rglob_spec matches_txt labels_dir d) as (paths & -> & Hpaths).
  case_bool_decide as Hnil; [done|]. intros Hrun.
  destruct (loop_twice (fun q => rewrite_file q false) settled_file
              (count_changed false) settled_file_content
              (rewrite_file_shape false) rewrite_file_settles
              (rewrite_file_settled false) ltac:(done)
              matches_txt labels_dir _ d paths r d1 Hpaths Hrun)
    as [Hshape Hsecond].
  unfold bind at 1, is_dir.
  rewrite bool_decide_true by (by apply (same_shape_node d d1)).
  cbn [negb]. unfold bind at 1.
  destruct (rglob_spec matches_txt labels_dir d1) as (paths1 & -> & Hpaths1).
  destruct (Hsecond paths1 Hpaths1) as [Hnil1 Hrun1].
  rewrite bool_decide_false; [exact Hrun1|].
  rewrite sorted_paths_nil, Hnil1, <-sorted_paths_nil. done.
Qed.



End NormalizerMain.


(** ** The oriented-box converter on a directory *)

Section ObbConverterMain.

Import ConvertObbLabelsToCorners.

Context {F : Type} `{Float F}.

Hypothesis format_no_space :
  forall x : F, Forall (fun c => isspace c = false) (format_15f x).

(** A file the converter has nothing to change in. *)
Definition converted_file (d : disk) (q : Path) : Prop :=
  exists text, d !! q = Some (File text) /\ Forall settled (splitlines text).

Lemma converted_file_content (d d' : disk) q :
  converted_file d q -> d' !! q = d !! q -> converted_file d' q.
Proof. intros (text & Hq & Hall) Heq. exists text. by rewrite Heq. Qed.

Lemma process_file_converted (angle_format : text) (default_angle : F)
    (order : text)
    (dry_run : bool) (d : disk) (q : Path) :
  q <> [] -> converted_file d q ->
  process_file q angle_format default_angle order dry_run d = (Ok false, d).
Proof.
  intros Hq (text & Hnode & Hall). unfold process_file, bind, read_text, lift.
  rewrite (node_at_lookup _ _ Hq), Hnode.
  destruct (process_lines_settled q angle_format default_angle order
              (splitlines text) {| new_lines := []; changed := false |} Hall)
    as (st & -> & ->). done.
Qed.

Lemma process_file_converts (angle_format : text) (default_angle : F)
    (order : text)
    (d : disk) (q : Path) c d' :
  q <> [] ->
  process_file q angle_format default_angle order false d = (Ok c, d') ->
  converted_file d' q.
Proof using format_no_space.
  intros Hq. unfold process_file, bind, read_text, lift.
  rewrite (node_at_lookup _ _ Hq).
  destruct (d !! q) as [[|text]|] eqn:Hnode; [done| |done].
  destruct (rfold _ _ (splitlines text)) as [st|e] eqn:Hrun; [|done].
  destruct (process_lines_ok format_no_space _ _ _ _ _ _ _ Hrun)
    as (outs & Hn & Hnine & Ht & Hf).
  cbn [new_lines app] in Hn.
  destruct (changed st) eqn:Hc.
  - destruct (Ht eq_refl) as [?|Hne]; [done|].
    destruct (write_text _ _ d) as [[[]|e] d0] eqn:Hw; [|done].
    intros [= <- <-]. apply write_text_ok in Hw as (-> & _).
    eexists. rewrite lookup_insert_eq. split; [done|].
    rewrite Hn, splitlines_written by done.
    eapply Forall_impl; [exact Hnine|]. apply nine_line_settled.
  - intros [= <- <-]. destruct (Hf eq_refl) as [_ Hall]. by exists text.
Qed.

Lemma process_file_shape (angle_format : text) (default_angle : F)
    (order : text)
    (dry_run : bool) (d : disk) (q : Path) r d' :
  process_file q angle_format default_angle order dry_run d = (r, d') ->
  same_shape d d' /\ forall q', q' <> q -> d' !! q' = d !! q'.
Proof.
  assert (same_shape d d /\ forall q', q' <> q -> d !! q' = d !! q')
    as Hsame by (split; [apply same_shape_refl | done]).
  unfold process_file, bind, read_text, lift.
  destruct (node_at d q) as [[|text]|] eqn:Hnode; [by intros [= <- <-]|
    |by intros [= <- <-]].
  assert (q <> []) as Hq by (by intros ->).
  rewrite (node_at_lookup _ _ Hq) in Hnode.
  destruct (rfold _ _ (splitlines text)) as [st|e]; [|by intros [= <- <-]].
  destruct (changed st); [|by intros [= <- <-]].
  destruct dry_run; [by intros [= <- <-]|].
  destruct (write_text _ _ d) as [r0 d0] eqn:Hw.
  assert (same_shape d d0 /\ forall q', q' <> q -> d0 !! q' = d !! q')
    as Hd0.
  { destruct (write_text_disk _ _ _ _ _ Hw) as [-> | ->]; [done|].
    split; [by eapply same_shape_rewrite|].
    intros q' Hne. by rewrite lookup_insert_ne. }
  by destruct r0 as [[]|e]; intros [= <- <-].
Qed.

(** The converter is idempotent on a directory: after a run of [main]
    that is no dry run has returned, a second run, whatever its angle
    format, default angle and output order, finds files, changes none of
    them and leaves the disk as it is. *)
Theorem corners_main_idempotent labels_dir angle_format default_angle order
    angle_format' default_angle' order' d n d1 :
  main labels_dir angle_format default_angle order false d = (Ok n, d1) ->
  main labels_dir angle_format' default_angle' order' false d1 = (Ok 0, d1).
Proof using format_no_space.
  unfold main, iter_label_files, bind at 1, is_dir.
  case_bool_decide as Hdir; [|done]. cbn [negb]. unfold bind at 1 2.
  destruct (rglob_spec matches_txt labels_dir d) as (paths & -> & Hpaths).
  unfold ret at 1. case_bool_decide as Hnil; [done|]. intros Hrun.
  assert (same_shape d d1
          /\ forall q, q ∈ sorted_paths paths -> converted_file d1 q)
    as [Hshape Hset].
  { eapply (loop_run
              (fun q => process_file q angle_format default_angle order false)
              converted_file (fun (k : nat) (c : bool) (_ : Path) =>
                                if c then S k else k)
              converted_file_content
              (process_file_shape angle_format default_angle order false)
              (process_file_converts angle_format default_angle order));
      [|exact Hrun].
    apply Forall_forall. intros q Hq%elem_of_sorted_paths%Hpaths.
    destruct Hq as (_ & dir' & m & k & -> & _). apply child_not_nil. }
  unfold bind at 1, is_dir.
  rewrite bool_decide_true by (by apply (same_shape_node d d1)).
  cbn [negb]. unfold bind at 1 2.
  destruct (rglob_spec matches_txt labels_dir d1) as (paths1 & -> & Hpaths1).
  unfold ret at 1.
  assert (forall q, q ∈ paths1 <-> q ∈ paths) as Hsame.
  { intros q. rewrite Hpaths, Hpaths1. split; apply same_shape_listed;
      [by apply same_shape_sym | done]. }
  rewrite bool_decide_false.
  2:{ rewrite sorted_paths_nil. intros ->. apply Hnil, sorted_paths_nil.
      destruct paths as [|q l]; [done|]. exfalso.
      apply (elem_of_nil q), Hsame. by left. }
  apply (loop_settled
           (fun q => process_file q angle_format' default_angle' order' false)
           converted_file (fun (k : nat) (c : bool) (_ : Path) =>
                             if c then S k else k)
           (process_file_converted angle_format' default_angle' order' false)
           ltac:(done)).
  apply Forall_forall. intros q Hq%elem_of_sorted_paths%Hsame. split.
  - apply Hpaths in Hq as (_ & dir' & m & k & -> & _). apply child_not_nil.
  - by apply Hset, elem_of_sorted_paths.
Qed.


End ObbConverterMain.


(** ** The splitter on the disk *)

Section SplitterDisk.

Import SplitYoloObb.

(** *** The two directories *)





(** *** The pairs *)

Lemma by_path_stem_lookup paths (m : gmap string Path) s p :
  by_path_stem paths m !! s = Some p ->
  m !! s = Some p \/ (p ∈ paths /\ stem (name p) = s).
Proof.
  unfold by_path_stem. revert m.
  induction paths as [|q paths IH]; intros m; cbn; [by left|].
  intros Hl. destruct (IH _ Hl) as [Hm|[Hin Hs]].
  - destruct (decide (stem (name q) = s)) as [Heq|Hne].
    + rewrite Heq, lookup_insert_eq in Hm. injection Hm as <-.
      right. split; [by left | done].
    + rewrite lookup_insert_ne in Hm by done. by left.
  - right. split; [by right | done].
Qed.

Lemma by_path_stem_dom paths (m : gmap string Path) s :
  s ∈ dom (by_path_stem paths m)
  <-> s ∈ dom m \/ exists p, p ∈ paths /\ stem (name p) = s.
Proof.
  unfold by_path_stem. revert m.
  induction paths as [|q paths IH]; intros m; cbn.
  - split; [by left|]. intros [?|(p & Hp & _)]; [done|].
    by apply elem_of_nil in Hp.
  - rewrite IH, dom_insert, elem_of_union, elem_of_singleton. split.
    + intros [[->|?]|(p & Hp & <-)].
      * right. exists q. split; [by left | done].
      * by left.
      * right. exists p. split; [by right | done].
    + intros [?|(p & Hp & <-)]; [left; by right|].
      apply elem_of_cons in Hp as [->|Hp].
      * left. by left.
      * right. by exists p.
Qed.

(** An image of the listing: a path below the image directory that some
    extension matches. *)
Definition image_listed (d : disk) (image_dir : Path) (exts : list string)
    (p : Path) : Prop :=
  exists ext, ext ∈ exts /\ listed (matches_ext ext) d image_dir p.

Lemma images_loop image_dir exts (m : gmap string Path) d :
  exists images,
    for_each exts m (fun images ext =>
      bind (rglob (matches_ext ext) image_dir) (fun paths =>
      ret (by_path_stem paths images))) d = (Ok images, d)
    /\ (forall s p, images !! s = Some p ->
          m !! s = Some p
          \/ (image_listed d image_dir exts p /\ stem (name p) = s))
    /\ (forall s, s ∈ dom images
          <-> s ∈ dom m
              \/ exists p, image_listed d image_dir exts p
                           /\ stem (name p) = s).
Proof.
  revert m. induction exts as [|ext exts IH]; intros m; cbn [for_each].
  { exists m. split; [done|]. split; [by left|]. intros s.
    split; [by left|]. intros [?|(p & (ext & Hext & _) & _)]; [done|].
    by apply elem_of_nil in Hext. }
  unfold bind at 1 2.
  destruct (rglob_spec (matches_ext ext) image_dir d) as (paths & -> & Hpaths).
  unfold ret at 1.
  destruct (IH (by_path_stem paths m)) as (images & -> & Hlook & Hdom).
  exists images. split; [done|]. split.
  - intros s p Hp. destruct (Hlook s p Hp) as [Hm|[(e & He & Hl) Hs]].
    + destruct (by_path_stem_lookup _ _ _ _ Hm) as [?|[Hin Hs]]; [by left|].
      right. split; [|done]. exists ext. split; [by left|]. by apply Hpaths.
    + right. split; [|done]. exists e. split; [by right | done].
  - intros s. rewrite Hdom, by_path_stem_dom. split.
    + intros [[?|(p & Hp & Hs)]|(p & (e & He & Hl) & Hs)].
      * by left.
      * right. exists p. split; [|done]. exists ext.
        split; [by left|]. by apply Hpaths.
      * right. exists p. split; [|done]. exists e. split; [by right | done].
    + intros [?|(p & (e & He & Hl) & Hs)]; [left; by left|].
      apply elem_of_cons in He as [->|He].
      * left. right. exists p. split; [|done]. by apply Hpaths.
      * right. exists p. split; [|done]. by exists e.
Qed.

(** What holds of a pair [gather_pairs] returns. *)
Definition paired (d : disk) (image_dir label_dir : Path)
    (exts : list string) (pair : Path * Path) : Prop :=
  stem (name pair.1) = stem (name pair.2)
  /\ image_listed d image_dir exts pair.1
  /\ listed matches_txt d label_dir pair.2.

Lemma str_le_total : Total SyncToYoloObb.str_le.
Proof. intros a b. apply String.leb_total. Qed.

Lemma gather_pairs_run image_dir label_dir exts d g d' :
  gather_pairs image_dir label_dir exts d = (Ok g, d') ->
  d' = d
  /\ pairs_found g <> []
  /\ Forall (paired d image_dir label_dir exts) (pairs_found g)
  /\ NoDup (map (fun pair => stem (name pair.1)) (pairs_found g))
  /\ Sorted SyncToYoloObb.str_le
       (map (fun pair => stem (name pair.1)) (pairs_found g))
  /\ forall s,
       s ∈ map (fun pair => stem (name pair.1)) (pairs_found g)
       <-> (exists p, image_listed d image_dir exts p /\ stem (name p) = s)
           /\ (exists p, listed matches_txt d label_dir p
                         /\ stem (name p) = s).
Proof.
  unfold gather_pairs, bind at 1.
  destruct (images_loop image_dir exts ∅ d) as (images & -> & Hlook & Hdom).
  unfold bind at 1.
  destruct (rglob_spec matches_txt label_dir d) as (lpaths & -> & Hlpaths).
  set (labels := by_path_stem lpaths ∅).
  set (ids := sorted_ids (dom images ∩ dom labels)).
  case_bool_decide as Hnil; [done|]. intros [= <- <-]. cbn [pairs_found].
  assert (forall s, s ∈ ids <-> s ∈ dom images /\ s ∈ dom labels) as Hids.
  { intros s. unfold ids, sorted_ids.
    by rewrite elem_of_sorted_stems, elem_of_intersection. }
  assert (forall id, id ∈ ids ->
            paired d image_dir label_dir exts
              (getitem images id, getitem labels id)
            /\ stem (name (getitem images id)) = id) as Hpair.
  { intros id [[img Himg]%elem_of_dom [lbl Hlbl]%elem_of_dom]%Hids.
    unfold getitem. rewrite Himg, Hlbl. cbn [default from_option]. unfold Datatypes.id.
    destruct (Hlook _ _ Himg) as [Hm|[Hil His]];
      [by rewrite lookup_empty in Hm|].
    destruct (by_path_stem_lookup _ _ _ _ Hlbl) as [Hm|[Hll Hls]];
      [by rewrite lookup_empty in Hm|].
    split; [|done]. split; [cbn [fst snd]; congruence|]. split; [done|].
    by apply Hlpaths. }
  assert (map (fun pair : Path * Path => stem (name pair.1))
            (map (fun id => (getitem images id, getitem labels id)) ids)
          = ids) as Hstems.
  { rewrite map_map. cbn [fst]. rewrite <-(map_id ids) at 2.
    apply map_ext_in. intros id Hid%list_elem_of_In.
    by destruct (Hpair id Hid). }
  rewrite Hstems. split; [done|]. split; [by destruct ids|]. split.
  { apply Forall_map, Forall_forall. intros id Hid. by apply Hpair. }
  split; [apply sorted_stems_NoDup|]. split.
  { unfold ids, sorted_ids, SyncToYoloObb.sorted_stems.
    apply Sorted_merge_sort, str_le_total. }
  intros s. rewrite Hids, Hdom, dom_empty. unfold labels.
  rewrite by_path_stem_dom, dom_empty. split.
  - intros [[Hf|Hi] [Hf'|(p & Hp & Hs)]];
      [by apply not_elem_of_empty in Hf | by apply not_elem_of_empty in Hf
      | by apply not_elem_of_empty in Hf' |].
    split; [done|]. exists p. split; [by apply Hlpaths | done].
  - intros [Hi (p & Hp & Hs)]. split; [by right|]. right.
    exists p. split; [by apply Hlpaths | done].
Qed.

(** When [gather_pairs] returns, it has read only, and its pairs are an
    image of the listing of the image directory and a label of the
    listing of the label directory, of one stem: one pair, and no other,
    for every stem that both listings have, in the order of the stems. *)
Theorem gather_pairs_spec image_dir label_dir exts d g d' :
  gather_pairs image_dir label_dir exts d = (Ok g, d') ->
  d' = d
  /\ pairs_found g <> []
  /\ Forall (paired d image_dir label_dir exts) (pairs_found g)
  /\ NoDup (map (fun pair => stem (name pair.1)) (pairs_found g))
  /\ Sorted SyncToYoloObb.str_le
       (map (fun pair => stem (name pair.1)) (pairs_found g))
  /\ forall s,
       s ∈ map (fun pair => stem (name pair.1)) (pairs_found g)
       <-> (exists p, image_listed d image_dir exts p /\ stem (name p) = s)
           /\ (exists p, listed matches_txt d label_dir p
                         /\ stem (name p) = s).
Proof. apply gather_pairs_run. Qed.


End SplitterDisk.

(** *** Examples *)

Section DirectoryExamples.

Import RealFloat.

(** A labels directory with a file to normalise, a file in a
    subdirectory that is a polygon already, written with two spaces
    after the class, and a file that is no label. *)
Definition labels_tree : disk :=
  list_to_map
    [ (["labels"], Dir);
      (["labels"; "a.txt"],
       File (lit "3 0.5 0.5 0.2 0.1 1.57" ++ [LF]));
      (["labels"; "sub"], Dir);
      (["labels"; "sub"; "b.txt"],
       File (lit "1  0.1 0.2 0.3 0.2 0.3 0.4 0.1 0.4" ++ [LF]));
      (["labels"; "notes.md"], File (lit "notes" ++ [LF])) ]%string.

Example label_indices_main_example :
  let r := ConvertLabelIndices.main ["labels"%string] false labels_tree in
  r.1 = Ok {| ConvertLabelIndices.changed_count := 2;
              ConvertLabelIndices.would_update := [] |}
  /\ node_at r.2 ["labels"; "a.txt"]%string
     = Some (File (lit "0 0.5 0.5 0.2 0.1" ++ [LF]))
  /\ node_at r.2 ["labels"; "sub"; "b.txt"]%string
     = Some (File (lit "0 0.1 0.2 0.3 0.2" ++ [LF])).
Proof. repeat split; vm_compute; reflexivity. Qed.

Lemma label_indices_main_idempotent_witness :
  let d1 := (ConvertLabelIndices.main ["labels"%string] false labels_tree).2 in
  ConvertLabelIndices.main ["labels"%string] false d1
  = (Ok {| ConvertLabelIndices.changed_count := 0;
           ConvertLabelIndices.would_update := [] |}, d1).
Proof.
  cbv zeta.
  destruct (ConvertLabelIndices.main ["labels"%string] false labels_tree)
    as [[r|e] d1] eqn:Hrun; cbn [snd].
  - exact (label_indices_main_idempotent _ _ _ _ Hrun).
  - apply (f_equal fst) in Hrun. vm_compute in Hrun. discriminate.
Defined.

(** A labels directory of polygons, one written with two spaces after
    the class. *)
Definition polygons_tree : disk :=
  list_to_map
    [ (["labels"], Dir);
      (["labels"; "a.txt"],
       File (lit "3 0.1 0.2 0.3 0.2 0.3 0.4 0.1 0.4" ++ [LF]));
      (["labels"; "sub"], Dir);
      (["labels"; "sub"; "b.txt"],
       File (lit "1  0.1 0.2 0.3 0.2 0.3 0.4 0.1 0.4" ++ [LF])) ]%string.

Example corners_main_example :
  let r := ConvertObbLabelsToCorners.main (F := R) ["labels"%string]
             (lit "radians") 0%R (lit "grouped") false polygons_tree in
  r.1 = Ok 1
  /\ node_at r.2 ["labels"; "sub"; "b.txt"]%string
     = Some (File (lit "1 0.1 0.2 0.3 0.2 0.3 0.4 0.1 0.4" ++ [LF])).
Proof. repeat split; vm_compute; reflexivity. Qed.

Lemma corners_main_idempotent_witness :
  let d1 := (ConvertObbLabelsToCorners.main (F := R) ["labels"%string]
               (lit "radians") 0%R (lit "grouped") false polygons_tree).2 in
  ConvertObbLabelsToCorners.main (F := R) ["labels"%string]
    (lit "degrees") 45%R (lit "interleaved") false d1
  = (Ok 0, d1).
Proof.
  cbv zeta.
  destruct (ConvertObbLabelsToCorners.main (F := R) ["labels"%string]
              (lit "radians") 0%R (lit "grouped") false polygons_tree)
    as [[n|e] d1] eqn:Hrun; cbn [snd].
  - exact (corners_main_idempotent (F := R) R_format_no_space _ _ _ _ _ _ _
             _ _ _ Hrun).
  - apply (f_equal fst) in Hrun. vm_compute in Hrun. discriminate.
Defined.

(** A data set of two pairs, an image without a label and a label
    without an image; the image [a] is there as [.jpg] and as [.png]. *)
Definition pairs_tree : disk :=
  list_to_map
    [ (["data"], Dir);
      (["data"; "images"], Dir);
      (["data"; "images"; "a.jpg"], File (lit "JPEG a"));
      (["data"; "images"; "a.png"], File (lit "PNG a"));
      (["data"; "images"; "more"], Dir);
      (["data"; "images"; "more"; "b.jpeg"], File (lit "JPEG b"));
      (["data"; "images"; "c.png"], File (lit "PNG c"));
      (["data"; "labels"], Dir);
      (["data"; "labels"; "a.txt"], File (lit "0 0.5 0.5 0.2 0.1" ++ [LF]));
      (["data"; "labels"; "b.txt"], File (lit "0 0.5 0.5 0.2 0.1" ++ [LF]));
      (["data"; "labels"; "d.txt"], File (lit "0 0.5 0.5 0.2 0.1" ++ [LF]))
    ]%string.

Definition pair_exts : list string := [".jpg"; ".jpeg"; ".png"]%string.

Example gather_pairs_example :
  (SplitYoloObb.gather_pairs ["data"; "images"]%string
     ["data"; "labels"]%string pair_exts pairs_tree).1
  = Ok {| SplitYoloObb.pairs_found :=
            [(["data"; "images"; "a.png"], ["data"; "labels"; "a.txt"]);
             (["data"; "images"; "more"; "b.jpeg"],
              ["data"; "labels"; "b.txt"])]%string;
          SplitYoloObb.missing_images := ["d"%string];
          SplitYoloObb.missing_labels := ["c"%string] |}.
Proof. vm_compute. reflexivity. Qed.

Lemma gather_pairs_spec_witness :
  let image_dir := ["data"; "images"]%string in
  let label_dir := ["data"; "labels"]%string in
  match (SplitYoloObb.gather_pairs image_dir label_dir pair_exts
           pairs_tree).1 with
  | Ok g =>
      Forall (paired pairs_tree image_dir label_dir pair_exts)
        (SplitYoloObb.pairs_found g)
      /\ map (fun pair => stem (name pair.1)) (SplitYoloObb.pairs_found g)
         = ["a"; "b"]%string
  | Raise _ => False
  end.
Proof.
  cbv zeta.
  destruct (SplitYoloObb.gather_pairs ["data"; "images"]%string
              ["data"; "labels"]%string pair_exts pairs_tree)
    as [[g|e] d'] eqn:Hrun; cbn [fst].
  - destruct (gather_pairs_spec _ _ _ _ _ _ Hrun)
      as (_ & _ & Hall & _ & _ & _).
    split; [exact Hall|].
    apply (f_equal fst) in Hrun. vm_compute in Hrun.
    injection Hrun as <-. reflexivity.
  - apply (f_equal fst) in Hrun. vm_compute in Hrun. discriminate.
Defined.

End DirectoryExamples.
